(** * bundle_libs.py: bundling dylibs and Qt frameworks into a plugin directory

    A shallow embedding of [bundle_libs.py].  Python [str] values are lists of
    Unicode code points, [pathlib.Path] values are their (normalised) string
    form, the file system is a finite map from paths to nodes, and the two
    external tools ([otool], [install_name_tool]) act on an abstract view of the
    load commands of a Mach-O file.  The script itself is embedded in a small
    state-and-exception monad over that world. *)

From Stdlib Require Import Strings.String Strings.Ascii.
From stdpp Require Import base list gmap sets fin_maps.

Local Open Scope N_scope.

(** ** Python strings *)

(** A Python [str] is a sequence of code points. *)
Abbreviation str := (list N).

Fixpoint U (s : string) : str :=
  match s with
  | EmptyString => []
  | String c s' => N_of_ascii c :: U s'
  end.

(** [s.startswith(pre)] *)
Fixpoint startswith (pre s : str) : bool :=
  match pre, s with
  | [], _ => true
  | _ :: _, [] => false
  | a :: pre', b :: s' => (a =? b) && startswith pre' s'
  end.

(** [s.endswith(suf)] *)
Definition endswith (suf s : str) : bool :=
  startswith (rev suf) (rev s).

(** [needle in s] *)
Fixpoint contains (needle s : str) : bool :=
  startswith needle s ||
  match s with
  | [] => false
  | _ :: s' => contains needle s'
  end.

(** [s.removesuffix(suf)] *)
Definition removesuffix (suf s : str) : str :=
  if endswith suf s then take (length s - length suf)%nat s else s.

Definition cons_field (c : N) (fields : list str) : list str :=
  match fields with
  | [] => [[c]]
  | f :: fields' => (c :: f) :: fields'
  end.

(** [s.split(sep)] for a one-character separator. *)
Fixpoint split_on (sep : N) (s : str) : list str :=
  match s with
  | [] => [[]]
  | c :: s' =>
      if c =? sep then [] :: split_on sep s'
      else cons_field c (split_on sep s')
  end.

(** [s.split(sep, 1)] for a one-character separator. *)
Fixpoint split_once (sep : N) (s : str) : list str :=
  match s with
  | [] => [[]]
  | c :: s' =>
      if c =? sep then [[]; s']
      else cons_field c (split_once sep s')
  end.

(** [l[0]] on a list of strings; [split] never returns an empty list (see
    [split_once_nonempty]), so the default is never used. *)
Definition item0 (l : list str) : str :=
  match l with
  | [] => []
  | x :: _ => x
  end.

(** The characters for which [str.isspace] holds. *)
Definition is_space (c : N) : bool :=
  ((9 <=? c) && (c <=? 13)) || ((28 <=? c) && (c <=? 32)) ||
  (c =? 133) || (c =? 160) || (c =? 5760) ||
  ((8192 <=? c) && (c <=? 8202)) ||
  (c =? 8232) || (c =? 8233) || (c =? 8239) || (c =? 8287) || (c =? 12288).

(** The line boundaries of [str.splitlines]. *)
Definition is_linebreak (c : N) : bool :=
  ((10 <=? c) && (c <=? 13)) || ((28 <=? c) && (c <=? 30)) ||
  (c =? 133) || (c =? 8232) || (c =? 8233).

Fixpoint lstrip (s : str) : str :=
  match s with
  | [] => []
  | c :: s' => if is_space c then lstrip s' else s
  end.

Definition rstrip (s : str) : str := rev (lstrip (rev s)).

(** [s.strip()] *)
Definition strip (s : str) : str := lstrip (rstrip s).

(** [s.splitlines()]: a carriage return directly followed by a line feed is one
    boundary, and a boundary at the very end opens no further line. *)
Fixpoint splitlines (s : str) : list str :=
  match s with
  | [] => []
  | c :: s' =>
      if is_linebreak c then
        [] :: (if c =? 13
               then match s' with
                    | 10 :: s'' => splitlines s''
                    | _ => splitlines s'
                    end
               else splitlines s')
      else cons_field c (splitlines s')
  end.

(** The prefix of [s] before the first occurrence of [sep] (all of [s] when
    there is none). *)
Fixpoint before (sep : N) (s : str) : str :=
  match s with
  | [] => []
  | c :: s' => if c =? sep then [] else c :: before sep s'
  end.

(** [Path(s).name] for a path that does not end in a slash: the text after the
    last slash. *)
Definition path_name (s : str) : str := rev (before 47 (rev s)).

(** ** [otool_deps]: the text processing *)

(** [line.strip().split(" ", 1)[0]] *)
Definition dep_of_line (line : str) : str :=
  item0 (split_once 32 (strip line)).

(** The loop of [otool_deps] over [out.splitlines()[1:]], appending one entry
    to [deps] per line. *)
Definition otool_deps_text (out : str) : list str :=
  fold_left (fun deps line => deps ++ [dep_of_line line])
            (drop 1 (splitlines out)) [].

(** [framework_name]: the first component that ends in [.framework], with
    that suffix removed. *)
Fixpoint first_framework (parts : list str) : option str :=
  match parts with
  | [] => None
  | part :: parts' =>
      if endswith (U ".framework") part
      then Some (removesuffix (U ".framework") part)
      else first_framework parts'
  end.

Definition framework_name (dep : str) : option str :=
  first_framework (split_on 47 dep).

(** ** The world: a file system of Mach-O files and a log of effects *)

(** The load commands of a Mach-O file that the two tools read and write.  Only
    a dynamic library carries an install name. *)
Record macho := MachO {
  install_name : option str;
  deps : list str;
  rpaths : list str
}.

Inductive node :=
  | Dir
  | Bin (m : macho)
  | Data (text : str).

(** The command lines the script builds. *)
Inductive command :=
  | Otool_L (path : str)                       (* otool -L path *)
  | Otool_l (path : str)                       (* otool -l path *)
  | Int_id (new_id path : str)                 (* install_name_tool -id *)
  | Int_change (old new path : str)            (* install_name_tool -change *)
  | Int_add_rpath (rpath path : str).          (* install_name_tool -add_rpath *)

Inductive event :=
  | EStderr (msg : str)
  | EMkdir (p : str)
  | ERmtree (p : str)
  | ECopytree (src dst : str)
  | EWriteText (p text : str)
  | ECopy2 (src dst : str)
  | ERun (cmd : command).

Record world := World {
  fs : gmap str node;
  log : list event
}.

Inductive exn :=
  | FileNotFoundError
  | FileExistsError
  | NotADirectoryError
  | IsADirectoryError
  | CalledProcessError.

(** How a computation ends early.  [OutOfFuel] is not a behaviour of the
    script: it marks a run of the model whose loop bound was too small. *)
Inductive abort :=
  | Exit (code : Z)
  | Raise (e : exn)
  | OutOfFuel.

Inductive res (A : Type) :=
  | Ok (a : A)
  | Abort (x : abort).
Arguments Ok {A} a.
Arguments Abort {A} x.

(** The exit status of the interpreter: an uncaught exception ends it with
    status 1. *)
Definition abort_status (x : abort) : option Z :=
  match x with
  | Exit c => Some c
  | Raise _ => Some 1%Z
  | OutOfFuel => None
  end.

Definition exit_status {A} (r : res A) : option Z :=
  match r with
  | Ok _ => Some 0%Z
  | Abort x => abort_status x
  end.

Definition M (A : Type) : Type := world → res A * world.

Definition ret {A} (a : A) : M A := λ w, (Ok a, w).

Definition bind {A B} (m : M A) (k : A → M B) : M B :=
  λ w, match m w with
       | (Ok a, w') => k a w'
       | (Abort x, w') => (Abort x, w')
       end.

Notation "x <- c1 ;; c2" := (bind c1 (λ x, c2))
  (at level 100, c1 at next level, right associativity).
Notation "c1 ;; c2" := (bind c1 (λ _, c2))
  (at level 100, right associativity).

Definition raise {A} (e : exn) : M A := λ w, (Abort (Raise e), w).
Definition sys_exit {A} (code : Z) : M A := λ w, (Abort (Exit code), w).
Definition out_of_fuel {A} : M A := λ w, (Abort OutOfFuel, w).
Definition read {A} (f : gmap str node → A) : M A := λ w, (Ok (f (fs w)), w).

Fixpoint for_each {A} (l : list A) (body : A → M unit) : M unit :=
  match l with
  | [] => ret tt
  | x :: l' => body x ;; for_each l' body
  end.

Fixpoint fold_m {A S} (l : list A) (body : A → S → M S) (s : S) : M S :=
  match l with
  | [] => ret s
  | x :: l' => s' <- body x s ;; fold_m l' body s'
  end.

(** ** Paths *)

(** [p / s] *)
Definition pjoin (p s : str) : str := p ++ 47 :: s.
Infix "//" := pjoin (at level 40, left associativity).

(** [k] is [p] or lies below it. *)
Definition under (p k : str) : bool :=
  bool_decide (k = p) || startswith (p ++ [47]) k.

(** ** The external tools *)

Definition dylib_line (name : str) : str :=
  9 :: name ++ U " (compatibility version 1.0.0, current version 1.0.0)" ++ [10].

(** The names [otool -L] lists: the install name of a library first, then the
    libraries it loads. *)
Definition listed_names (m : macho) : list str :=
  match install_name m with
  | Some i => i :: deps m
  | None => deps m
  end.

(** The output of [otool -L path]. *)
Definition otool_L_text (path : str) (m : macho) : str :=
  path ++ U ":" ++ [10] ++ concat (dylib_line <$> listed_names m).

Definition name_command (cmd : string) (name : str) : str :=
  U "          cmd " ++ U cmd ++ [10] ++
  U "      cmdsize 56" ++ [10] ++
  U "         name " ++ name ++ U " (offset 24)" ++ [10].

Definition rpath_command (r : str) : str :=
  U "          cmd LC_RPATH" ++ [10] ++
  U "      cmdsize 32" ++ [10] ++
  U "         path " ++ r ++ U " (offset 12)" ++ [10].

(** The output of [otool -l path], restricted to the load commands of the
    model. *)
Definition otool_l_text (path : str) (m : macho) : str :=
  path ++ U ":" ++ [10] ++
  concat (name_command "LC_ID_DYLIB" <$> from_option (λ i, [i]) [] (install_name m)) ++
  concat (name_command "LC_LOAD_DYLIB" <$> deps m) ++
  concat (rpath_command <$> rpaths m).

(** What [install_name_tool] does to the load commands; [None] when it ends
    with a non-zero status.  [-id] is ignored on a file that is not a dynamic
    library, [-add_rpath] refuses a path the file already has. *)
Definition tool_effect (cmd : command) (m : macho) : option macho :=
  match cmd with
  | Otool_L _ | Otool_l _ => Some m
  | Int_id new_id _ =>
      Some (MachO (match install_name m with Some _ => Some new_id | None => None end)
                  (deps m) (rpaths m))
  | Int_change old new _ =>
      Some (MachO (install_name m)
                  ((λ d, if bool_decide (d = old) then new else d) <$> deps m)
                  (rpaths m))
  | Int_add_rpath r _ =>
      if bool_decide (r ∈ rpaths m) then None
      else Some (MachO (install_name m) (deps m) (rpaths m ++ [r]))
  end.

Definition command_path (cmd : command) : str :=
  match cmd with
  | Otool_L p | Otool_l p | Int_id _ p | Int_change _ _ p | Int_add_rpath _ p => p
  end.

Definition command_output (cmd : command) (m : macho) : str :=
  match cmd with
  | Otool_L p => otool_L_text p m
  | Otool_l p => otool_l_text p m
  | _ => []
  end.

(** The effect of a command on the file system, and whether it succeeded:
    both tools fail on a path that is not a Mach-O file. *)
Definition exec (cmd : command) (fs0 : gmap str node) : option (macho * gmap str node) :=
  match fs0 !! command_path cmd with
  | Some (Bin m) =>
      match tool_effect cmd m with
      | Some m' => Some (m, <[command_path cmd := Bin m']> fs0)
      | None => None
      end
  | _ => None
  end.

(** ** File-system effects *)

Definition rmtree_fs (p : str) (fs0 : gmap str node) : gmap str node :=
  filter (λ kn, under p kn.1 = false) fs0.

Definition copytree_fs (src dst : str) (fs0 : gmap str node) : gmap str node :=
  foldr (λ kn acc, if under src kn.1
                   then <[dst ++ drop (length src) kn.1 := kn.2]> acc
                   else acc)
        fs0 (map_to_list fs0).

Definition copy2_fs (src dst : str) (fs0 : gmap str node) : gmap str node :=
  match fs0 !! src with
  | Some n => <[dst := n]> fs0
  | None => fs0
  end.

Definition apply_event (e : event) (fs0 : gmap str node) : gmap str node :=
  match e with
  | EStderr _ => fs0
  | EMkdir p => <[p := Dir]> fs0
  | ERmtree p => rmtree_fs p fs0
  | ECopytree src dst => copytree_fs src dst fs0
  | EWriteText p text => <[p := Data text]> fs0
  | ECopy2 src dst => copy2_fs src dst fs0
  | ERun cmd => match exec cmd fs0 with Some (_, fs1) => fs1 | None => fs0 end
  end.

(** The file system after a sequence of effects. *)
Definition replay (evs : list event) (fs0 : gmap str node) : gmap str node :=
  fold_left (λ acc e, apply_event e acc) evs fs0.

(** Every effect goes through [emit]: it is recorded and applied. *)
Definition emit (e : event) : M unit :=
  λ w, (Ok tt, World (apply_event e (fs w)) (log w ++ [e])).

(** ** The Python primitives the script calls *)

Definition print_stderr (msg : str) : M unit := emit (EStderr msg).

(** [p.is_dir()] *)
Definition is_dir (p : str) : M bool :=
  read (λ f, match f !! p with Some Dir => true | _ => false end).

(** [p.exists()] *)
Definition path_exists (p : str) : M bool :=
  read (λ f, match f !! p with Some _ => true | None => false end).

(** [p.mkdir(parents=True, exist_ok=True)]; at each call of the script the
    parent directory exists. *)
Definition mkdir (p : str) : M unit :=
  n <- read (λ f, f !! p) ;;
  match n with
  | Some Dir => ret tt
  | Some _ => raise FileExistsError
  | None => emit (EMkdir p)
  end.

(** [shutil.rmtree(p)] *)
Definition rmtree (p : str) : M unit :=
  n <- read (λ f, f !! p) ;;
  match n with
  | Some Dir => emit (ERmtree p)
  | Some _ => raise NotADirectoryError
  | None => raise FileNotFoundError
  end.

(** [shutil.copytree(src, dst, symlinks=True)] *)
Definition copytree (src dst : str) : M unit :=
  s <- read (λ f, f !! src) ;;
  d <- read (λ f, f !! dst) ;;
  match s with
  | Some Dir =>
      match d with
      | Some _ => raise FileExistsError
      | None => emit (ECopytree src dst)
      end
  | Some _ => raise NotADirectoryError
  | None => raise FileNotFoundError
  end.

(** [p.write_text(text)] *)
Definition write_text (p text : str) : M unit :=
  n <- read (λ f, f !! p) ;;
  match n with
  | Some Dir => raise IsADirectoryError
  | _ => emit (EWriteText p text)
  end.

(** [shutil.copy2(src, dst)]; at each call of the script [dst] does not
    exist. *)
Definition copy2 (src dst : str) : M unit :=
  s <- read (λ f, f !! src) ;;
  match s with
  | Some Dir => raise IsADirectoryError
  | Some _ => emit (ECopy2 src dst)
  | None => raise FileNotFoundError
  end.

(** [subprocess.check_output(cmd, text=True)] *)
Definition check_output (cmd : command) : M str :=
  o <- read (exec cmd) ;;
  emit (ERun cmd) ;;
  match o with
  | Some (m, _) => ret (command_output cmd m)
  | None => raise CalledProcessError
  end.

(** [dir.glob("*.dylib")]: the entries directly inside [dir] whose name ends
    in [.dylib]. *)
Definition child_dylib (dir k : str) : bool :=
  startswith (dir ++ [47]) k &&
  (let n := drop (length dir + 1) k in
   negb (contains [47] n) && endswith (U ".dylib") n).

Definition glob_dylib (dir : str) : M (list str) :=
  read (λ f, List.filter (child_dylib dir) (elements (dom f))).

(** [dir.rglob("*.dylib")]: the entries anywhere below [dir] whose name ends
    in [.dylib]. *)
Definition below_dylib (dir k : str) : bool :=
  startswith (dir ++ [47]) k &&
  endswith (U ".dylib") (drop (length dir + 1) k).

Definition rglob_dylib (dir : str) : M (list str) :=
  read (λ f, List.filter (below_dylib dir) (elements (dom f))).

(** ** The script *)

Definition QT_FRAMEWORKS : list str :=
  [U "QtCore"; U "QtGui"; U "QtWidgets"; U "QtNetwork"; U "QtDBus";
   U "QtPrintSupport"].

Definition QT_PLUGIN_SUBDIRS : list str :=
  [U "platforms"; U "styles"; U "imageformats"; U "iconengines"].

Definition run (cmd : command) : M unit :=
  o <- read (exec cmd) ;;
  emit (ERun cmd) ;;
  match o with
  | Some _ => ret tt
  | None => raise CalledProcessError
  end.

Definition otool_deps (path : str) : M (list str) :=
  out <- check_output (Otool_L path) ;;
  ret (otool_deps_text out).

Definition add_rpath_if_missing (binpath rpath : str) : M unit :=
  out <- check_output (Otool_l binpath) ;;
  if contains (U "path " ++ rpath ++ U " ") out then ret tt
  else run (Int_add_rpath rpath binpath).

Definition set_id (binpath new_id : str) : M unit :=
  run (Int_id new_id binpath).

(** The arguments of [bundle]. *)
Record args := Args {
  bundle_dir : str;
  plugin_bin : str;
  qt_prefix : str;
  gimp_app : str;
  macports_prefix : str
}.

Definition frameworks_dir (a : args) : str := bundle_dir a // U "Frameworks".
Definition plugins_dir (a : args) : str := frameworks_dir a // U "plugins".
Definition lib_dir (a : args) : str := frameworks_dir a // U "lib".
Definition qt_lib_dir (a : args) : str := qt_prefix a // U "lib".
Definition qt_plugins_dir (a : args) : str := qt_prefix a // U "plugins".

Definition explicit_libs (a : args) : list str :=
  [macports_prefix a // U "lib/libfftw3.3.dylib";
   macports_prefix a // U "lib/libfftw3_threads.3.dylib";
   macports_prefix a // U "lib/libomp/libomp.dylib";
   macports_prefix a // U "lib/libdbus-1.3.dylib";
   gimp_app a // U "Contents/Resources/lib/libpng16.16.dylib";
   gimp_app a // U "Contents/Resources/lib/libz.1.dylib";
   gimp_app a // U "Contents/Resources/lib/libcurl.4.dylib"].

(** [frameworks_dir / f"{name}.framework/Versions/5/{name}"] *)
Definition fw_bin (a : args) (name : str) : str :=
  frameworks_dir a // (name ++ U ".framework/Versions/5/" ++ name).

(** [f"@rpath/{name}.framework/Versions/5/{name}"] *)
Definition fw_ref (name : str) : str :=
  U "@rpath/" ++ name ++ U ".framework/Versions/5/" ++ name.

(** [f"@rpath/lib/{name}"] *)
Definition lib_ref (name : str) : str := U "@rpath/lib/" ++ name.

Definition check_args (a : args) : M unit :=
  d <- is_dir (bundle_dir a) ;;
  e <- path_exists (plugin_bin a) ;;
  if negb d || negb e then
    print_stderr (U "Missing bundle_dir or plugin_bin") ;;
    sys_exit 1
  else ret tt.

Definition make_dirs (a : args) : M unit :=
  for_each [frameworks_dir a; plugins_dir a; lib_dir a] mkdir.

Definition copy_qt_framework (a : args) (name : str) : M unit :=
  let src := qt_lib_dir a // (name ++ U ".framework") in
  let dst := frameworks_dir a // (name ++ U ".framework") in
  e <- path_exists src ;;
  (if negb e then
     print_stderr (U "Missing Qt framework: " ++ src) ;;
     sys_exit 1
   else ret tt) ;;
  d <- path_exists dst ;;
  (if d then rmtree dst else ret tt) ;;
  copytree src dst.

Definition copy_qt_frameworks (a : args) : M unit :=
  for_each QT_FRAMEWORKS (copy_qt_framework a).

Definition copy_qt_plugin (a : args) (sub : str) : M unit :=
  let src := qt_plugins_dir a // sub in
  let dst := plugins_dir a // sub in
  e <- path_exists src ;;
  if e then
    d <- path_exists dst ;;
    (if d then rmtree dst else ret tt) ;;
    copytree src dst
  else ret tt.

Definition copy_qt_plugins (a : args) : M unit :=
  for_each QT_PLUGIN_SUBDIRS (copy_qt_plugin a).

Definition write_qt_conf (a : args) : M unit :=
  write_text (bundle_dir a // U "qt.conf")
             (U "[Paths]" ++ [10] ++ U "Plugins = Frameworks/plugins" ++ [10]).

(** The initial set of binaries: the plugin, the framework binaries that
    exist, the dylibs among the Qt plugins. *)
Definition collect_binaries (a : args) : M (gset str) :=
  binaries <- fold_m QT_FRAMEWORKS
                (λ name (binaries : gset str),
                   e <- path_exists (fw_bin a name) ;;
                   if e then ret (binaries ∪ {[fw_bin a name]}) else ret binaries)
                ({[plugin_bin a]} : gset str) ;;
  dylibs <- rglob_dylib (plugins_dir a) ;;
  fold_m dylibs (λ dylib (binaries : gset str), ret (binaries ∪ {[dylib]})) binaries.

Definition copy_explicit_lib (a : args) (src : str) : M unit :=
  e <- path_exists src ;;
  if e then
    let dst := lib_dir a // path_name src in
    d <- path_exists dst ;;
    if negb d then copy2 src dst else ret tt
  else ret tt.

Definition copy_explicit_libs (a : args) : M unit :=
  for_each (explicit_libs a) (copy_explicit_lib a).

(** The body of the inner loop of the walk, on the pair of [queue] and
    [seen]. *)
Definition walk_dep (a : args) (dep : str) (st : list str * gset str)
  : M (list str * gset str) :=
  if startswith (U "@") dep then ret st
  else if startswith (gimp_app a) dep then ret st
  else if startswith (U "/System") dep || startswith (U "/usr/lib") dep then ret st
  else if startswith (macports_prefix a) dep && endswith (U ".dylib") dep then
    let src := dep in
    let dst := lib_dir a // path_name src in
    d <- path_exists dst ;;
    if negb d then
      copy2 src dst ;;
      ret (st.1 ++ [dst], st.2 ∪ {[dst]})
    else ret st
  else ret st.

(** [while queue: item = queue.pop(0); ...] *)
Fixpoint walk (fuel : nat) (a : args) (queue : list str) (seen : gset str)
  : M unit :=
  match queue with
  | [] => ret tt
  | item :: queue' =>
      match fuel with
      | O => out_of_fuel
      | S fuel' =>
          ds <- otool_deps item ;;
          st <- fold_m ds (walk_dep a) (queue', seen) ;;
          walk fuel' a st.1 st.2
      end
  end.

Definition add_copied (a : args) (binaries : gset str) : M (gset str) :=
  dylibs <- glob_dylib (lib_dir a) ;;
  fold_m dylibs (λ dylib (binaries : gset str), ret (binaries ∪ {[dylib]})) binaries.

Definition fix_install_ids (a : args) : M unit :=
  dylibs <- glob_dylib (lib_dir a) ;;
  for_each dylibs (λ dylib, set_id dylib (lib_ref (path_name dylib))) ;;
  for_each QT_FRAMEWORKS
    (λ name,
       e <- path_exists (fw_bin a name) ;;
       if e then set_id (fw_bin a name) (fw_ref name) else ret tt).

Definition remap_dep (a : args) (binpath dep : str) : M unit :=
  if startswith (U "@") dep then ret tt
  else if startswith (gimp_app a) dep
          || startswith (U "/System") dep
          || startswith (U "/usr/lib") dep then ret tt
  else if startswith (macports_prefix a) dep then
    if contains (U ".framework/") dep then
      match framework_name dep with
      | Some ((_ :: _) as name) => run (Int_change dep (fw_ref name) binpath)
      | _ => ret tt
      end
    else if endswith (U ".dylib") dep then
      run (Int_change dep (lib_ref (path_name dep)) binpath)
    else ret tt
  else ret tt.

Definition remap_deps (a : args) (binaries : gset str) : M unit :=
  for_each (elements binaries)
    (λ binpath, ds <- otool_deps binpath ;; for_each ds (remap_dep a binpath)).

Definition add_rpaths (a : args) : M unit :=
  add_rpath_if_missing (plugin_bin a) (U "@loader_path/Frameworks") ;;
  add_rpath_if_missing (plugin_bin a) (gimp_app a ++ U "/Contents/Resources") ;;
  dylibs <- rglob_dylib (plugins_dir a) ;;
  for_each dylibs
    (λ dylib,
       add_rpath_if_missing dylib (U "@loader_path/../..") ;;
       add_rpath_if_missing dylib (U "@executable_path/../Frameworks")) ;;
  for_each QT_FRAMEWORKS
    (λ name,
       e <- path_exists (fw_bin a name) ;;
       if e then add_rpath_if_missing (fw_bin a name) (U "@loader_path/../../..")
       else ret tt).

(** Lines 84-175 of [bundle]: everything up to the final value of
    [binaries]. *)
Definition gather (fuel : nat) (a : args) : M (gset str) :=
  check_args a ;;
  make_dirs a ;;
  copy_qt_frameworks a ;;
  copy_qt_plugins a ;;
  write_qt_conf a ;;
  binaries <- collect_binaries a ;;
  copy_explicit_libs a ;;
  walk fuel a (elements binaries) binaries ;;
  add_copied a binaries.

(** Lines 177-218 of [bundle]. *)
Definition finish (a : args) (binaries : gset str) : M unit :=
  fix_install_ids a ;;
  remap_deps a binaries ;;
  add_rpaths a.

Definition bundle (fuel : nat) (a : args) : M unit :=
  binaries <- gather fuel a ;;
  finish a binaries.

(** A run of [bundle] on a file system, with an empty log. *)
Definition bundle_run (fuel : nat) (a : args) (fs0 : gmap str node)
  : res unit * world :=
  bundle fuel a (World fs0 []).

(** ** Specifications of computations *)

(** [wp m N X w]: running [m] from [w] ends normally in a state satisfying
    [N], or early in a state satisfying [X]. *)
Definition wp {A} (m : M A) (N : A → world → Prop) (X : abort → world → Prop)
    (w : world) : Prop :=
  match m w with
  | (Ok a, w') => N a w'
  | (Abort x, w') => X x w'
  end.

(** The world after an effect. *)
Definition after (e : event) (w : world) : world :=
  World (apply_event e (fs w)) (log w ++ [e]).

(** [m] keeps the invariant [I], however it ends, and ends early only in a
    way that [X] allows. *)
Definition keeps {A} (I : world → Prop) (X : abort → Prop) (m : M A) : Prop :=
  ∀ w, I w → wp m (λ _, I) (λ x w', I w' ∧ X x) w.

(** Ending early with exit status 1: by [sys.exit(1)] or by an exception. *)
Definition status1 (x : abort) : Prop := abort_status x = Some 1%Z.

(** Ending early by an exception. *)
Definition raised (x : abort) : Prop := ∃ e, x = Raise e.

(** Ending early by an exception, or because the loop bound of the model was
    too small. *)
Definition raised_or_fuel (x : abort) : Prop := x = OutOfFuel ∨ raised x.

(** [I] survives the effect [e]. *)
Definition stable (I : world → Prop) (e : event) : Prop :=
  ∀ w, I w → I (after e w).

(** [I] survives every effect that [G] allows in the state where it occurs. *)
Definition gstable (G : world → event → Prop) (I : world → Prop) : Prop :=
  ∀ w e, I w → G w e → I (after e w).

(** The effects of the first part of [bundle] (lines 84-127): messages, and
    directories made, removed and copied below [Frameworks]. *)
Definition early_event (a : args) (e : event) : Prop :=
  match e with
  | EStderr _ => True
  | EMkdir p | ERmtree p | ECopytree _ p => under (frameworks_dir a) p = true
  | EWriteText _ _ | ECopy2 _ _ | ERun _ => False
  end.

(** The source and destination of a Qt framework. *)
Definition fw_src (a : args) (name : str) : str :=
  qt_lib_dir a // (name ++ U ".framework").
Definition fw_dst (a : args) (name : str) : str :=
  frameworks_dir a // (name ++ U ".framework").

(** The install name the script gives to the binary at [p]. *)
Definition ids_pair (a : args) (new p : str) : Prop :=
  (child_dylib (lib_dir a) p = true ∧ new = lib_ref (path_name p))
  ∨ (∃ name, name ∈ QT_FRAMEWORKS ∧ p = fw_bin a name ∧ new = fw_ref name).

(** The run-time search paths the script wants the binary at [p] to have. *)
Definition rpath_pair (a : args) (p r : str) : Prop :=
  (p = plugin_bin a ∧
   (r = U "@loader_path/Frameworks" ∨ r = gimp_app a ++ U "/Contents/Resources"))
  ∨ (below_dylib (plugins_dir a) p = true ∧
     (r = U "@loader_path/../.." ∨ r = U "@executable_path/../Frameworks"))
  ∨ (∃ name, name ∈ QT_FRAMEWORKS ∧ p = fw_bin a name ∧
             r = U "@loader_path/../../..").

(** The test of [add_rpath_if_missing]: the output of [otool -l] shows the
    path. *)
Definition shows_rpath (p : str) (m : macho) (r : str) : bool :=
  contains (U "path " ++ r ++ U " ") (otool_l_text p m).

Definition is_copy (e : event) : Prop :=
  match e with ECopy2 _ _ => True | _ => False end.

Definition is_run (e : event) : Prop :=
  match e with ERun _ => True | _ => False end.

(** Nothing has been copied into [Frameworks/lib] and no tool has run. *)
Definition untouched (w : world) : Prop :=
  Forall (λ e, ¬ is_copy e ∧ ¬ is_run e) (log w).

(** What [bundle] may do in a state [w]: the effects of the first part only
    while nothing has been copied into [Frameworks/lib] or run; a copy into
    [Frameworks/lib] only of an existing file whose name ends in [.dylib], to
    a destination that does not exist; a search path added only where wanted
    and not yet shown. *)
Definition allowed (a : args) (w : world) (e : event) : Prop :=
  match e with
  | EStderr _ => True
  | EMkdir p | ERmtree p | ECopytree _ p =>
      under (frameworks_dir a) p = true ∧ untouched w
  | EWriteText p _ =>
      p = bundle_dir a // U "qt.conf" ∧ untouched w
  | ECopy2 src dst =>
      dst = lib_dir a // path_name src ∧ endswith (U ".dylib") src = true ∧
      fs w !! dst = None ∧ ∃ n, fs w !! src = Some n ∧ n ≠ Dir
  | ERun (Otool_L _) | ERun (Otool_l _) => True
  | ERun (Int_id new p) => ids_pair a new p
  | ERun (Int_change _ new _) => startswith (U "@") new = true
  | ERun (Int_add_rpath r p) =>
      rpath_pair a p r ∧ ∃ m, fs w !! p = Some (Bin m) ∧ shows_rpath p m r = false
  end.

(** The file system is what the logged effects make of [fs0], and each of
    them was allowed by [G] in the state where it happened. *)
Definition guarded_log (fs0 : gmap str node) (G : world → event → Prop)
    (w : world) : Prop :=
  fs w = replay (log w) fs0 ∧
  ∀ pre e post, log w = pre ++ e :: post → G (World (replay pre fs0) pre) e.

(** ** A small installation, used to run the model *)

Definition demo_prefix : string := "/opt/local/libexec/qt5".

Definition demo_framework (name : string) (ds : list string) : list (str * node) :=
  let dir := (demo_prefix ++ "/lib/" ++ name ++ ".framework")%string in
  let bin := (dir ++ "/Versions/5/" ++ name)%string in
  [(U dir, Dir);
   (U (dir ++ "/Versions"), Dir);
   (U (dir ++ "/Versions/5"), Dir);
   (U bin, Bin (MachO (Some (U bin)) (U <$> ds) []))].

Definition demo_fs : gmap str node :=
  list_to_map
    ([(U "/build/gmic_gimp_qt", Dir);
      (U "/build/gmic_gimp_qt/gmic_gimp_qt",
       Bin (MachO None
              [U "/opt/local/libexec/qt5/lib/QtCore.framework/Versions/5/QtCore";
               U "/opt/local/lib/a/libx.dylib";
               U "/opt/local/lib/b/libx.dylib";
               U "/usr/lib/libSystem.B.dylib";
               U "/opt/local/lib/libfoo.so"]
              []));
      (U "/opt/local/lib/a/libx.dylib",
       Bin (MachO (Some (U "/opt/local/lib/a/libx.dylib"))
              [U "/opt/local/lib/liby.dylib"] []));
      (U "/opt/local/lib/b/libx.dylib",
       Bin (MachO (Some (U "/opt/local/lib/b/libx.dylib")) [] []));
      (U "/opt/local/lib/liby.dylib",
       Bin (MachO (Some (U "/opt/local/lib/liby.dylib"))
              [U "/opt/local/lib/a/libx.dylib"] []));
      (U "/opt/local/lib/libfoo.so",
       Bin (MachO (Some (U "/opt/local/lib/libfoo.so")) [] []));
      (U "/opt/local/libexec/qt5/plugins/platforms", Dir);
      (U "/opt/local/libexec/qt5/plugins/platforms/libqcocoa.dylib",
       Bin (MachO (Some (U "/opt/local/libexec/qt5/plugins/platforms/libqcocoa.dylib"))
              [U "/opt/local/libexec/qt5/lib/QtGui.framework/Versions/5/QtGui"] []))]
     ++ demo_framework "QtCore" []
     ++ demo_framework "QtGui"
          ["/opt/local/libexec/qt5/lib/QtCore.framework/Versions/5/QtCore"%string]
     ++ demo_framework "QtWidgets" []
     ++ demo_framework "QtNetwork" []
     ++ demo_framework "QtDBus" []
     ++ demo_framework "QtPrintSupport" []).

Definition demo_args : args :=
  Args (U "/build/gmic_gimp_qt") (U "/build/gmic_gimp_qt/gmic_gimp_qt")
       (U demo_prefix) (U "/Applications/GIMP.app") (U "/opt/local").

(** The log of the run of [bundle] on this installation. *)
Definition demo_log : list event :=
  Eval vm_compute in log (bundle_run 20 demo_args demo_fs).2.

(** The file at [p] is a Mach-O file whose install name, if it has one, is
    [v]. *)
Definition id_is (p v : str) (w : world) : Prop :=
  ∃ m, fs w !! p = Some (Bin m) ∧
       (is_Some (install_name m) → install_name m = Some v).

(** What [fix_install_ids] achieves and the rest of [bundle] keeps: the
    install names of the files [dylibs] of [Frameworks/lib] and of the
    framework binaries that exist; and nothing further is copied. *)
Definition ids_fixed (a : args) (dylibs : list str) (copies : list event)
    (w : world) : Prop :=
  (∀ d, d ∈ dylibs → id_is d (lib_ref (path_name d)) w)
  ∧ (∀ name, name ∈ QT_FRAMEWORKS →
             fs w !! fw_bin a name = None
             ∨ id_is (fw_bin a name) (fw_ref name) w)
  ∧ (∀ src dst, ECopy2 src dst ∈ log w → ECopy2 src dst ∈ copies).

(** The world at the end of that run. *)
Definition demo_final : world := (bundle_run 20 demo_args demo_fs).2.

(** The file at [p] is a Mach-O file and [otool -l] shows the search path
    [r] for it. *)
Definition has_rpath (p r : str) (w : world) : Prop :=
  ∃ m, fs w !! p = Some (Bin m) ∧ shows_rpath p m r = true.

(** The commands of [add_rpath_if_missing]. *)
Definition rpath_cmd (cmd : command) : Prop :=
  match cmd with
  | Otool_l _ | Int_add_rpath _ _ => True
  | _ => False
  end.

(** [I] survives the commands of [add_rpath_if_missing]. *)
Definition rstable (I : world → Prop) : Prop :=
  ∀ cmd, rpath_cmd cmd → stable I (ERun cmd).

(** ** Notions used to state what a run achieves *)

(** A name that survives the text processing of [otool_deps]: not empty and
    without white space. *)
Definition plain_name (s : str) : bool :=
  match s with
  | [] => false
  | _ => forallb (λ c, negb (is_space c)) s
  end.

(** A string without line boundaries. *)
Definition one_line (s : str) : bool := forallb (λ c, negb (is_linebreak c)) s.

(** Lines 133-175 of [bundle]: the binaries to process and the libraries
    copied for them. *)
Definition gather_libs (fuel : nat) (a : args) : M (gset str) :=
  binaries <- collect_binaries a ;;
  copy_explicit_libs a ;;
  walk fuel a (elements binaries) binaries ;;
  add_copied a binaries.

(** The test of the walk on a dependency (lines 159-165): the dependencies
    it copies. *)
Definition walk_filter (a : args) (dep : str) : bool :=
  negb (startswith (U "@") dep)
  && negb (startswith (gimp_app a) dep)
  && negb (startswith (U "/System") dep || startswith (U "/usr/lib") dep)
  && (startswith (macports_prefix a) dep && endswith (U ".dylib") dep).

(** The text of [qt.conf]. *)
Definition qt_conf_text : str :=
  U "[Paths]" ++ [10] ++ U "Plugins = Frameworks/plugins" ++ [10].

(** The places in [Frameworks/lib] that the files of a file system can be
    copied to. *)
Definition lib_places (a : args) (f : gmap str node) : gset str :=
  set_map (λ k, lib_dir a // path_name k) (dom f).

(** [dep] is a dependency that [otool_deps] reports for the file [item] of
    [f] and that passes the test of the walk. *)
Definition needs (a : args) (f : gmap str node) (item dep : str) : Prop :=
  ∃ m, f !! item = Some (Bin m)
       ∧ dep ∈ otool_deps_text (otool_L_text item m)
       ∧ walk_filter a dep = true.

(** The files [otool -L] was run on, and the destinations of the copies, in
    the order of a log. *)
Definition otool_items (evs : list event) : list str :=
  omap (λ e, match e with ERun (Otool_L p) => Some p | _ => None end) evs.

Definition copy_dsts (evs : list event) : list str :=
  omap (λ e, match e with ECopy2 _ dst => Some dst | _ => None end) evs.

(** What [remap_dep] (lines 189-205) rewrites a dependency to, if it rewrites
    it. *)
Definition remap_target (a : args) (dep : str) : option str :=
  if startswith (U "@") dep then None
  else if startswith (gimp_app a) dep
          || startswith (U "/System") dep
          || startswith (U "/usr/lib") dep then None
  else if startswith (macports_prefix a) dep then
    if contains (U ".framework/") dep then
      match framework_name dep with
      | Some ((_ :: _) as name) => Some (fw_ref name)
      | _ => None
      end
    else if endswith (U ".dylib") dep then Some (lib_ref (path_name dep))
    else None
  else None.

(** No dependency of the file at [b] that [otool_deps] reads back unchanged
    is one that [remap_dep] rewrites. *)
Definition remapped (a : args) (b : str) (w : world) : Prop :=
  ∀ m d, fs w !! b = Some (Bin m) → d ∈ deps m → plain_name d = true →
         remap_target a d = None.

(** The binaries that [bundle] processes: the plugin, the framework
    binaries, the dylibs below [Frameworks/plugins] and the dylibs of
    [Frameworks/lib]. *)
Definition processed (a : args) (b : str) : Prop :=
  b = plugin_bin a
  ∨ (∃ name, name ∈ QT_FRAMEWORKS ∧ b = fw_bin a name)
  ∨ below_dylib (plugins_dir a) b = true
  ∨ child_dylib (lib_dir a) b = true.

(** A path that [bundle] has no reason to write to: not below
    [bundle_dir/Frameworks], not [qt.conf], not the plugin binary. *)
Definition outside (a : args) (k : str) : Prop :=
  under (frameworks_dir a) k = false
  ∧ k ≠ bundle_dir a // U "qt.conf"
  ∧ k ≠ plugin_bin a.

(** Two nodes of the same kind: equal, but for the load commands of a Mach-O
    file. *)
Definition same_kind (n n' : node) : Prop :=
  match n, n' with
  | Dir, Dir => True
  | Bin _, Bin _ => True
  | Data t, Data t' => t = t'
  | _, _ => False
  end.

(** The queue in the result of a step of the walk, without the set [seen]. *)
Definition queue_of (p : res (list str * gset str) * world)
  : res (list str) * world :=
  (match p.1 with Ok st => Ok st.1 | Abort x => Abort x end, p.2).


(** The source and destination of a directory of Qt plugins. *)
Definition plugin_src (a : args) (sub : str) : str := qt_plugins_dir a // sub.
Definition plugin_dst (a : args) (sub : str) : str := plugins_dir a // sub.

(** The messages with which [bundle] calls [sys.exit(1)]. *)
Definition exit_report (a : args) (msg : str) : Prop :=
  msg = U "Missing bundle_dir or plugin_bin"
  ∨ ∃ name, name ∈ QT_FRAMEWORKS ∧ msg = U "Missing Qt framework: " ++ fw_src a name.

(** The three directories that [bundle] makes. *)
Definition made_dirs (a : args) : list str :=
  [frameworks_dir a; plugins_dir a; lib_dir a].

(** ** Further runs of the model *)

(** The walk of the small installation, started from the plugin binary. *)
Definition demo_walk : res unit * world :=
  walk 20 demo_args [plugin_bin demo_args] {[plugin_bin demo_args]}
       (World demo_fs []).

(** The load commands of the plugin binary at the end of the run. *)
Definition demo_plugin_final : macho :=
  Eval vm_compute in
    match fs (bundle_run 20 demo_args demo_fs).2 !! plugin_bin demo_args with
    | Some (Bin m) => m
    | _ => MachO None [] []
    end.

(** The small installation with one of the explicit libraries. *)
Definition demo_fftw : gmap str node :=
  <[U "/opt/local/lib/libfftw3.3.dylib" :=
      Bin (MachO (Some (U "/opt/local/lib/libfftw3.3.dylib")) [] [])]> demo_fs.

(** A file whose only load command names a library in a directory called
    [my path @loader_path/Frameworks ]. *)
Definition demo_spaced : gmap str node :=
  {[ U "/build/tool" :=
       Bin (MachO None [U "/opt/my path @loader_path/Frameworks /libz.dylib"] []) ]}.

(** The small installation without the framework [QtDBus]. *)
Definition demo_no_dbus : gmap str node :=
  delete (fw_src demo_args (U "QtDBus")) demo_fs.


(** * Properties *)

(** ** Strings *)

Lemma startswith_app (pre t : str) : startswith pre (pre ++ t) = true.
Proof.
  induction pre as [|a pre IH]; simpl; [done|].
  by rewrite N.eqb_refl, IH.
Qed.

Lemma startswith_inv (pre s : str) :
  startswith pre s = true → ∃ t, s = pre ++ t.
Proof.
  revert s. induction pre as [|a pre IH]; intros s H; simpl in *.
  - by exists s.
  - destruct s as [|b s]; [done|].
    apply andb_true_iff in H as [Hab H]. apply N.eqb_eq in Hab as ->.
    destruct (IH _ H) as [t ->]. by exists t.
Qed.

Lemma startswith_iff (pre s : str) :
  startswith pre s = true ↔ ∃ t, s = pre ++ t.
Proof.
  split; [apply startswith_inv|]. intros [t ->]. apply startswith_app.
Qed.

Lemma startswith_nil (s : str) : startswith [] s = true.
Proof. by destruct s. Qed.

Lemma endswith_app (t suf : str) : endswith suf (t ++ suf) = true.
Proof. unfold endswith. rewrite rev_app_distr. apply startswith_app. Qed.

Lemma endswith_inv (suf s : str) :
  endswith suf s = true → ∃ t, s = t ++ suf.
Proof.
  unfold endswith. intros H. apply startswith_inv in H as [t Ht].
  exists (rev t). apply (f_equal (@rev N)) in Ht.
  by rewrite rev_involutive, rev_app_distr, rev_involutive in Ht.
Qed.

Lemma endswith_iff (suf s : str) :
  endswith suf s = true ↔ ∃ t, s = t ++ suf.
Proof.
  split; [apply endswith_inv|]. intros [t ->]. apply endswith_app.
Qed.

Lemma contains_app (a n b : str) : contains n (a ++ n ++ b) = true.
Proof.
  induction a as [|c a IH]; simpl.
  - destruct (n ++ b) eqn:E; simpl.
    + destruct n; [done|discriminate].
    + rewrite <- E, startswith_app. done.
  - rewrite IH. apply orb_true_r.
Qed.

Lemma contains_inv (n s : str) :
  contains n s = true → ∃ a b, s = a ++ n ++ b.
Proof.
  induction s as [|c s IH]; simpl; intros H.
  - rewrite orb_false_r in H. apply startswith_inv in H as [t Ht].
    by exists [], t.
  - apply orb_true_iff in H as [H|H].
    + apply startswith_inv in H as [t Ht]. by exists [], t.
    + destruct (IH H) as (a & b & ->). by exists (c :: a), b.
Qed.

Lemma contains_iff (n s : str) :
  contains n s = true ↔ ∃ a b, s = a ++ n ++ b.
Proof.
  split; [apply contains_inv|]. intros (a & b & ->). apply contains_app.
Qed.

Lemma before_no_sep (sep : N) (a : str) : sep ∉ a → before sep a = a.
Proof.
  induction a as [|c a IH]; simpl; intros H; [done|].
  apply not_elem_of_cons in H as [Hc Ha].
  destruct (N.eqb_spec c sep); [congruence|]. by rewrite IH.
Qed.

Lemma before_app_sep (sep : N) (a b : str) :
  sep ∉ a → before sep (a ++ sep :: b) = a.
Proof.
  induction a as [|c a IH]; simpl; intros H.
  - by rewrite N.eqb_refl.
  - apply not_elem_of_cons in H as [Hc Ha].
    destruct (N.eqb_spec c sep); [congruence|]. by rewrite IH.
Qed.

Lemma before_not_in (sep : N) (s : str) : sep ∉ before sep s.
Proof.
  induction s as [|c s IH]; simpl; [apply not_elem_of_nil|].
  destruct (N.eqb_spec c sep); [apply not_elem_of_nil|].
  apply not_elem_of_cons. split; [congruence|done].
Qed.

Lemma before_cases (sep : N) (s : str) :
  s = before sep s ∨ ∃ rest, s = before sep s ++ sep :: rest.
Proof.
  induction s as [|c s IH]; simpl; [by left|].
  destruct (N.eqb_spec c sep) as [->|Hne].
  - right. by exists s.
  - destruct IH as [IH|[rest IH]].
    + left. by f_equal.
    + right. exists rest. simpl. by f_equal.
Qed.

Lemma item0_cons_field (c : N) (l : list str) :
  item0 (cons_field c l) = c :: item0 l.
Proof. by destruct l. Qed.

Lemma split_once_nonempty (sep : N) (s : str) : split_once sep s ≠ [].
Proof.
  induction s as [|c s IH]; simpl; [done|].
  destruct (c =? sep); [done|]. by destruct (split_once sep s).
Qed.

Lemma item0_split_once (sep : N) (s : str) :
  item0 (split_once sep s) = before sep s.
Proof.
  induction s as [|c s IH]; simpl; [done|].
  destruct (c =? sep); [done|]. by rewrite item0_cons_field, IH.
Qed.

Lemma dep_of_line_before (line : str) :
  dep_of_line line = before 32 (strip line).
Proof. apply item0_split_once. Qed.

Lemma fold_left_snoc {A B} (f : A → B) (l : list A) (acc : list B) :
  fold_left (λ deps x, deps ++ [f x]) l acc = acc ++ map f l.
Proof.
  revert acc. induction l as [|x l IH]; intros acc; simpl.
  - by rewrite app_nil_r.
  - by rewrite IH, <- app_assoc.
Qed.

Lemma otool_deps_text_map (out : str) :
  otool_deps_text out = map dep_of_line (drop 1 (splitlines out)).
Proof. unfold otool_deps_text. by rewrite fold_left_snoc. Qed.

(** ** C7 *)

(** C7: [otool_deps] skips the first line of the output of [otool -L] and
    returns, for each remaining line in order, the part of the stripped line
    before its first space; the result has one entry per line after the
    header. *)
Theorem otool_deps_text_spec (out : str) :
  otool_deps_text out = map (λ line, before 32 (strip line)) (drop 1 (splitlines out))
  ∧ length (otool_deps_text out) = (length (splitlines out) - 1)%nat
  ∧ ∀ (i : nat) (line : str),
      drop 1 (splitlines out) !! i = Some line →
      ∃ dep, otool_deps_text out !! i = Some dep ∧ (32 ∉ dep) ∧
             (strip line = dep ∨ ∃ rest, strip line = dep ++ 32 :: rest).
Proof.
  assert (E : otool_deps_text out
              = map (λ line, before 32 (strip line)) (drop 1 (splitlines out))).
  { rewrite otool_deps_text_map. apply map_ext. intros. apply dep_of_line_before. }
  split; [exact E|]. split.
  - rewrite E, length_map, length_drop. done.
  - intros i line Hi. exists (before 32 (strip line)). split.
    + rewrite E. change (map ?f ?l) with (f <$> l).
      by rewrite list_lookup_fmap, Hi.
    + split; [apply before_not_in|apply before_cases].
Qed.

(** ** Reasoning about computations *)

Lemma wp_ret {A} (a : A) N X w : wp (ret a) N X w = N a w.
Proof. done. Qed.

Lemma wp_bind {A B} (m : M A) (k : A → M B) N X w :
  wp (bind m k) N X w = wp m (λ a w', wp (k a) N X w') X w.
Proof. unfold wp, bind. by destruct (m w) as [[a|x] w']. Qed.

Lemma wp_read {A} (f : gmap str node → A) N X w :
  wp (read f) N X w = N (f (fs w)) w.
Proof. done. Qed.

Lemma wp_emit e N X w :
  wp (emit e) N X w = N tt (World (apply_event e (fs w)) (log w ++ [e])).
Proof. done. Qed.

Lemma wp_raise {A} e (N : A → world → Prop) X w :
  wp (raise e) N X w = X (Raise e) w.
Proof. done. Qed.

Lemma wp_sys_exit {A} c (N : A → world → Prop) X w :
  wp (sys_exit c) N X w = X (Exit c) w.
Proof. done. Qed.

Lemma wp_out_of_fuel {A} (N : A → world → Prop) X w :
  wp out_of_fuel N X w = X OutOfFuel w.
Proof. done. Qed.

Lemma wp_mono {A} (m : M A) (N N' : A → world → Prop) (X X' : abort → world → Prop) w :
  wp m N X w →
  (∀ a w', N a w' → N' a w') →
  (∀ x w', X x w' → X' x w') →
  wp m N' X' w.
Proof. unfold wp. destruct (m w) as [[a|x] w']; eauto. Qed.

Lemma wp_run {A} (m : M A) N X w r w' :
  m w = (r, w') → wp m N X w →
  match r with Ok a => N a w' | Abort x => X x w' end.
Proof. unfold wp. by intros ->. Qed.

Lemma wp_intro {A} (m : M A) (N : A → world → Prop) (X : abort → world → Prop) w :
  (∀ r w', m w = (r, w') →
           match r with Ok a => N a w' | Abort x => X x w' end) →
  wp m N X w.
Proof. unfold wp. intros H. specialize (H _ _ (surjective_pairing _)).
  destruct (m w) as [[a|x] w']; exact H. Qed.

(** A loop keeps an invariant that may mention the elements already
    visited. *)
Lemma wp_for_each_pre {A} (I : list A → world → Prop) (l : list A)
    (body : A → M unit) X w :
  I [] w →
  (∀ pre x post w1, l = pre ++ x :: post → I pre w1 →
                    wp (body x) (λ _, I (pre ++ [x])) X w1) →
  wp (for_each l body) (λ _, I l) X w.
Proof.
  intros H0 Hstep.
  assert (G : ∀ post pre w1, l = pre ++ post → I pre w1 →
              wp (for_each post body) (λ _, I l) X w1).
  { induction post as [|x post IH]; intros pre w1 El Hpre; simpl.
    - rewrite wp_ret. rewrite app_nil_r in El. by subst.
    - rewrite wp_bind. eapply wp_mono; [by eapply Hstep| |done].
      intros [] w2 H2. simpl in H2. apply (IH (pre ++ [x])); [|done].
      by rewrite <- app_assoc. }
  by apply (G l []).
Qed.

Lemma wp_for_each {A} (I : world → Prop) (l : list A) (body : A → M unit) X w :
  I w →
  (∀ x w1, x ∈ l → I w1 → wp (body x) (λ _, I) X w1) →
  wp (for_each l body) (λ _, I) X w.
Proof.
  intros H0 Hstep. apply (wp_for_each_pre (λ _, I)); [done|].
  intros pre x post w1 -> H1. apply Hstep; [|done].
  apply elem_of_app. right. apply elem_of_cons. by left.
Qed.

Lemma wp_fold_m {A S} (I : list A → S → world → Prop) (l : list A)
    (body : A → S → M S) (s : S) X w :
  I [] s w →
  (∀ pre x post s1 w1, l = pre ++ x :: post → I pre s1 w1 →
                       wp (body x s1) (λ s2, I (pre ++ [x]) s2) X w1) →
  wp (fold_m l body s) (λ s', I l s') X w.
Proof.
  intros H0 Hstep.
  assert (G : ∀ post pre s1 w1, l = pre ++ post → I pre s1 w1 →
              wp (fold_m post body s1) (λ s', I l s') X w1).
  { induction post as [|x post IH]; intros pre s1 w1 El Hpre; simpl.
    - rewrite wp_ret. rewrite app_nil_r in El. by subst.
    - rewrite wp_bind. eapply wp_mono; [by eapply Hstep| |done].
      intros s2 w2 H2. simpl in H2. apply (IH (pre ++ [x])); [|done].
      by rewrite <- app_assoc. }
  by apply (G l []).
Qed.

(** Rewriting a goal on a computation into goals on the states it passes
    through. *)
Ltac wp_step :=
  first [ rewrite wp_bind | rewrite wp_ret | rewrite wp_read | rewrite wp_emit
        | rewrite wp_raise | rewrite wp_sys_exit | rewrite wp_out_of_fuel ].
Ltac wp_simp := repeat (wp_step; cbn beta).

(** ** C8 *)

(** C8: when [bundle_dir] is not a directory or [plugin_bin] does not exist,
    [bundle] prints one message to stderr and exits with status 1: the file
    system is unchanged and nothing else has happened (no directory made, no
    file copied, no tool run). *)
Theorem bundle_missing_args (fuel : nat) (a : args) (fs0 : gmap str node) :
  fs0 !! bundle_dir a ≠ Some Dir ∨ fs0 !! plugin_bin a = None →
  bundle_run fuel a fs0
  = (Abort (Exit 1), World fs0 [EStderr (U "Missing bundle_dir or plugin_bin")]).
Proof.
  intros H. unfold bundle_run, bundle, gather.
  unfold bind at 1. unfold bind at 1. unfold check_args, bind, is_dir, path_exists, read.
  cbn [fs log].
  assert (E : negb match fs0 !! bundle_dir a with Some Dir => true | _ => false end
              || negb match fs0 !! plugin_bin a with Some _ => true | None => false end
              = true).
  { destruct H as [H|H].
    - destruct (fs0 !! bundle_dir a) as [[]|]; done.
    - rewrite H. apply orb_true_r. }
  rewrite E. reflexivity.
Qed.

Lemma bundle_missing_args_witness :
  bundle_run 0 (Args (U "/b") (U "/b/gmic_gimp_qt") (U "/qt") (U "/GIMP.app") (U "/opt/local")) ∅
  = (Abort (Exit 1), World ∅ [EStderr (U "Missing bundle_dir or plugin_bin")]).
Proof. apply bundle_missing_args. left. done. Defined.

(** ** The tools *)

Lemma U_app (s1 s2 : string) : U (s1 ++ s2)%string = U s1 ++ U s2.
Proof. induction s1 as [|c s1 IH]; simpl; [done|]. by rewrite IH. Qed.

Lemma exec_lookup cmd f :
  exec cmd f =
  match f !! command_path cmd with
  | Some (Bin m) =>
      match tool_effect cmd m with
      | Some m' => Some (m, <[command_path cmd := Bin m']> f)
      | None => None
      end
  | _ => None
  end.
Proof. done. Qed.

Lemma apply_otool_l p f : apply_event (ERun (Otool_l p)) f = f.
Proof.
  simpl. rewrite exec_lookup. simpl.
  destruct (f !! p) as [[|m|]|] eqn:E; try done. by apply insert_id.
Qed.

Lemma apply_otool_L p f : apply_event (ERun (Otool_L p)) f = f.
Proof.
  simpl. rewrite exec_lookup. simpl.
  destruct (f !! p) as [[|m|]|] eqn:E; try done. by apply insert_id.
Qed.

Ltac hide_literals :=
  repeat match goal with
         | |- context [U ?s] =>
             let x := fresh "lit" in set (x := U s) in *; clearbody x
         end.

Lemma contains_wrap (n pre a b post : str) :
  contains n (pre ++ (a ++ n ++ b) ++ post) = true.
Proof.
  apply contains_iff. exists (pre ++ a), (b ++ post).
  by rewrite <- !app_assoc.
Qed.

Lemma rpath_command_shape (r : str) :
  ∃ a b, rpath_command r = a ++ (U "path " ++ r ++ U " ") ++ b.
Proof.
  exists (U "          cmd LC_RPATH" ++ [10] ++ U "      cmdsize 32" ++ [10]
            ++ U "         "), (U "(offset 12)" ++ [10]).
  unfold rpath_command.
  replace (U "         path ") with (U "         " ++ U "path ") by reflexivity.
  replace (U " (offset 12)") with (U " " ++ U "(offset 12)") by reflexivity.
  hide_literals. by rewrite <- !app_assoc.
Qed.

Lemma contains_in_middle (n pre mid post : str) :
  contains n mid = true → contains n (pre ++ mid ++ post) = true.
Proof.
  intros H. apply contains_iff in H as (a & b & ->). apply contains_iff.
  exists (pre ++ a), (b ++ post). by rewrite <- !app_assoc.
Qed.

(** [otool -l] prints every run-time search path of the file in the form the
    script looks for. *)
Lemma otool_l_text_rpath p m r :
  r ∈ rpaths m → contains (U "path " ++ r ++ U " ") (otool_l_text p m) = true.
Proof.
  intros Hr. apply list_elem_of_split in Hr as (l1 & l2 & E).
  unfold otool_l_text. rewrite E.
  rewrite fmap_app, concat_app, fmap_cons, concat_cons.
  assert (Hc : contains (U "path " ++ r ++ U " ") (rpath_command r) = true).
  { destruct (rpath_command_shape r) as (a & b & ->). apply contains_iff. eauto. }
  revert Hc. generalize (rpath_command r). intros mid Hc.
  hide_literals. rewrite !app_assoc. rewrite <- (app_assoc _ mid).
  apply contains_in_middle. by rewrite <- app_assoc.
Qed.

Lemma add_rpath_if_missing_eq b r w :
  add_rpath_if_missing b r w =
  match fs w !! b with
  | Some (Bin m) =>
      if contains (U "path " ++ r ++ U " ") (otool_l_text b m)
      then (Ok tt, World (fs w) (log w ++ [ERun (Otool_l b)]))
      else if bool_decide (r ∈ rpaths m)
      then (Abort (Raise CalledProcessError),
            World (fs w) (log w ++ [ERun (Otool_l b); ERun (Int_add_rpath r b)]))
      else (Ok tt,
            World (<[b := Bin (MachO (install_name m) (deps m) (rpaths m ++ [r]))]> (fs w))
                  (log w ++ [ERun (Otool_l b); ERun (Int_add_rpath r b)]))
  | _ => (Abort (Raise CalledProcessError), World (fs w) (log w ++ [ERun (Otool_l b)]))
  end.
Proof.
  unfold add_rpath_if_missing, check_output, run, bind, read, emit, ret, raise.
  cbn [fs log]. rewrite apply_otool_l.
  rewrite !exec_lookup. cbn [command_path tool_effect command_output].
  destruct (fs w !! b) as [[|m|]|] eqn:E; try done.
  destruct (contains _ _); [done|].
  cbn [fs log]. cbn [apply_event]. rewrite exec_lookup.
  cbn [command_path tool_effect]. rewrite E.
  rewrite <- !app_assoc. cbn [app].
  destruct (bool_decide (r ∈ rpaths m)); done.
Qed.

(** ** C10 *)

(** C10: [add_rpath_if_missing] is idempotent.  On a binary that already has
    the path it only runs [otool -l] and leaves the file system as it is; a
    second call with the same arguments ends as the first did, leaves the same
    file system, and runs no [install_name_tool]. *)
Theorem add_rpath_if_missing_idempotent (b r : str) (w : world) :
  (∀ m, fs w !! b = Some (Bin m) → r ∈ rpaths m →
        add_rpath_if_missing b r w
        = (Ok tt, World (fs w) (log w ++ [ERun (Otool_l b)])))
  ∧ (let once := add_rpath_if_missing b r w in
     let twice := (add_rpath_if_missing b r ;; add_rpath_if_missing b r) w in
     twice.1 = once.1 ∧ fs twice.2 = fs once.2 ∧
     (once.1 = Ok tt → log twice.2 = log once.2 ++ [ERun (Otool_l b)])).
Proof.
  split.
  - intros m Hm Hr. rewrite add_rpath_if_missing_eq, Hm.
    by rewrite otool_l_text_rpath.
  - cbn zeta.
    assert (Et : (add_rpath_if_missing b r ;; add_rpath_if_missing b r) w
                 = match add_rpath_if_missing b r w with
                   | (Ok _, w1) => add_rpath_if_missing b r w1
                   | (Abort x, w1) => (Abort x, w1)
                   end) by done.
    rewrite Et. clear Et. rewrite (add_rpath_if_missing_eq b r w).
    destruct (fs w !! b) as [[|m|]|] eqn:E; try done.
    destruct (contains _ (otool_l_text b m)) eqn:Ec.
    + rewrite add_rpath_if_missing_eq. cbn [fs log]. rewrite E, Ec. done.
    + destruct (bool_decide (r ∈ rpaths m)) eqn:Er; [done|].
      rewrite add_rpath_if_missing_eq. cbn [fs log].
      rewrite lookup_insert_eq.
      rewrite otool_l_text_rpath.
      * done.
      * cbn [rpaths]. apply elem_of_app. right. apply elem_of_cons. by left.
Qed.

(** ** Invariants *)

Lemma wp_conj {A} (m : M A) N1 N2 X1 X2 w :
  wp m N1 X1 w → wp m N2 X2 w →
  wp m (λ a w', N1 a w' ∧ N2 a w') (λ x w', X1 x w' ∧ X2 x w') w.
Proof. unfold wp. destruct (m w) as [[a|x] w']; auto. Qed.

Lemma keeps_ret {A} (I : world → Prop) (X : abort → Prop) (a : A) : keeps I X (ret a).
Proof. intros w H. by rewrite wp_ret. Qed.

Lemma keeps_read {A} (I : world → Prop) (X : abort → Prop) (f : gmap str node → A) :
  keeps I X (read f).
Proof. intros w H. by rewrite wp_read. Qed.

Lemma keeps_raise {A} (I : world → Prop) (X : abort → Prop) e :
  X (Raise e) → keeps I X (@raise A e).
Proof. intros Hx w H. by rewrite wp_raise. Qed.

Lemma keeps_sys_exit {A} (I : world → Prop) (X : abort → Prop) c :
  X (Exit c) → keeps I X (@sys_exit A c).
Proof. intros Hx w H. by rewrite wp_sys_exit. Qed.

Lemma keeps_out_of_fuel {A} (I : world → Prop) (X : abort → Prop) :
  X OutOfFuel → keeps I X (@out_of_fuel A).
Proof. intros Hx w H. by rewrite wp_out_of_fuel. Qed.

Lemma keeps_emit (I : world → Prop) (X : abort → Prop) e : stable I e → keeps I X (emit e).
Proof. intros Hs w H. rewrite wp_emit. by apply Hs. Qed.

Lemma keeps_bind {A B} (I : world → Prop) (X : abort → Prop) (m : M A) (k : A → M B) :
  keeps I X m → (∀ a, keeps I X (k a)) → keeps I X (bind m k).
Proof.
  intros Hm Hk w H. rewrite wp_bind.
  eapply wp_mono; [by apply Hm| |done]. intros a w' H'. by apply Hk.
Qed.

Lemma keeps_for_each {A} (I : world → Prop) (X : abort → Prop) (l : list A) (body : A → M unit) :
  (∀ x, x ∈ l → keeps I X (body x)) → keeps I X (for_each l body).
Proof.
  intros Hb w H. apply (wp_for_each I); [done|].
  intros x w1 Hx H1. by apply Hb.
Qed.

Lemma keeps_fold_m {A S} (I : world → Prop) (X : abort → Prop) (l : list A)
    (body : A → S → M S) (s : S) :
  (∀ x s', x ∈ l → keeps I X (body x s')) → keeps I X (fold_m l body s).
Proof.
  intros Hb w H.
  eapply wp_mono; [apply (wp_fold_m (λ _ _, I)); [done|]| |].
  - intros pre x post s1 w1 -> H1. apply Hb; [|done].
    apply elem_of_app. right. apply elem_of_cons. by left.
  - done.
  - done.
Qed.

Lemma keeps_bind_read {A B : Type} (I : world → Prop) (X : abort → Prop)
    (g : gmap str node → A) (k : A → M B) :
  (∀ f, keeps I X (k (g f))) → keeps I X (bind (read g) k).
Proof. intros H w HI. rewrite wp_bind, wp_read. by apply H. Qed.

Lemma keeps_mono {A} (I : world → Prop) (X X' : abort → Prop) (m : M A) :
  keeps I X m → (∀ x, X x → X' x) → keeps I X' m.
Proof.
  intros Hk HX w H. eapply wp_mono; [by apply Hk|done|].
  intros x w' [? ?]. auto.
Qed.

Lemma keeps_run {A} (I : world → Prop) (X : abort → Prop) (m : M A) w r w' :
  keeps I X m → I w → m w = (r, w') →
  I w' ∧ match r with Ok _ => True | Abort x => X x end.
Proof.
  intros Hp H E. specialize (Hp w H). unfold wp in Hp. rewrite E in Hp.
  destruct r; tauto.
Qed.

Lemma raised_status1 x : raised x → status1 x.
Proof. by intros [e ->]. Qed.

Ltac abort_ok :=
  first [ exact I | reflexivity | by eexists | by right; eexists | by left ].

Ltac keeps_step :=
  lazymatch goal with
  | |- keeps _ _ (ret _) => apply keeps_ret
  | |- keeps _ _ (read _) => apply keeps_read
  | |- keeps _ _ (is_dir _) => apply keeps_read
  | |- keeps _ _ (path_exists _) => apply keeps_read
  | |- keeps _ _ (glob_dylib _) => apply keeps_read
  | |- keeps _ _ (rglob_dylib _) => apply keeps_read
  | |- keeps _ _ (raise _) => apply keeps_raise; abort_ok
  | |- keeps _ _ (sys_exit _) => apply keeps_sys_exit; abort_ok
  | |- keeps _ _ out_of_fuel => apply keeps_out_of_fuel; abort_ok
  | |- keeps _ _ (bind _ _) => apply keeps_bind; [|intros ?]
  | |- keeps _ _ (for_each _ _) => apply keeps_for_each; intros ? ?
  | |- keeps _ _ (fold_m _ _ _) => apply keeps_fold_m; intros ? ? ?
  | |- keeps _ _ (match ?x with _ => _ end) => destruct x
  end.
Ltac keeps_auto := repeat keeps_step.

(** The primitives keep an invariant that survives their one effect. *)
Lemma keeps_mkdir (I : world → Prop) p :
  stable I (EMkdir p) → keeps I raised (mkdir p).
Proof. intros H. unfold mkdir. keeps_auto. by apply keeps_emit. Qed.

Lemma keeps_rmtree (I : world → Prop) p :
  stable I (ERmtree p) → keeps I raised (rmtree p).
Proof. intros H. unfold rmtree. keeps_auto. by apply keeps_emit. Qed.

Lemma keeps_copytree (I : world → Prop) src dst :
  stable I (ECopytree src dst) → keeps I raised (copytree src dst).
Proof. intros H. unfold copytree. keeps_auto. by apply keeps_emit. Qed.

Lemma keeps_write_text (I : world → Prop) p t :
  stable I (EWriteText p t) → keeps I raised (write_text p t).
Proof. intros H. unfold write_text. keeps_auto; by apply keeps_emit. Qed.

Lemma keeps_print_stderr (I : world → Prop) (X : abort → Prop) msg :
  stable I (EStderr msg) → keeps I X (print_stderr msg).
Proof. intros H. by apply keeps_emit. Qed.

Lemma keeps_check_output (I : world → Prop) cmd :
  stable I (ERun cmd) → keeps I raised (check_output cmd).
Proof. intros H. unfold check_output. keeps_auto. by apply keeps_emit. Qed.

Lemma keeps_run_cmd (I : world → Prop) cmd :
  stable I (ERun cmd) → keeps I raised (run cmd).
Proof. intros H. unfold run. keeps_auto. by apply keeps_emit. Qed.

Lemma keeps_otool_deps (I : world → Prop) p :
  stable I (ERun (Otool_L p)) → keeps I raised (otool_deps p).
Proof. intros H. unfold otool_deps. keeps_auto. by apply keeps_check_output. Qed.

Lemma keeps_add_rpath_if_missing (I : world → Prop) b r :
  stable I (ERun (Otool_l b)) → stable I (ERun (Int_add_rpath r b)) →
  keeps I raised (add_rpath_if_missing b r).
Proof.
  intros H1 H2. unfold add_rpath_if_missing. keeps_auto.
  - by apply keeps_check_output.
  - by apply keeps_run_cmd.
Qed.

(** ** Paths and the file system *)

Lemma under_iff (p k : str) :
  under p k = true ↔ k = p ∨ ∃ r, k = p ++ 47 :: r.
Proof.
  unfold under. rewrite orb_true_iff, bool_decide_eq_true, startswith_iff.
  split; (intros [H|[r H]]; [by left|right; exists r]).
  - by rewrite H, <- app_assoc.
  - by rewrite H, <- app_assoc.
Qed.

Lemma under_refl (p : str) : under p p = true.
Proof. apply under_iff. by left. Qed.

Lemma under_pjoin (p s : str) : under p (p // s) = true.
Proof. apply under_iff. right. by exists s. Qed.

Lemma under_trans (p q k : str) :
  under p q = true → under q k = true → under p k = true.
Proof.
  rewrite !under_iff. intros [->|[r ->]] [->|[r' ->]]; eauto.
  right. exists (r ++ 47 :: r'). by rewrite <- app_assoc.
Qed.

Lemma path_name_no_slash (s : str) : 47 ∉ path_name s.
Proof.
  unfold path_name. intros H. apply list_elem_of_In, in_rev, list_elem_of_In in H.
  by apply before_not_in in H.
Qed.

Lemma path_name_pjoin (p n : str) : 47 ∉ n → path_name (p // n) = n.
Proof.
  intros H. unfold path_name, pjoin.
  rewrite rev_app_distr. simpl. rewrite <- app_assoc. simpl.
  rewrite before_app_sep; [apply rev_involutive|].
  intros Hin. apply H. by apply list_elem_of_In, in_rev, list_elem_of_In.
Qed.

Lemma path_name_idem (p s : str) : path_name (p // path_name s) = path_name s.
Proof. apply path_name_pjoin, path_name_no_slash. Qed.

Lemma rmtree_lookup (p k : str) (f : gmap str node) :
  rmtree_fs p f !! k = if under p k then None else f !! k.
Proof.
  unfold rmtree_fs. destruct (under p k) eqn:E.
  - apply map_lookup_filter_None. right. intros n _. simpl. congruence.
  - destruct (f !! k) as [n|] eqn:Ek.
    + apply map_lookup_filter_Some. done.
    + apply map_lookup_filter_None. by left.
Qed.

Lemma under_drop (src dst k : str) :
  under src k = true → under dst (dst ++ drop (length src) k) = true.
Proof.
  rewrite !under_iff. intros [->|[r ->]].
  - left. by rewrite drop_all, app_nil_r.
  - right. exists r. by rewrite drop_app_length.
Qed.

Lemma copytree_lookup_other (src dst k : str) (f : gmap str node) :
  under dst k = false → copytree_fs src dst f !! k = f !! k.
Proof.
  intros Hk. unfold copytree_fs.
  induction (map_to_list f) as [|[k0 n0] l IH]; simpl; [done|].
  destruct (under src k0) eqn:E; [|done].
  rewrite lookup_insert_ne; [done|].
  intros <-. apply (under_drop src dst) in E. congruence.
Qed.

Lemma copytree_lookup_copy (src dst r : str) (n : node) (f : gmap str node) :
  under src (src ++ r) = true → f !! (src ++ r) = Some n →
  copytree_fs src dst f !! (dst ++ r) = Some n.
Proof.
  intros Hu Hn. unfold copytree_fs.
  apply elem_of_map_to_list in Hn.
  pose proof (NoDup_fst_map_to_list f) as Hnd.
  induction (map_to_list f) as [|[k0 n0] l IH]; simpl.
  - by apply elem_of_nil in Hn.
  - rewrite fmap_cons in Hnd. apply NoDup_cons in Hnd as [Hk0 Hnd].
    apply elem_of_cons in Hn as [Hn|Hn].
    + injection Hn as <- <-. rewrite Hu.
      rewrite drop_app_length. apply lookup_insert_eq.
    + specialize (IH Hn Hnd).
      destruct (under src k0) eqn:E; [|done].
      rewrite lookup_insert_ne; [done|].
      intros Heq. apply app_inv_head in Heq.
      apply Hk0. apply list_elem_of_fmap. exists (src ++ r, n). split; [|done].
      simpl. apply under_iff in E as [->|[r0 ->]].
      * rewrite drop_all in Heq. by rewrite <- Heq, app_nil_r.
      * rewrite drop_app_length in Heq. by rewrite Heq.
Qed.

Lemma copytree_lookup_inv (src dst k : str) (n : node) (f : gmap str node) :
  copytree_fs src dst f !! k = Some n →
  f !! k = Some n ∨ ∃ r, k = dst ++ r ∧ under src (src ++ r) = true
                         ∧ f !! (src ++ r) = Some n.
Proof.
  unfold copytree_fs. intros H.
  assert (G : ∀ l, (∀ kn, kn ∈ l → f !! kn.1 = Some kn.2) →
              foldr (λ kn acc, if under src kn.1
                               then <[dst ++ drop (length src) kn.1 := kn.2]> acc
                               else acc) f l !! k = Some n →
              f !! k = Some n ∨ ∃ r, k = dst ++ r ∧ under src (src ++ r) = true
                                     ∧ f !! (src ++ r) = Some n).
  { induction l as [|[k0 n0] l IH]; simpl; intros Hl Hk; [by left|].
    assert (Hl' : ∀ kn, kn ∈ l → f !! kn.1 = Some kn.2).
    { intros kn Hin. apply Hl. by apply elem_of_cons; right. }
    destruct (under src k0) eqn:E; [|by apply IH].
    destruct (decide (dst ++ drop (length src) k0 = k)) as [<-|Hne].
    - rewrite lookup_insert_eq in Hk. injection Hk as ->.
      right. exists (drop (length src) k0).
      assert (Ek : src ++ drop (length src) k0 = k0).
      { apply under_iff in E as [->|[r0 ->]].
        - by rewrite drop_all, app_nil_r.
        - by rewrite drop_app_length. }
      rewrite Ek. split; [done|]. split; [done|].
      apply (Hl (k0, n)). by apply elem_of_cons; left.
    - rewrite lookup_insert_ne in Hk by done. by apply IH. }
  apply (G (map_to_list f)); [|done].
  intros [k1 n1] Hin. by apply elem_of_map_to_list.
Qed.

(** ** The first part of [bundle]: directories, frameworks, plugins *)

Section early.
Context (a : args) (I : world → Prop).
Hypothesis early_stable : ∀ e, early_event a e → stable I e.

Lemma keeps_check_args : keeps I status1 (check_args a).
Proof.
    unfold check_args. keeps_auto. by apply keeps_emit, early_stable.
Qed.

Lemma keeps_make_dirs : keeps I status1 (make_dirs a).
Proof.
    unfold make_dirs. keeps_auto.
    eapply keeps_mono; [|apply raised_status1].
    apply keeps_mkdir, early_stable. simpl.
    repeat (apply elem_of_cons in H as [->|H]);
      [apply under_refl|apply under_pjoin|apply under_pjoin|by apply elem_of_nil in H].
Qed.

Lemma keeps_replace_tree src dst :
    under (frameworks_dir a) dst = true →
    keeps I status1 (d <- path_exists dst ;;
                     (if d then rmtree dst else ret tt) ;;
                     copytree src dst).
Proof.
    intros Hd. keeps_auto.
    - eapply keeps_mono; [|apply raised_status1]. by apply keeps_rmtree, early_stable.
    - eapply keeps_mono; [|apply raised_status1]. by apply keeps_copytree, early_stable.
Qed.

Lemma keeps_copy_qt_framework name : keeps I status1 (copy_qt_framework a name).
Proof.
    unfold copy_qt_framework. cbn zeta.
    apply keeps_bind; [apply keeps_read|]. intros e.
    apply keeps_bind.
    - destruct (negb e); keeps_auto. by apply keeps_emit, early_stable.
    - intros _. apply keeps_replace_tree, under_pjoin.
Qed.

Lemma keeps_copy_qt_frameworks : keeps I status1 (copy_qt_frameworks a).
Proof. apply keeps_for_each. intros. apply keeps_copy_qt_framework. Qed.

Lemma keeps_copy_qt_plugin sub : keeps I status1 (copy_qt_plugin a sub).
Proof.
    unfold copy_qt_plugin. cbn zeta.
    apply keeps_bind; [apply keeps_read|]. intros [|]; [|apply keeps_ret].
    apply keeps_replace_tree.
    eapply under_trans; apply under_pjoin.
Qed.

Lemma keeps_copy_qt_plugins : keeps I status1 (copy_qt_plugins a).
Proof. apply keeps_for_each. intros. apply keeps_copy_qt_plugin. Qed.
End early.

(** A missing source framework ends the copy with status 1. *)
Lemma copy_qt_framework_missing a name w :
  fs w !! fw_src a name = None →
  copy_qt_framework a name w
  = (Abort (Exit 1), after (EStderr (U "Missing Qt framework: " ++ fw_src a name)) w).
Proof.
  intros H. unfold copy_qt_framework, bind, path_exists, read. cbn zeta.
  change (qt_lib_dir a // (name ++ U ".framework")) with (fw_src a name).
  by rewrite H.
Qed.

Lemma missing_stable a (k : str) e :
  under (frameworks_dir a) k = false → early_event a e →
  stable (λ w, fs w !! k = None) e.
Proof.
  intros Hout He w1 H1. unfold after. cbn [fs].
  destruct e as [msg|p|p|s d|p t|s d|cmd]; simpl in He; try done; cbn [apply_event].
  - rewrite lookup_insert_ne; [done|]. intros ->. congruence.
  - rewrite rmtree_lookup. by destruct (under p _).
  - rewrite copytree_lookup_other; [done|].
    destruct (under d k) eqn:E; [|done].
    by rewrite (under_trans _ _ _ He E) in Hout.
Qed.

(** While a source framework is missing and nothing below [Frameworks]
    stands for it, the loop over the frameworks cannot end normally. *)
Lemma copy_qt_frameworks_missing a name (l : list str) w :
  name ∈ l → fs w !! fw_src a name = None →
  under (frameworks_dir a) (fw_src a name) = false →
  wp (for_each l (copy_qt_framework a)) (λ _ _, False) (λ x _, status1 x) w.
Proof.
  intros Hin Hnone Hout. revert w Hnone.
  induction l as [|x l IH]; intros w Hnone; [by apply elem_of_nil in Hin|].
  simpl. rewrite wp_bind.
  destruct (decide (x = name)) as [->|Hne].
  - unfold wp at 1. by rewrite copy_qt_framework_missing.
  - apply elem_of_cons in Hin as [->|Hin]; [done|].
    eapply wp_mono.
    + apply (keeps_copy_qt_framework a (λ w, fs w !! fw_src a name = None)); [|done].
      intros e He. by apply (missing_stable a).
    + intros [] w1 H1. by apply IH.
    + by intros x0 w1 [_ ?].
Qed.

(** ** The log *)

Lemma replay_snoc evs e f : replay (evs ++ [e]) f = apply_event e (replay evs f).
Proof. unfold replay. by rewrite fold_left_app. Qed.

Lemma replay_app evs1 evs2 f : replay (evs1 ++ evs2) f = replay evs2 (replay evs1 f).
Proof. unfold replay. by rewrite fold_left_app. Qed.

Lemma guarded_log_init fs0 G : guarded_log fs0 G (World fs0 []).
Proof.
  split; [done|]. intros pre e post H. simpl in H. by destruct pre.
Qed.

Lemma guarded_log_stable fs0 (G : world → event → Prop) :
  gstable G (guarded_log fs0 G).
Proof.
  intros w e [Hfs Hlog] HG. unfold after. split; cbn [fs log].
  - by rewrite replay_snoc, Hfs.
  - intros pre e' post E.
    destruct post as [|e'' post _] using rev_ind.
    + apply app_inj_tail in E as [<- <-]. rewrite <- Hfs. by destruct w.
    + rewrite app_comm_cons, app_assoc in E. apply app_inj_tail in E as [E _].
      by eapply Hlog.
Qed.

Ltac wp_go :=
  repeat first
    [ wp_step
    | progress cbn beta iota zeta
    | progress cbn [negb]
    | match goal with
      | H : fs ?w !! ?k = _ |- context [fs ?w !! ?k] => rewrite H
      | |- wp (match ?x with _ => _ end) _ _ _ => is_var x; destruct x
      end
    | match goal with
      | |- context [match fs ?w !! ?k with _ => _ end] =>
          let E := fresh "E" in destruct (fs w !! k) eqn:E
      end ].

Lemma endswith_pjoin (suf p s : str) :
  endswith suf s = true → endswith suf (p // s) = true.
Proof.
  intros H. apply endswith_iff in H as [t ->]. apply endswith_iff.
  exists (p ++ 47 :: t). unfold pjoin. by rewrite <- app_assoc.
Qed.

Lemma explicit_libs_dylib a src :
  src ∈ explicit_libs a → endswith (U ".dylib") src = true.
Proof.
  unfold explicit_libs. intros H.
  repeat (apply elem_of_cons in H as [->|H]; [by apply endswith_pjoin|]).
  by apply elem_of_nil in H.
Qed.

(** ** The second part of [bundle]: copies into [Frameworks/lib] *)

Section copying.
Context (a : args) (I : world → Prop).
Hypothesis Hotool : ∀ p, stable I (ERun (Otool_L p)).
Hypothesis Hcopy : ∀ w src dst n,
    I w → dst = lib_dir a // path_name src → endswith (U ".dylib") src = true →
    fs w !! dst = None → fs w !! src = Some n → n ≠ Dir →
    I (after (ECopy2 src dst) w).

Lemma keeps_copy_explicit_lib src :
    endswith (U ".dylib") src = true → keeps I raised (copy_explicit_lib a src).
Proof.
    intros Hs w HI. unfold copy_explicit_lib, path_exists, copy2.
    wp_go; try done; try (split; [done|by eexists]).
    - by eapply Hcopy.
    - by eapply Hcopy.
Qed.

Lemma keeps_copy_explicit_libs : keeps I raised (copy_explicit_libs a).
Proof.
    apply keeps_for_each. intros src Hsrc.
    by apply keeps_copy_explicit_lib, (explicit_libs_dylib a).
Qed.

Lemma keeps_walk_dep dep st : keeps I raised (walk_dep a dep st).
Proof.
    intros w HI. unfold walk_dep.
    destruct (startswith (U "@") dep); [by rewrite wp_ret|].
    destruct (startswith (gimp_app a) dep); [by rewrite wp_ret|].
    destruct (_ || _); [by rewrite wp_ret|].
    destruct (startswith (macports_prefix a) dep && endswith (U ".dylib") dep) eqn:Ef;
      [|by rewrite wp_ret].
    apply andb_true_iff in Ef as [_ Hs].
    unfold path_exists, copy2.
    wp_go; try done; try (split; [done|by eexists]).
    - by eapply Hcopy.
    - by eapply Hcopy.
Qed.

Lemma keeps_walk fuel queue seen :
    keeps I raised_or_fuel (walk fuel a queue seen).
Proof.
    revert queue seen. induction fuel as [|fuel IH]; intros [|item queue] seen;
      simpl; try apply keeps_ret.
    - apply keeps_out_of_fuel. by left.
    - apply keeps_bind.
      { eapply keeps_mono; [apply keeps_otool_deps, Hotool|]. by right. }
      intros ds. apply keeps_bind; [|intros st; apply IH].
      apply keeps_fold_m. intros dep st _.
      eapply keeps_mono; [apply keeps_walk_dep|]. by right.
Qed.

Lemma keeps_collect_binaries : keeps I raised (collect_binaries a).
Proof. unfold collect_binaries. keeps_auto. Qed.

Lemma keeps_add_copied binaries : keeps I raised (add_copied a binaries).
Proof. unfold add_copied. keeps_auto. Qed.
End copying.

(** ** The third part of [bundle]: install names, dependencies, search paths *)

Section finishing.
Context (a : args) (I : world → Prop).
Hypothesis Hid : ∀ new p, ids_pair a new p → stable I (ERun (Int_id new p)).
Hypothesis Hotool : ∀ p, stable I (ERun (Otool_L p)).
Hypothesis Hchange : ∀ old new p,
    startswith (U "@") new = true → stable I (ERun (Int_change old new p)).
Hypothesis Hotool_l : ∀ p, stable I (ERun (Otool_l p)).
Hypothesis Hadd : ∀ w p r m,
    I w → rpath_pair a p r → fs w !! p = Some (Bin m) → shows_rpath p m r = false →
    I (after (ERun (Int_add_rpath r p)) w).

Lemma keeps_fix_install_ids : keeps I raised (fix_install_ids a).
Proof.
    unfold fix_install_ids, glob_dylib. apply keeps_bind_read. intros f.
    apply keeps_bind.
    - apply keeps_for_each. intros d Hd. apply keeps_run_cmd, Hid. left.
      apply list_elem_of_In, filter_In in Hd as [_ Hd]. done.
    - intros _. apply keeps_for_each. intros name Hname. keeps_auto.
      apply keeps_run_cmd, Hid. right. by exists name.
Qed.

Lemma keeps_remap_dep binpath dep : keeps I raised (remap_dep a binpath dep).
Proof.
    unfold remap_dep.
    repeat match goal with
           | |- keeps _ _ (if ?b then _ else _) => destruct b
           | |- keeps _ _ (match ?x with _ => _ end) => destruct x
           end; try apply keeps_ret; by apply keeps_run_cmd, Hchange.
Qed.

Lemma keeps_remap_deps binaries : keeps I raised (remap_deps a binaries).
Proof.
    unfold remap_deps. apply keeps_for_each. intros b _. apply keeps_bind.
    - apply keeps_otool_deps, Hotool.
    - intros ds. apply keeps_for_each. intros dep _. apply keeps_remap_dep.
Qed.

Lemma keeps_add_rpath_guarded p r :
    rpath_pair a p r → keeps I raised (add_rpath_if_missing p r).
Proof.
    intros Hp w HI. unfold wp. rewrite add_rpath_if_missing_eq.
    pose proof (Hotool_l p w HI) as H1. unfold after in H1.
    rewrite apply_otool_l in H1.
    destruct (fs w !! p) as [[|m|]|] eqn:E; try (split; [done|by eexists]).
    destruct (contains _ _) eqn:Ec; [done|].
    destruct (bool_decide (r ∈ rpaths m)) eqn:Er.
    - apply bool_decide_eq_true in Er.
      apply (otool_l_text_rpath p) in Er. congruence.
    - specialize (Hadd _ p r m H1 Hp E Ec). unfold after in Hadd.
      cbn [fs log apply_event] in Hadd. rewrite exec_lookup in Hadd.
      cbn [command_path tool_effect] in Hadd. rewrite E, Er in Hadd.
      by rewrite <- app_assoc in Hadd.
Qed.

Lemma keeps_add_rpaths : keeps I raised (add_rpaths a).
Proof.
    unfold add_rpaths.
    apply keeps_bind; [apply keeps_add_rpath_guarded; left; split; [done|by left]|].
    intros _.
    apply keeps_bind; [apply keeps_add_rpath_guarded; left; split; [done|by right]|].
    intros _. unfold rglob_dylib. apply keeps_bind_read. intros f.
    apply keeps_bind.
    - apply keeps_for_each. intros d Hd.
      apply list_elem_of_In, filter_In in Hd as [_ Hd].
      apply keeps_bind; [|intros _];
        apply keeps_add_rpath_guarded; right; left; split; auto.
    - intros _. apply keeps_for_each. intros name Hname. keeps_auto.
      apply keeps_add_rpath_guarded. right. right. by exists name.
Qed.

Lemma keeps_finish binaries : keeps I raised (finish a binaries).
Proof.
    unfold finish. apply keeps_bind; [apply keeps_fix_install_ids|intros _].
    apply keeps_bind; [apply keeps_remap_deps|intros _]. apply keeps_add_rpaths.
Qed.
End finishing.

(** ** The log of a whole run *)

Lemma wp_keeps {A} (I : world → Prop) (X : abort → Prop) (m : M A)
    (N' : A → world → Prop) (X' : abort → world → Prop) w :
  keeps I X m → I w →
  (∀ a w', I w' → N' a w') →
  (∀ x w', I w' → X x → X' x w') →
  wp m N' X' w.
Proof.
  intros Hk HI HN HX. eapply wp_mono; [by apply Hk|done|].
  intros x w' [? ?]. auto.
Qed.

Section run_log.
Context (a : args) (fs0 : gmap str node).

Let I_late : world → Prop := guarded_log fs0 (allowed a).
Let I_early : world → Prop := λ w, guarded_log fs0 (allowed a) w ∧ untouched w.

Lemma untouched_after e w :
    untouched w → ¬ is_copy e → ¬ is_run e → untouched (after e w).
Proof.
    intros H ? ?. unfold untouched, after. cbn [log].
    apply Forall_app. split; [done|]. by apply Forall_singleton.
Qed.

Lemma early_keeps_log e : early_event a e → stable I_early e.
Proof.
    intros He w [Hg Hu]. split.
    - apply guarded_log_stable; [done|].
      destruct e; simpl in *; try done.
    - destruct e; simpl in He; try done; apply untouched_after; simpl; tauto.
Qed.

Lemma write_keeps_log t : stable I_early (EWriteText (bundle_dir a // U "qt.conf") t).
Proof.
    intros w [Hg Hu]. split.
    - by apply guarded_log_stable.
    - apply untouched_after; simpl; tauto.
Qed.

Lemma late_otool p : stable I_late (ERun (Otool_L p)).
Proof. intros w H. by apply guarded_log_stable. Qed.

Lemma late_copy w src dst n :
    I_late w → dst = lib_dir a // path_name src → endswith (U ".dylib") src = true →
    fs w !! dst = None → fs w !! src = Some n → n ≠ Dir →
    I_late (after (ECopy2 src dst) w).
Proof.
    intros H ? ? ? ? ?. apply guarded_log_stable; [done|]. simpl.
    repeat split; eauto.
Qed.

  (** Every effect of [gather] and of [finish] was allowed where it
      happened. *)
Lemma gather_log fuel w :
    I_early w → wp (gather fuel a) (λ _, I_late) (λ _, I_late) w.
Proof.
    intros HI. unfold gather.
    rewrite wp_bind.
    apply (wp_keeps I_early status1); [apply keeps_check_args, early_keeps_log|done| |by intros ? ? []].
    clear w HI. intros _ w HI. rewrite wp_bind.
    apply (wp_keeps I_early status1); [apply keeps_make_dirs, early_keeps_log|done| |by intros ? ? []].
    clear w HI. intros _ w HI. rewrite wp_bind.
    apply (wp_keeps I_early status1); [apply keeps_copy_qt_frameworks, early_keeps_log|done| |by intros ? ? []].
    clear w HI. intros _ w HI. rewrite wp_bind.
    apply (wp_keeps I_early status1); [apply keeps_copy_qt_plugins, early_keeps_log|done| |by intros ? ? []].
    clear w HI. intros _ w HI. rewrite wp_bind.
    apply (wp_keeps I_early raised); [apply keeps_write_text, write_keeps_log|done| |by intros ? ? []].
    clear w HI. intros _ w [HI _]. rewrite wp_bind.
    apply (wp_keeps I_late raised); [apply keeps_collect_binaries|done| |done].
    clear w HI. intros binaries w HI. rewrite wp_bind.
    apply (wp_keeps I_late raised);
      [apply keeps_copy_explicit_libs, late_copy|done| |done].
    clear w HI. intros _ w HI. rewrite wp_bind.
    apply (wp_keeps I_late raised_or_fuel);
      [apply keeps_walk; [apply late_otool|apply late_copy]|done| |done].
    clear w HI. intros _ w HI.
    apply (wp_keeps I_late raised); [apply keeps_add_copied|done|done|done].
Qed.

Lemma finish_log binaries : keeps I_late raised (finish a binaries).
Proof.
    apply keeps_finish.
    - intros new p Hp w H. by apply guarded_log_stable.
    - apply late_otool.
    - intros old new p Hn w H. by apply guarded_log_stable.
    - intros p w H. by apply guarded_log_stable.
    - intros w p r m H Hp Hm Hs. apply guarded_log_stable; [done|]. simpl.
      split; eauto.
Qed.

Lemma bundle_log fuel :
    guarded_log fs0 (allowed a) (bundle_run fuel a fs0).2.
Proof.
    unfold bundle_run, bundle.
    assert (H : wp (binaries <- gather fuel a ;; finish a binaries)
                   (λ _, I_late) (λ _, I_late) (World fs0 [])).
    { rewrite wp_bind. eapply wp_mono.
      - apply gather_log. split; [apply guarded_log_init|apply Forall_nil_2].
      - intros binaries w HI.
        apply (wp_keeps I_late raised); [apply finish_log|done|done|done].
      - done. }
    unfold wp in H. destruct (bind _ _ _) as [[[]|x] w']; exact H.
Qed.
End run_log.

(** ** C9 *)

Lemma exec_keeps_file cmd f f' m0 k :
  exec cmd f = Some (m0, f') → is_Some (f !! k) → is_Some (f' !! k).
Proof.
  rewrite exec_lookup. intros H Hk.
  destruct (f !! command_path cmd) as [[|m|]|] eqn:E; try done.
  destruct (tool_effect cmd m); [|done]. injection H as _ <-.
  destruct (decide (command_path cmd = k)) as [->|Hne].
  - rewrite lookup_insert_eq. eauto.
  - by rewrite lookup_insert_ne.
Qed.

(** Once something has been copied, nothing that [bundle] may do removes a
    file. *)
Lemma allowed_keeps_file a w e k :
  allowed a w e → ¬ untouched w → is_Some (fs w !! k) →
  is_Some (apply_event e (fs w) !! k).
Proof.
  intros Ha Hu Hk. destruct e as [msg|p|p|s d|p t|s d|cmd]; simpl in *; try tauto.
  - unfold copy2_fs. destruct (fs w !! s); [|done].
    destruct (decide (d = k)) as [->|Hne].
    + rewrite lookup_insert_eq. eauto.
    + by rewrite lookup_insert_ne.
  - destruct (exec cmd (fs w)) as [[m0 f']|] eqn:E; [|done].
    by eapply exec_keeps_file.
Qed.

Lemma copied_file_stays a fs0 pre src dst mid :
  (∀ pre' e post', pre ++ ECopy2 src dst :: mid = pre' ++ e :: post' →
                   allowed a (World (replay pre' fs0) pre') e) →
  is_Some (replay (pre ++ ECopy2 src dst :: mid) fs0 !! dst).
Proof.
  induction mid as [|e mid IH] using rev_ind; intros H.
  - specialize (H pre (ECopy2 src dst) [] eq_refl). simpl in H.
    destruct H as (_ & _ & _ & n & Hn & _).
    rewrite replay_app. simpl. unfold copy2_fs. rewrite Hn.
    rewrite lookup_insert_eq. eauto.
  - rewrite app_comm_cons, app_assoc, replay_snoc.
    apply (allowed_keeps_file a (World _ (pre ++ ECopy2 src dst :: mid))).
    + apply (H _ e []). by rewrite app_comm_cons, app_assoc.
    + unfold untouched. cbn [log]. rewrite Forall_app, Forall_cons.
      simpl. tauto.
    + cbn [fs]. apply IH. intros pre' e' post' E. apply (H pre' e' (post' ++ [e])).
      rewrite app_comm_cons, app_assoc, E. by rewrite <- app_assoc.
Qed.

(** C9: in a run of [bundle], a file is copied into [Frameworks/lib] only
    under its own base name and only when nothing exists there yet; so no
    destination and no base name is written twice, and of several sources
    with one base name only the first met is copied. *)
Theorem copy_only_if_absent (fuel : nat) (a : args) (fs0 : gmap str node)
    (pre post : list event) (src dst : str) :
  log (bundle_run fuel a fs0).2 = pre ++ ECopy2 src dst :: post →
  dst = lib_dir a // path_name src
  ∧ replay pre fs0 !! dst = None
  ∧ ∀ src' dst', ECopy2 src' dst' ∈ pre ++ post →
                 dst' ≠ dst ∧ path_name src' ≠ path_name src.
Proof.
  intros Hlog. destruct (bundle_log a fs0 fuel) as [_ Hall].
  rewrite Hlog in Hall.
  pose proof (Hall pre (ECopy2 src dst) post eq_refl) as H0. simpl in H0.
  destruct H0 as (Hdst & _ & Habs & _).
  split; [done|]. split; [done|].
  assert (Hne : ∀ src' dst', ECopy2 src' dst' ∈ pre ++ post → dst' ≠ dst).
  { intros src' dst' Hin ->. apply elem_of_app in Hin as [Hin|Hin];
      apply list_elem_of_split in Hin as (l1 & l2 & E).
    - (* an earlier copy to [dst] would still be there *)
      subst pre.
      assert (Hs : is_Some (replay (l1 ++ ECopy2 src' dst :: l2) fs0 !! dst)).
      { apply (copied_file_stays a). intros pre' e post' E.
        apply (Hall pre' e (post' ++ ECopy2 src dst :: post)).
        rewrite E. by rewrite <- app_assoc. }
      rewrite Habs in Hs. by destruct Hs.
    - (* a later copy to [dst] would find this one *)
      subst post.
      pose proof (Hall (pre ++ ECopy2 src dst :: l1) (ECopy2 src' dst) l2) as H1.
      rewrite <- app_assoc in H1. specialize (H1 eq_refl). simpl in H1.
      destruct H1 as (_ & _ & Habs' & _).
      assert (Hs : is_Some (replay (pre ++ ECopy2 src dst :: l1) fs0 !! dst)).
      { apply (copied_file_stays a). intros pre' e post' E.
        apply (Hall pre' e (post' ++ ECopy2 src' dst :: l2)).
        rewrite app_comm_cons, app_assoc, E. by rewrite <- app_assoc. }
      rewrite Habs' in Hs. by destruct Hs. }
  intros src' dst' Hin. split; [by eapply Hne|].
  intros Hname. apply (Hne src' dst' Hin).
  assert (Hd' : dst' = lib_dir a // path_name src').
  { apply elem_of_app in Hin as [Hin|Hin];
      apply list_elem_of_split in Hin as (l1 & l2 & E); subst.
    - rewrite <- app_assoc in Hall.
      by destruct (Hall l1 (ECopy2 src' dst') _ eq_refl) as (? & _).
    - pose proof (Hall (pre ++ ECopy2 src (lib_dir a // path_name src) :: l1)
                       (ECopy2 src' dst') l2) as H1.
      rewrite <- app_assoc in H1. by destruct (H1 eq_refl) as (? & _). }
  by rewrite Hd', Hname, Hdst.
Qed.

Lemma copy_only_if_absent_witness :
  lib_dir demo_args // U "libx.dylib"
  = lib_dir demo_args // path_name (U "/opt/local/lib/a/libx.dylib")
  ∧ replay (take 13 demo_log) demo_fs !! (lib_dir demo_args // U "libx.dylib") = None
  ∧ ∀ src' dst', ECopy2 src' dst' ∈ take 13 demo_log ++ drop 14 demo_log →
                 dst' ≠ lib_dir demo_args // U "libx.dylib"
                 ∧ path_name src' ≠ path_name (U "/opt/local/lib/a/libx.dylib").
Proof.
  apply (copy_only_if_absent 20 demo_args demo_fs). vm_compute. reflexivity.
Defined.

(** ** C5 *)

Lemma copy_qt_framework_spec a name w :
  wp (copy_qt_framework a name)
     (λ _ w', ∃ mid evs,
        ((mid = fs w ∧ fs w !! fw_dst a name = None
          ∧ evs = [ECopytree (fw_src a name) (fw_dst a name)])
         ∨ (mid = rmtree_fs (fw_dst a name) (fs w) ∧ is_Some (fs w !! fw_dst a name)
            ∧ evs = [ERmtree (fw_dst a name);
                     ECopytree (fw_src a name) (fw_dst a name)]))
        ∧ mid !! fw_src a name = Some Dir
        ∧ w' = World (copytree_fs (fw_src a name) (fw_dst a name) mid) (log w ++ evs))
     (λ _ _, True) w.
Proof.
  unfold copy_qt_framework, path_exists, rmtree, copytree. cbn zeta.
  change (qt_lib_dir a // (name ++ U ".framework")) with (fw_src a name).
  change (frameworks_dir a // (name ++ U ".framework")) with (fw_dst a name).
  wp_go; try done.
  - exists (rmtree_fs (fw_dst a name) (fs w)),
      [ERmtree (fw_dst a name); ECopytree (fw_src a name) (fw_dst a name)].
    split; [right; eauto|]. split; [done|].
    cbn [fs log apply_event]. by rewrite <- app_assoc.
  - exists (fs w), [ECopytree (fw_src a name) (fw_dst a name)].
    split; [left; eauto|]. split; done.
Qed.

Lemma wp_true {A} (m : M A) w : wp m (λ _ _, True) (λ _ _, True) w.
Proof. unfold wp. by destruct (m w) as [[?|?] ?]. Qed.

(** An invariant that survives every effect survives the run. *)
Section monotone.
Context (a : args) (I : world → Prop).
Hypothesis Hall : ∀ e, stable I e.

Lemma keeps_all_gather_tail fuel :
    keeps I (λ _, True)
      (copy_qt_plugins a ;;
       write_qt_conf a ;;
       binaries <- collect_binaries a ;;
       copy_explicit_libs a ;;
       walk fuel a (elements binaries) binaries ;;
       add_copied a binaries).
Proof.
    apply keeps_bind.
    { eapply keeps_mono; [apply keeps_copy_qt_plugins; intros; apply Hall|done]. }
    intros _. apply keeps_bind.
    { eapply keeps_mono; [apply keeps_write_text, Hall|done]. }
    intros _. apply keeps_bind.
    { eapply keeps_mono; [apply keeps_collect_binaries|done]. }
    intros binaries. apply keeps_bind.
    { eapply keeps_mono; [apply keeps_copy_explicit_libs; intros; by apply Hall|done]. }
    intros _. apply keeps_bind.
    { eapply keeps_mono; [apply keeps_walk; intros; by apply Hall|done]. }
    intros _. eapply keeps_mono; [apply keeps_add_copied|done].
Qed.

Lemma keeps_all_finish binaries : keeps I (λ _, True) (finish a binaries).
Proof.
    eapply keeps_mono; [apply keeps_finish; intros; by apply Hall|done].
Qed.
End monotone.

Lemma in_log_stable (e0 e : event) : stable (λ w, e0 ∈ log w) e.
Proof. intros w H. unfold after. cbn [log]. apply elem_of_app. by left. Qed.

(** C5: the frameworks bundled are the six of the fixed list.  Copying one
    removes what exists at its destination and copies the source tree there;
    a run that ends normally has copied each of the six; and when the source
    of one of them is missing the run ends with exit status 1. *)
Theorem qt_frameworks_copied (a : args) :
  QT_FRAMEWORKS
  = [U "QtCore"; U "QtGui"; U "QtWidgets"; U "QtNetwork"; U "QtDBus";
     U "QtPrintSupport"]
  ∧ (∀ name w w',
       copy_qt_framework a name w = (Ok tt, w') →
       ∃ mid evs,
         ((mid = fs w ∧ fs w !! fw_dst a name = None
           ∧ evs = [ECopytree (fw_src a name) (fw_dst a name)])
          ∨ (mid = rmtree_fs (fw_dst a name) (fs w)
             ∧ is_Some (fs w !! fw_dst a name)
             ∧ evs = [ERmtree (fw_dst a name);
                      ECopytree (fw_src a name) (fw_dst a name)]))
         ∧ log w' = log w ++ evs
         ∧ (∀ r n, under (fw_src a name) (fw_src a name ++ r) = true →
                   mid !! (fw_src a name ++ r) = Some n →
                   fs w' !! (fw_dst a name ++ r) = Some n))
  ∧ (∀ fuel fs0 w',
       bundle_run fuel a fs0 = (Ok tt, w') →
       ∀ name, name ∈ QT_FRAMEWORKS →
               ECopytree (fw_src a name) (fw_dst a name) ∈ log w')
  ∧ (∀ name w,
       fs w !! fw_src a name = None →
       (copy_qt_framework a name w).1 = Abort (Exit 1))
  ∧ (∀ fuel fs0 name,
       name ∈ QT_FRAMEWORKS →
       fs0 !! fw_src a name = None →
       under (frameworks_dir a) (fw_src a name) = false →
       exit_status (bundle_run fuel a fs0).1 = Some 1%Z).
Proof.
  split; [done|]. split; [|split; [|split]].
  - intros name w w' H.
    pose proof (wp_run _ _ _ _ _ _ H (copy_qt_framework_spec a name w)) as Hs.
    simpl in Hs. destruct Hs as (mid & evs & Hcase & Hsrc & ->).
    exists mid, evs. split; [done|]. split; [done|].
    intros r n Hu Hn. cbn [fs]. by apply copytree_lookup_copy.
  - intros fuel fs0 w' H name Hname.
    assert (Hwp : wp (bundle fuel a)
                     (λ _ w1, ∀ name, name ∈ QT_FRAMEWORKS →
                        ECopytree (fw_src a name) (fw_dst a name) ∈ log w1)
                     (λ _ _, True) (World fs0 [])).
    { unfold bundle, gather. rewrite !wp_bind.
      eapply wp_mono; [apply wp_true| |done]. intros _ w1 _. rewrite !wp_bind.
      eapply wp_mono; [apply wp_true| |done]. intros _ w2 _. rewrite !wp_bind.
      eapply wp_mono.
      - apply (wp_for_each_pre
                 (λ pre w, ∀ name, name ∈ pre →
                    ECopytree (fw_src a name) (fw_dst a name) ∈ log w)
                 _ _ (λ _ _, True)).
        + intros n Hn. by apply elem_of_nil in Hn.
        + intros pre x post w3 _ Hpre.
          eapply wp_mono; [apply wp_conj; [apply copy_qt_framework_spec|]| |].
          * apply (keeps_copy_qt_framework a
                     (λ w, ∀ name, name ∈ pre →
                        ECopytree (fw_src a name) (fw_dst a name) ∈ log w)
                     ); [|exact Hpre].
            intros e _ w4 H4 n Hn. by apply in_log_stable, H4.
          * intros [] w4 [(mid & evs & Hcase & _ & ->) Hold] n Hn.
            apply elem_of_app in Hn as [Hn|Hn]; [by apply Hold|].
            apply list_elem_of_singleton in Hn as ->. cbn [log].
            apply elem_of_app. right.
            destruct Hcase as [(_ & _ & ->)|(_ & _ & ->)];
              [|apply elem_of_cons; right]; by apply list_elem_of_singleton.
          * done.
      - intros [] w3 H3.
        apply (wp_keeps
                 (λ w, ∀ name, name ∈ QT_FRAMEWORKS →
                    ECopytree (fw_src a name) (fw_dst a name) ∈ log w)
                 (λ _, True)); [|exact H3| |done].
        + apply keeps_all_gather_tail.
          intros e w4 H4 n Hn. by apply in_log_stable, H4.
        + intros binaries w4 H4.
          apply (wp_keeps
                   (λ w, ∀ name, name ∈ QT_FRAMEWORKS →
                      ECopytree (fw_src a name) (fw_dst a name) ∈ log w)
                   (λ _, True)); [|exact H4|done|done].
          apply keeps_all_finish.
          intros e w5 H5 n Hn. by apply in_log_stable, H5.
      - done. }
    unfold bundle_run in H. unfold wp in Hwp. rewrite H in Hwp. by apply Hwp.
  - intros name w H. by rewrite copy_qt_framework_missing.
  - intros fuel fs0 name Hname Hnone Hout.
    assert (Hwp : wp (bundle fuel a) (λ _ _, False) (λ x _, status1 x)
                     (World fs0 [])).
    { unfold bundle, gather. rewrite !wp_bind.
      apply (wp_keeps (λ w, fs w !! fw_src a name = None) status1);
        [apply keeps_check_args; intros; by apply (missing_stable a)|done| |done].
      intros _ w1 H1. rewrite !wp_bind.
      apply (wp_keeps (λ w, fs w !! fw_src a name = None) status1);
        [apply keeps_make_dirs; intros; by apply (missing_stable a)|done| |done].
      intros _ w2 H2. rewrite !wp_bind.
      eapply wp_mono; [by apply (copy_qt_frameworks_missing a name)|done|done]. }
    unfold bundle_run. unfold wp in Hwp.
    destruct (bundle fuel a _) as [[[]|x] w']; [done|]. exact Hwp.
Qed.

Lemma qt_frameworks_copied_witness :
  exit_status
    (bundle_run 20 demo_args (delete (fw_src demo_args (U "QtDBus")) demo_fs)).1
  = Some 1%Z.
Proof.
  destruct (qt_frameworks_copied demo_args) as (_ & _ & _ & _ & H).
  apply (H 20%nat _ (U "QtDBus")).
  - unfold QT_FRAMEWORKS. rewrite !elem_of_cons. tauto.
  - apply lookup_delete_eq.
  - vm_compute. reflexivity.
Defined.

(** ** Running a tool: what changes *)

Lemma bind_ok_inv {A B : Type} (m : M A) (k : A → M B) w b w' :
  bind m k w = (Ok b, w') → ∃ a w1, m w = (Ok a, w1) ∧ k a w1 = (Ok b, w').
Proof.
  unfold bind. destruct (m w) as [[a|x] w1]; [|done]. intros H. by exists a, w1.
Qed.

Lemma run_ok_pair (x : res unit * world) : x.1 = Ok tt → x = (Ok tt, x.2).
Proof. destruct x as [[[]|] ?]; simpl; congruence. Qed.

Lemma apply_run_lookup cmd f k :
  apply_event (ERun cmd) f !! k =
  if decide (command_path cmd = k)
  then match f !! k with
       | Some (Bin m) =>
           match tool_effect cmd m with
           | Some m' => Some (Bin m')
           | None => Some (Bin m)
           end
       | o => o
       end
  else f !! k.
Proof.
  cbn [apply_event]. rewrite exec_lookup.
  destruct (decide (command_path cmd = k)) as [<-|Hne].
  - destruct (f !! command_path cmd) as [[|m|]|] eqn:E; try done.
    destruct (tool_effect cmd m); [|done]. by rewrite lookup_insert_eq.
  - destruct (f !! command_path cmd) as [[|m|]|] eqn:E; try done.
    destruct (tool_effect cmd m); [|done]. by rewrite lookup_insert_ne.
Qed.

Lemma apply_run_dom cmd f k :
  is_Some (apply_event (ERun cmd) f !! k) ↔ is_Some (f !! k).
Proof.
  rewrite apply_run_lookup. destruct (decide _); [|done].
  destruct (f !! k) as [[|m|]|]; try done.
  destruct (tool_effect cmd m); split; eauto.
Qed.

(** A successful [run] is its one effect. *)
Lemma run_ok cmd w r w' :
  run cmd w = (r, w') →
  w' = after (ERun cmd) w ∧
  (r = Ok tt ↔ ∃ m f', exec cmd (fs w) = Some (m, f')).
Proof.
  unfold run, bind, read, emit, ret, raise. cbn [fs log].
  destruct (exec cmd (fs w)) as [[m f']|] eqn:E; intros H; injection H as <- <-.
  - split; [done|]. split; eauto.
  - split; [done|]. split; [done|]. by intros (? & ? & ?).
Qed.

(** ** C3 *)

Lemma id_is_stable p v cmd :
  (∀ v', cmd = Int_id v' p → v' = v) → stable (id_is p v) (ERun cmd).
Proof.
  intros Hc w (m & Hm & Hid). unfold id_is, after. cbn [fs].
  rewrite apply_run_lookup. destruct (decide (command_path cmd = p)) as [Hp|Hp];
    [|by exists m].
  rewrite Hm. destruct (tool_effect cmd m) as [m'|] eqn:E; [|by exists m].
  exists m'. split; [done|].
  destruct cmd; simpl in *; simplify_eq; try done.
  - cbn [install_name]. destruct (install_name m); [|by intros [? ?]].
    intros _. f_equal. by apply Hc.
  - destruct (bool_decide _); simplify_eq. done.
Qed.

Lemma absent_run_stable p cmd : stable (λ w, fs w !! p = None) (ERun cmd).
Proof.
  intros w H. unfold after. cbn [fs].
  apply eq_None_not_Some. rewrite apply_run_dom. by rewrite H; intros [? ?].
Qed.

Lemma set_id_establishes p v w :
  wp (set_id p v) (λ _, id_is p v) (λ _ _, True) w.
Proof.
  apply wp_intro. intros r w' H. apply run_ok in H as [-> Hr].
  destruct r as [[]|x]; [|done].
  destruct (proj1 Hr eq_refl) as (m & f' & He).
  unfold id_is, after. cbn [fs]. rewrite apply_run_lookup. cbn [command_path].
  rewrite decide_True by done.
  rewrite exec_lookup in He. cbn [command_path] in He.
  destruct (fs w !! p) as [[|m0|]|]; try done. simpl.
  eexists. split; [done|]. cbn [install_name].
  destruct (install_name m0); [done|by intros [? ?]].
Qed.

Lemma before_app_no_sep sep (x y : str) :
  sep ∉ x → before sep (x ++ y) = x ++ before sep y.
Proof.
  induction x as [|c x IH]; simpl; intros H; [done|].
  apply not_elem_of_cons in H as [Hc Hx].
  destruct (N.eqb_spec c sep); [congruence|]. by rewrite IH.
Qed.

Lemma endswith_path_name (suf s : str) :
  47 ∉ suf → endswith suf s = true → endswith suf (path_name s) = true.
Proof.
  intros Hs H. apply endswith_iff in H as [t ->]. unfold path_name.
  rewrite rev_app_distr, before_app_no_sep, rev_app_distr, rev_involutive.
  - apply endswith_app.
  - intros Hin. apply Hs. by apply list_elem_of_In, in_rev, list_elem_of_In.
Qed.

Lemma child_dylib_pjoin dir n :
  47 ∉ n → endswith (U ".dylib") n = true → child_dylib dir (dir // n) = true.
Proof.
  intros Hn He. unfold child_dylib, pjoin.
  replace (dir ++ 47 :: n) with ((dir ++ [47]) ++ n) by by rewrite <- app_assoc.
  rewrite startswith_app. cbn zeta. cbn [andb].
  replace (length dir + 1)%nat with (length (dir ++ [47])) by by rewrite length_app.
  rewrite drop_app_length, He, andb_true_r.
  apply negb_true_iff. apply not_true_is_false. intros Hc.
  apply contains_iff in Hc as (x & y & ->). apply Hn.
  apply elem_of_app. right. by apply elem_of_cons; left.
Qed.

Lemma child_dylib_inv dir k :
  child_dylib dir k = true → ∃ n, k = dir // n.
Proof.
  unfold child_dylib. intros H. apply andb_true_iff in H as [H _].
  apply startswith_iff in H as [t ->]. exists t. unfold pjoin.
  by rewrite <- app_assoc.
Qed.

Lemma qt_name_cases name :
  name ∈ QT_FRAMEWORKS →
  name = U "QtCore" ∨ name = U "QtGui" ∨ name = U "QtWidgets"
  ∨ name = U "QtNetwork" ∨ name = U "QtDBus" ∨ name = U "QtPrintSupport".
Proof. unfold QT_FRAMEWORKS. rewrite !elem_of_cons, elem_of_nil. tauto. Qed.

(** A framework binary is not a file of [Frameworks/lib], and two frameworks
    have different binaries. *)
Lemma fw_bin_not_lib a name d :
  name ∈ QT_FRAMEWORKS → child_dylib (lib_dir a) d = true → fw_bin a name ≠ d.
Proof.
  intros Hn Hd E0. subst d. apply child_dylib_inv in Hd as [n E].
  unfold fw_bin, lib_dir, pjoin in E. rewrite <- !app_assoc in E.
  apply app_inv_head in E. injection E as E.
  apply qt_name_cases in Hn as [-> | [-> | [-> | [-> | [-> | -> ]]]]]; discriminate.
Qed.

Lemma fw_bin_inj a name name' :
  name ∈ QT_FRAMEWORKS → name' ∈ QT_FRAMEWORKS →
  fw_bin a name = fw_bin a name' → name = name'.
Proof.
  intros Hn Hn' E. unfold fw_bin, pjoin in E. apply app_inv_head in E.
  injection E as E.
  apply qt_name_cases in Hn as [-> | [-> | [-> | [-> | [-> | -> ]]]]];
    apply qt_name_cases in Hn' as [-> | [-> | [-> | [-> | [-> | -> ]]]]];
    first [reflexivity|discriminate].
Qed.

Lemma copies_run_stable (copies : list event) cmd :
  stable (λ w, ∀ src dst, ECopy2 src dst ∈ log w → ECopy2 src dst ∈ copies)
         (ERun cmd).
Proof.
  intros w H src dst Hin. unfold after in Hin. cbn [log] in Hin.
  apply elem_of_app in Hin as [Hin|Hin]; [by apply H|].
  by apply list_elem_of_singleton in Hin.
Qed.

Lemma ids_fixed_stable a dylibs copies cmd :
  (∀ v p, cmd ≠ Int_id v p) → stable (ids_fixed a dylibs copies) (ERun cmd).
Proof.
  intros Hc w (H1 & H2 & H3). split; [|split].
  - intros d Hd. apply id_is_stable; [|by apply H1]. intros v' E. by destruct (Hc v' d).
  - intros name Hn. destruct (H2 name Hn) as [H|H].
    + left. by apply absent_run_stable.
    + right. apply id_is_stable; [|done]. intros v' E. by destruct (Hc v' (fw_bin a name)).
  - by apply copies_run_stable.
Qed.

Lemma fix_install_ids_spec a w1 :
  wp (fix_install_ids a)
     (λ _, ids_fixed a (List.filter (child_dylib (lib_dir a)) (elements (dom (fs w1))))
                     (log w1))
     (λ _ _, True) w1.
Proof.
  unfold fix_install_ids, glob_dylib. rewrite wp_bind, wp_read.
  set (dylibs := List.filter _ _). rewrite wp_bind.
  set (K := λ w : world, ∀ src dst, ECopy2 src dst ∈ log w → ECopy2 src dst ∈ log w1).
  eapply wp_mono; [| |done].
  - apply (wp_for_each_pre
             (λ pre w, (∀ d, d ∈ pre → id_is d (lib_ref (path_name d)) w) ∧ K w)
             _ _ (λ _ _, True)).
    + split; [|by unfold K]. intros d Hd. by apply elem_of_nil in Hd.
    + intros pre x post w3 _ Hpre.
      eapply wp_mono; [apply wp_conj; [apply set_id_establishes|]| |done].
      * apply (keeps_run_cmd
                 (λ w, (∀ d, d ∈ pre → id_is d (lib_ref (path_name d)) w) ∧ K w)
                 (Int_id (lib_ref (path_name x)) x)); [|exact Hpre].
        intros w4 [Ha Hb]. split; [|exact (copies_run_stable (log w1) _ _ Hb)].
        intros d Hd. apply id_is_stable; [|by apply Ha].
        intros v' E. injection E as E1 E2. by subst.
      * intros [] w4 [Hx [Hold HK]]. split; [|done].
        intros d Hd. apply elem_of_app in Hd as [Hd|Hd]; [by apply Hold|].
        by apply list_elem_of_singleton in Hd as ->.
  - intros [] w2 [Hlibs HK]. cbn beta.
    eapply wp_mono; [| |done].
    + apply (wp_for_each_pre
               (λ pre w, (∀ d, d ∈ dylibs → id_is d (lib_ref (path_name d)) w)
                         ∧ (∀ name, name ∈ pre → name ∈ QT_FRAMEWORKS →
                              fs w !! fw_bin a name = None
                              ∨ id_is (fw_bin a name) (fw_ref name) w)
                         ∧ K w)
               _ _ (λ _ _, True)).
      * split; [done|]. split; [|done]. intros n Hn. by apply elem_of_nil in Hn.
      * intros pre x post w3 Hsplit (Ha & Hb & Hc).
        assert (Hx : x ∈ QT_FRAMEWORKS).
        { rewrite Hsplit. apply elem_of_app. right. by apply elem_of_cons; left. }
        unfold path_exists. rewrite wp_bind, wp_read.
        destruct (fs w3 !! fw_bin a x) as [n|] eqn:E.
        -- eapply wp_mono; [apply wp_conj; [apply set_id_establishes|]| |done].
           ++ apply (keeps_run_cmd
                       (λ w, (∀ d, d ∈ dylibs → id_is d (lib_ref (path_name d)) w)
                             ∧ (∀ name, name ∈ pre → name ∈ QT_FRAMEWORKS →
                                  fs w !! fw_bin a name = None
                                  ∨ id_is (fw_bin a name) (fw_ref name) w)
                             ∧ K w)
                       (Int_id (fw_ref x) (fw_bin a x))); [|done].
              intros w4 (Ha' & Hb' & Hc'). split; [|split].
              ** intros d Hd. apply id_is_stable; [|by apply Ha'].
                 intros v' E'. injection E' as E1 E2.
                 apply list_elem_of_In, filter_In in Hd as [_ Hd].
                 by destruct (fw_bin_not_lib a x d).
              ** intros name Hn Hq. destruct (Hb' name Hn Hq) as [H|H].
                 --- left. by apply absent_run_stable.
                 --- right. apply id_is_stable; [|done].
                     intros v' E'. injection E' as E1 E2. subst v'.
                     by rewrite (fw_bin_inj a x name Hx Hq E2).
              ** exact (copies_run_stable (log w1) _ _ Hc').
           ++ intros [] w4 [Hnew (Ha' & Hb' & Hc')]. split; [done|]. split; [|done].
              intros name Hn Hq. apply elem_of_app in Hn as [Hn|Hn]; [by apply Hb'|].
              apply list_elem_of_singleton in Hn as ->. by right.
        -- rewrite wp_ret. split; [done|]. split; [|done].
           intros name Hn Hq. apply elem_of_app in Hn as [Hn|Hn]; [by apply Hb|].
           apply list_elem_of_singleton in Hn as ->. by left.
    + intros [] w3 (Ha & Hb & Hc). split; [done|]. split; [|done].
      intros name Hn. by apply Hb.
Qed.

Lemma dylib_no_slash : 47 ∉ U ".dylib".
Proof.
  intros H. apply list_elem_of_In in H. vm_compute in H. intuition discriminate.
Qed.

Lemma gather_ok_log fuel a fs0 bins w1 :
  gather fuel a (World fs0 []) = (Ok bins, w1) →
  guarded_log fs0 (allowed a) w1.
Proof.
  intros H.
  assert (H0 : guarded_log fs0 (allowed a) (World fs0 []) ∧ untouched (World fs0 [])).
  { split; [apply guarded_log_init|apply Forall_nil_2]. }
  exact (wp_run _ _ _ _ _ _ H (gather_log a fs0 fuel _ H0)).
Qed.

(** After [gather], what has been copied is a file of [Frameworks/lib] that
    [glob] finds. *)
Lemma copied_is_globbed a fs0 w1 src dst :
  guarded_log fs0 (allowed a) w1 → ECopy2 src dst ∈ log w1 →
  dst = lib_dir a // path_name src
  ∧ In dst (List.filter (child_dylib (lib_dir a)) (elements (dom (fs w1)))).
Proof.
  intros [Hfs Hall] Hin. apply list_elem_of_split in Hin as (pre & post & E).
  destruct (Hall pre (ECopy2 src dst) post E) as (Hd & Hs & _). simpl in *.
  split; [done|]. apply filter_In. split.
  - apply list_elem_of_In, elem_of_elements, elem_of_dom. rewrite Hfs, E.
    apply (copied_file_stays a). intros pre' e post' E'. apply (Hall pre' e post').
    by rewrite E.
  - rewrite Hd. apply child_dylib_pjoin; [apply path_name_no_slash|].
    apply endswith_path_name; [apply dylib_no_slash|done].
Qed.

Lemma keeps_after_ids a (I : world → Prop) binaries :
  (∀ cmd, (∀ v p, cmd ≠ Int_id v p) → stable I (ERun cmd)) →
  keeps I raised (remap_deps a binaries ;; add_rpaths a).
Proof.
  intros H. apply keeps_bind; [|intros _].
  - apply keeps_remap_deps; intros; by apply H.
  - apply keeps_add_rpaths; intros; by apply H.
Qed.

(** C3: after a run of [bundle] that ends normally, every file copied into
    [Frameworks/lib] is a Mach-O file whose install name, if it is a library,
    is [@rpath/lib/<basename>], and every framework binary that exists has
    the install name [@rpath/<Name>.framework/Versions/5/<Name>]. *)
Theorem install_names_set (fuel : nat) (a : args) (fs0 : gmap str node) (w' : world) :
  bundle_run fuel a fs0 = (Ok tt, w') →
  (∀ src dst, ECopy2 src dst ∈ log w' →
     dst = lib_dir a // path_name src ∧
     ∃ m, fs w' !! dst = Some (Bin m) ∧
          (is_Some (install_name m) →
           install_name m = Some (U "@rpath/lib/" ++ path_name src)))
  ∧ (∀ name m, name ∈ QT_FRAMEWORKS →
       fs w' !! fw_bin a name = Some (Bin m) →
       is_Some (install_name m) →
       install_name m
       = Some (U "@rpath/" ++ name ++ U ".framework/Versions/5/" ++ name)).
Proof.
  intros H. unfold bundle_run, bundle in H.
  apply bind_ok_inv in H as (bins & w1 & Hg & Hf). unfold finish in Hf.
  apply bind_ok_inv in Hf as ([] & w2 & Hfix & Hrest).
  pose proof (gather_ok_log _ _ _ _ _ Hg) as Hlog.
  pose proof (wp_run _ _ _ _ _ _ Hfix (fix_install_ids_spec a w1)) as H2.
  simpl in H2.
  destruct (keeps_run _ _ _ _ _ _
              (keeps_after_ids a _ bins (ids_fixed_stable a _ _)) H2 Hrest)
    as [(Hlibs & Hfws & Hcopies) _].
  split.
  - intros src dst Hin. apply Hcopies in Hin.
    destruct (copied_is_globbed a fs0 w1 src dst Hlog Hin) as [Hd Hglob].
    split; [done|].
    apply list_elem_of_In in Hglob. specialize (Hlibs dst Hglob).
    rewrite Hd, path_name_idem in Hlibs. by rewrite Hd.
  - intros name m Hn Hm Hi. destruct (Hfws name Hn) as [Hnone|(m' & Hm' & Hid)].
    + congruence.
    + rewrite Hm in Hm'. injection Hm' as <-. by apply Hid.
Qed.

Lemma install_names_set_witness :
  (∀ src dst, ECopy2 src dst ∈ log demo_final →
     dst = lib_dir demo_args // path_name src ∧
     ∃ m, fs demo_final !! dst = Some (Bin m) ∧
          (is_Some (install_name m) →
           install_name m = Some (U "@rpath/lib/" ++ path_name src)))
  ∧ (∀ name m, name ∈ QT_FRAMEWORKS →
       fs demo_final !! fw_bin demo_args name = Some (Bin m) →
       is_Some (install_name m) →
       install_name m
       = Some (U "@rpath/" ++ name ++ U ".framework/Versions/5/" ++ name)).
Proof.
  apply (install_names_set 20 demo_args demo_fs). vm_compute. reflexivity.
Defined.

(** ** Run-time search paths *)

Lemma otool_l_text_more p i ds rs r' :
  otool_l_text p (MachO i ds (rs ++ [r']))
  = otool_l_text p (MachO i ds rs) ++ rpath_command r'.
Proof.
  unfold otool_l_text. cbn [install_name deps rpaths].
  rewrite fmap_app, concat_app.
  change (concat (rpath_command <$> [r'])) with (rpath_command r' ++ []).
  rewrite app_nil_r.
  generalize (rpath_command r'). intros x. hide_literals.
  by rewrite <- !app_assoc.
Qed.

Lemma rstable_has p r : rstable (has_rpath p r).
Proof.
  intros cmd Hc w (m & Hm & Hs). unfold has_rpath, after. cbn [fs].
  rewrite apply_run_lookup. destruct (decide (command_path cmd = p)) as [Hp|Hp];
    [|by exists m].
  rewrite Hm. destruct cmd; try done; simpl in *; subst.
  - by exists m.
  - destruct (bool_decide _); [by exists m|]. eexists. split; [done|].
    unfold shows_rpath in *. destruct m as [i ds rs]. cbn [install_name deps rpaths].
    rewrite otool_l_text_more.
    apply contains_iff in Hs as (x & y & ->). apply contains_iff.
    exists x, (y ++ rpath_command rpath). by rewrite <- !app_assoc.
Qed.

Lemma rstable_absent p : rstable (λ w, fs w !! p = None).
Proof. intros cmd _. apply absent_run_stable. Qed.

Lemma rstable_present p : rstable (λ w, is_Some (fs w !! p)).
Proof. intros cmd _ w H. unfold after. cbn [fs]. by apply apply_run_dom. Qed.

Lemma rstable_and (I J : world → Prop) :
  rstable I → rstable J → rstable (λ w, I w ∧ J w).
Proof. intros HI HJ cmd Hc w [? ?]. split; [by apply HI|by apply HJ]. Qed.

Lemma rstable_or (I J : world → Prop) :
  rstable I → rstable J → rstable (λ w, I w ∨ J w).
Proof. intros HI HJ cmd Hc w [?|?]; [left; by apply HI|right; by apply HJ]. Qed.

Lemma rstable_forall {A : Type} (P : A → world → Prop) :
  (∀ x, rstable (P x)) → rstable (λ w, ∀ x, P x w).
Proof. intros H cmd Hc w Hw x. by apply H. Qed.

Lemma rstable_impl (Q : Prop) (I : world → Prop) :
  rstable I → rstable (λ w, Q → I w).
Proof. intros H cmd Hc w Hw HQ. by apply H, Hw. Qed.

Lemma add_rpath_establishes p r w :
  wp (add_rpath_if_missing p r) (λ _, has_rpath p r) (λ _ _, True) w.
Proof.
  unfold wp. rewrite add_rpath_if_missing_eq.
  destruct (fs w !! p) as [[|m|]|] eqn:E; try done.
  destruct (contains _ _) eqn:Ec.
  - exists m. by split.
  - destruct (bool_decide _); [done|]. eexists. cbn [fs].
    split; [apply lookup_insert_eq|].
    apply otool_l_text_rpath. cbn [rpaths]. apply elem_of_app. right.
    by apply list_elem_of_singleton.
Qed.

Lemma add_rpath_step (I : world → Prop) p r w :
  rstable I → I w →
  wp (add_rpath_if_missing p r) (λ _ w', I w' ∧ has_rpath p r w') (λ _ _, True) w.
Proof.
  intros Hs HI.
  eapply wp_mono; [apply wp_conj; [apply add_rpath_establishes|]| |done].
  - apply (keeps_add_rpath_if_missing I p r); [by apply Hs|by apply Hs|done].
  - intros [] w' [? ?]. done.
Qed.

(** ** What a run does to the file system *)

(** X1: whatever the outcome of a run, it makes, removes and copies
    directories only below [bundle_dir/Frameworks], copies files only into
    [bundle_dir/Frameworks], and writes text only to [bundle_dir/qt.conf]. *)
Theorem tree_effects_confined (fuel : nat) (a : args) (fs0 : gmap str node)
    (e : event) :
  e ∈ log (bundle_run fuel a fs0).2 →
  match e with
  | EMkdir p | ERmtree p | ECopytree _ p | ECopy2 _ p =>
      under (frameworks_dir a) p = true
  | EWriteText p _ => p = bundle_dir a // U "qt.conf"
  | EStderr _ | ERun _ => True
  end.
Proof.
  intros Hin. destruct (bundle_log a fs0 fuel) as [_ Hall].
  apply list_elem_of_split in Hin as (pre & post & E).
  specialize (Hall pre e post E).
  destruct e as [msg|p|p|s d|p t|s d|cmd]; simpl in Hall; try tauto.
  destruct Hall as (-> & _). eapply under_trans; apply under_pjoin.
Qed.

Lemma tree_effects_confined_witness :
  under (frameworks_dir demo_args)
        (U "/build/gmic_gimp_qt/Frameworks/lib/libx.dylib") = true.
Proof.
  apply (tree_effects_confined 20 demo_args demo_fs
           (ECopy2 (U "/opt/local/lib/a/libx.dylib")
                   (U "/build/gmic_gimp_qt/Frameworks/lib/libx.dylib"))).
  apply list_elem_of_In. vm_compute. tauto.
Defined.

(** X2: the directory work comes first: once a file has been copied into
    [Frameworks/lib] or a tool has run, the run makes, removes or copies no
    directory and writes no text any more. *)
Theorem no_tree_change_after_copy (fuel : nat) (a : args) (fs0 : gmap str node)
    (pre post : list event) (e : event) :
  log (bundle_run fuel a fs0).2 = pre ++ e :: post →
  match e with
  | EMkdir _ | ERmtree _ | ECopytree _ _ | EWriteText _ _ => True
  | _ => False
  end →
  Forall (λ e', ¬ is_copy e' ∧ ¬ is_run e') pre.
Proof.
  intros E He. destruct (bundle_log a fs0 fuel) as [_ Hall].
  specialize (Hall pre e post E).
  destruct e; simpl in *; try done; by destruct Hall.
Qed.

Lemma no_tree_change_after_copy_witness :
  Forall (λ e', ¬ is_copy e' ∧ ¬ is_run e') (take 10 demo_log).
Proof.
  apply (no_tree_change_after_copy 20 demo_args demo_fs
           (take 10 demo_log) (drop 11 demo_log)
           (EWriteText (U "/build/gmic_gimp_qt/qt.conf")
              (U "[Paths]" ++ [10] ++ U "Plugins = Frameworks/plugins" ++ [10]))).
  - vm_compute. reflexivity.
  - exact I.
Defined.

(** X3: the arguments of every [install_name_tool] call of a run: [-id]
    gives a file of [Frameworks/lib] the name [@rpath/lib/<basename>] and a
    framework binary its [@rpath] name, [-change] rewrites only to a name
    that starts with [@], and [-add_rpath] adds only a search path that the
    script wants for that binary. *)
Theorem tool_arguments (fuel : nat) (a : args) (fs0 : gmap str node)
    (cmd : command) :
  ERun cmd ∈ log (bundle_run fuel a fs0).2 →
  match cmd with
  | Int_id new p => ids_pair a new p
  | Int_change _ new _ => startswith (U "@") new = true
  | Int_add_rpath r p => rpath_pair a p r
  | Otool_L _ | Otool_l _ => True
  end.
Proof.
  intros Hin. destruct (bundle_log a fs0 fuel) as [_ Hall].
  apply list_elem_of_split in Hin as (pre & post & E).
  specialize (Hall pre (ERun cmd) post E).
  destruct cmd; simpl in Hall; tauto.
Qed.

Lemma tool_arguments_witness :
  startswith (U "@") (U "@rpath/lib/libx.dylib") = true.
Proof.
  apply (tool_arguments 20 demo_args demo_fs
           (Int_change (U "/opt/local/lib/a/libx.dylib")
                       (U "@rpath/lib/libx.dylib")
                       (U "/build/gmic_gimp_qt/gmic_gimp_qt"))).
  apply list_elem_of_In. vm_compute. tauto.
Defined.

(** ** The search paths after a run *)

Lemma rstable_dom_sub (f : gmap str node) :
  rstable (λ w, ∀ k, is_Some (fs w !! k) → is_Some (f !! k)).
Proof.
  intros cmd _ w H k Hk. apply H. unfold after in Hk. cbn [fs] in Hk.
  by apply apply_run_dom in Hk.
Qed.

Lemma rstable_has_all (l : list str) (r3 r4 : str) :
  rstable (λ w, ∀ d, d ∈ l → has_rpath d r3 w ∧ has_rpath d r4 w).
Proof.
  intros cmd Hc w H d Hd. destruct (H d Hd). split; by apply rstable_has.
Qed.

Lemma rstable_fw_all a (l : list str) (r : str) :
  rstable (λ w, ∀ name, name ∈ l →
                  fs w !! fw_bin a name = None ∨ has_rpath (fw_bin a name) r w).
Proof.
  intros cmd Hc w H name Hn. destruct (H name Hn) as [?|?].
  - left. by apply absent_run_stable.
  - right. by apply rstable_has.
Qed.

Lemma add_rpaths_dylibs (I : world → Prop) (dylibs : list str) (r3 r4 : str) w :
  rstable I → I w →
  wp (for_each dylibs
        (λ dylib, add_rpath_if_missing dylib r3 ;; add_rpath_if_missing dylib r4))
     (λ _ w', I w' ∧ ∀ d, d ∈ dylibs → has_rpath d r3 w' ∧ has_rpath d r4 w')
     (λ _ _, True) w.
Proof.
  intros Hs HI.
  apply (wp_for_each_pre
           (λ pre w, I w ∧ ∀ d, d ∈ pre → has_rpath d r3 w ∧ has_rpath d r4 w)
           _ _ (λ _ _, True)).
  - split; [done|]. intros d Hd. by apply elem_of_nil in Hd.
  - intros pre x post w1 _ Hpre. rewrite wp_bind.
    pose (J := λ w, I w ∧ ∀ d, d ∈ pre → has_rpath d r3 w ∧ has_rpath d r4 w).
    assert (HJ : rstable J) by (apply rstable_and; [done|apply rstable_has_all]).
    eapply wp_mono; [apply (add_rpath_step J x r3 w1); [done|exact Hpre]| |done].
    intros [] w2 H2. cbn beta.
    eapply wp_mono;
      [apply (add_rpath_step (λ w, J w ∧ has_rpath x r3 w) x r4 w2);
       [apply rstable_and; [done|apply rstable_has]|exact H2]| |done].
    + intros [] w3 [[[HI3 Hold] H3] H4]. split; [done|].
        intros d Hd. apply elem_of_app in Hd as [Hd|Hd]; [by apply Hold|].
        by apply list_elem_of_singleton in Hd as ->.
Qed.

Lemma add_rpaths_frameworks a (I : world → Prop) (r : str) w :
  rstable I → I w →
  wp (for_each QT_FRAMEWORKS
        (λ name, e <- path_exists (fw_bin a name) ;;
                 if e then add_rpath_if_missing (fw_bin a name) r else ret tt))
     (λ _ w', I w' ∧ ∀ name, name ∈ QT_FRAMEWORKS →
                fs w' !! fw_bin a name = None ∨ has_rpath (fw_bin a name) r w')
     (λ _ _, True) w.
Proof.
  intros Hs HI.
  apply (wp_for_each_pre
           (λ pre w, I w ∧ ∀ name, name ∈ pre →
                       fs w !! fw_bin a name = None
                       ∨ has_rpath (fw_bin a name) r w)
           _ _ (λ _ _, True)).
  - split; [done|]. intros d Hd. by apply elem_of_nil in Hd.
  - intros pre x post w1 _ Hpre. unfold path_exists. rewrite wp_bind, wp_read.
    destruct (fs w1 !! fw_bin a x) as [n|] eqn:E.
    + eapply wp_mono;
        [apply (add_rpath_step
                  (λ w, I w ∧ ∀ name, name ∈ pre →
                          fs w !! fw_bin a name = None
                          ∨ has_rpath (fw_bin a name) r w)
                  (fw_bin a x) r w1);
         [apply rstable_and; [done|apply rstable_fw_all]|exact Hpre]| |done].
      intros [] w2 [[HI2 Hold] H2]. split; [done|].
        intros name Hn. apply elem_of_app in Hn as [Hn|Hn]; [by apply Hold|].
        apply list_elem_of_singleton in Hn as ->. by right.
    + rewrite wp_ret. destruct Hpre as [HI1 Hold]. split; [done|].
      intros name Hn. apply elem_of_app in Hn as [Hn|Hn]; [by apply Hold|].
      apply list_elem_of_singleton in Hn as ->. by left.
Qed.

Lemma add_rpaths_spec a w :
  wp (add_rpaths a)
     (λ _ w', ∀ p r, rpath_pair a p r → is_Some (fs w' !! p) → has_rpath p r w')
     (λ _ _, True) w.
Proof.
  unfold add_rpaths. rewrite wp_bind.
  eapply wp_mono; [apply (add_rpath_step (λ _, True)); [|done]| |done].
  { by intros cmd _ w0 _. }
  intros [] w1 [_ H1]. cbn beta. rewrite wp_bind.
  eapply wp_mono;
    [apply (add_rpath_step
              (has_rpath (plugin_bin a) (U "@loader_path/Frameworks")) _ _ w1);
     [apply rstable_has|exact H1]| |done].
  intros [] w2 H2. cbn beta. unfold rglob_dylib. rewrite wp_bind, wp_read.
  set (dylibs := List.filter _ _). rewrite wp_bind.
  eapply wp_mono;
    [apply (add_rpaths_dylibs
              (λ w, (has_rpath (plugin_bin a) (U "@loader_path/Frameworks") w
                     ∧ has_rpath (plugin_bin a) (gimp_app a ++ U "/Contents/Resources") w)
                    ∧ ∀ k, is_Some (fs w !! k) → is_Some (fs w2 !! k)))| |done].
  { apply rstable_and; [apply rstable_and; apply rstable_has|apply rstable_dom_sub]. }
  { split; [done|]. done. }
  intros [] w3 H3. cbn beta.
  eapply wp_mono;
    [apply (add_rpaths_frameworks a
              (λ w, ((has_rpath (plugin_bin a) (U "@loader_path/Frameworks") w
                      ∧ has_rpath (plugin_bin a) (gimp_app a ++ U "/Contents/Resources") w)
                     ∧ ∀ k, is_Some (fs w !! k) → is_Some (fs w2 !! k))
                    ∧ ∀ d, d ∈ dylibs →
                        has_rpath d (U "@loader_path/../..") w
                        ∧ has_rpath d (U "@executable_path/../Frameworks") w)
              _ w3); [|exact H3]| |done].
  { apply rstable_and; [|apply rstable_has_all].
    apply rstable_and; [apply rstable_and; apply rstable_has|apply rstable_dom_sub]. }
  intros [] w4 [[[[Hp1 Hp2] Hdom] Hdy] Hfw] p r Hpair Hsome.
  destruct Hpair as [[-> [->| ->]]|[[Hb Hr]|(name & Hn & -> & ->)]]; try done.
  - assert (Hin : p ∈ dylibs).
    { apply list_elem_of_In, filter_In. split; [|done].
      apply list_elem_of_In, elem_of_elements, elem_of_dom. by apply Hdom. }
    destruct (Hdy p Hin). by destruct Hr as [-> | ->].
  - destruct (Hfw name Hn) as [Hnone|?]; [|done].
    rewrite Hnone in Hsome. by destruct Hsome.
Qed.

(** X4: after a run that ends normally, [otool -l] shows each search path the
    script wants, for every binary it wants it for that exists: the plugin
    binary, the dylibs below [Frameworks/plugins], the framework binaries.
    And every [install_name_tool -add_rpath] of a run was made on a Mach-O
    file that did not have that path: the script never adds a duplicate. *)
Theorem search_paths_shown (fuel : nat) (a : args) (fs0 : gmap str node) :
  (∀ w', bundle_run fuel a fs0 = (Ok tt, w') →
         ∀ p r, rpath_pair a p r → is_Some (fs w' !! p) → has_rpath p r w')
  ∧ (∀ pre r p post,
       log (bundle_run fuel a fs0).2 = pre ++ ERun (Int_add_rpath r p) :: post →
       ∃ m, replay pre fs0 !! p = Some (Bin m)
            ∧ shows_rpath p m r = false ∧ r ∉ rpaths m).
Proof.
  split.
  - intros w' H. unfold bundle_run, bundle in H.
    apply bind_ok_inv in H as (bins & w1 & Hg & Hf). unfold finish in Hf.
    apply bind_ok_inv in Hf as ([] & w2 & Hfix & Hrest).
    apply bind_ok_inv in Hrest as ([] & w3 & Hremap & Hadd).
    exact (wp_run _ _ _ _ _ _ Hadd (add_rpaths_spec a w3)).
  - intros pre r p post E. destruct (bundle_log a fs0 fuel) as [_ Hall].
    destruct (Hall pre _ post E) as (_ & m & Hm & Hs). simpl in Hm.
    exists m. split; [done|]. split; [done|].
    intros Hin. apply (otool_l_text_rpath p) in Hin. unfold shows_rpath in Hs.
    congruence.
Qed.

Lemma search_paths_shown_witness :
  has_rpath (plugin_bin demo_args) (U "@loader_path/Frameworks") demo_final.
Proof.
  destruct (search_paths_shown 20 demo_args demo_fs) as [H _].
  apply H.
  - apply run_ok_pair. vm_compute. reflexivity.
  - left. split; [reflexivity|left; reflexivity].
  - unfold is_Some. vm_compute. eexists. reflexivity.
Defined.

(** ** [framework_name] *)

Lemma split_on_no_sep (sep : N) (s : str) : sep ∉ s → split_on sep s = [s].
Proof.
  induction s as [|c s IH]; simpl; intros H; [done|].
  apply not_elem_of_cons in H as [Hc Hs].
  destruct (N.eqb_spec c sep); [congruence|]. by rewrite IH.
Qed.

Lemma split_on_app_sep (sep : N) (h t : str) :
  sep ∉ h → split_on sep (h ++ sep :: t) = h :: split_on sep t.
Proof.
  induction h as [|c h IH]; simpl; intros H.
  - by rewrite N.eqb_refl.
  - apply not_elem_of_cons in H as [Hc Hh].
    destruct (N.eqb_spec c sep); [congruence|]. by rewrite IH.
Qed.

(** A string is one component, or a first component, a separator and the
    rest. *)
Lemma sep_cases (sep : N) (s : str) :
  sep ∉ s ∨ ∃ h t, s = h ++ sep :: t ∧ sep ∉ h.
Proof.
  destruct (before_cases sep s) as [E|[rest E]].
  - left. rewrite E. apply before_not_in.
  - right. exists (before sep s), rest. split; [done|apply before_not_in].
Qed.

Lemma removesuffix_app (suf t : str) : removesuffix suf (t ++ suf) = t.
Proof.
  unfold removesuffix. rewrite endswith_app, length_app.
  replace (length t + length suf - length suf)%nat with (length t) by lia.
  by rewrite take_app_length.
Qed.

Lemma framework_no_slash : 47 ∉ U ".framework".
Proof.
  intros H. repeat (apply elem_of_cons in H as [H|H]; [done|]).
  by apply elem_of_nil in H.
Qed.

Lemma framework_name_no_slash (dep : str) :
  47 ∉ dep →
  framework_name dep
  = if endswith (U ".framework") dep then Some (removesuffix (U ".framework") dep)
    else None.
Proof.
  intros H. unfold framework_name. rewrite split_on_no_sep by done. simpl.
  by destruct (endswith _ dep).
Qed.

Lemma framework_name_step (h t : str) :
  47 ∉ h →
  framework_name (h ++ 47 :: t)
  = if endswith (U ".framework") h then Some (removesuffix (U ".framework") h)
    else framework_name t.
Proof.
  intros H. unfold framework_name. rewrite split_on_app_sep by done. done.
Qed.

Lemma not_elem_of_app_l {A} (x : A) (l1 l2 : list A) : x ∉ l1 ++ l2 → x ∉ l1.
Proof. intros H Hx. apply H, elem_of_app. by left. Qed.

(** Where [".framework/"] occurs in [h ++ "/" ++ t] when [h] is one
    component that does not end in [".framework"]: in [t]. *)
Lemma framework_slash_later (h t : str) :
  47 ∉ h → endswith (U ".framework") h = false →
  contains (U ".framework/") (h ++ 47 :: t) = true →
  contains (U ".framework/") t = true.
Proof.
  intros Hh He Hc. apply contains_inv in Hc as (x & y & E).
  change (U ".framework/" ++ y) with (U ".framework" ++ 47 :: y) in E.
  destruct (sep_cases 47 x) as [Hx|(x1 & x2 & -> & Hx1)].
  - assert (E' : before 47 (h ++ 47 :: t) = before 47 ((x ++ U ".framework") ++ 47 :: y)).
    { by rewrite E, <- app_assoc. }
    rewrite (before_app_sep 47 h t Hh) in E'.
    rewrite before_app_sep in E'.
    + subst h. by rewrite endswith_app in He.
    + intros H. apply elem_of_app in H as [H|H]; [done|by apply framework_no_slash].
  - rewrite <- app_assoc in E. cbn [app] in E.
    assert (E' : before 47 (h ++ 47 :: t) = before 47 (x1 ++ 47 :: x2 ++ U ".framework" ++ 47 :: y))
      by (by rewrite E).
    rewrite (before_app_sep 47 h t Hh), (before_app_sep 47 x1 _ Hx1) in E'. subst x1.
    apply app_inv_head in E. injection E as ->.
    apply contains_iff. by exists x2, y.
Qed.

Lemma framework_name_found_len (n : nat) (dep : str) :
  (length dep < n)%nat →
  contains (U ".framework/") dep = true →
  ∃ name pre post,
    framework_name dep = Some name ∧ (47 ∉ name) ∧
    dep = pre ++ name ++ U ".framework/" ++ post ∧
    (pre = [] ∨ ∃ pre', pre = pre' ++ [47]).
Proof.
  revert dep. induction n as [|n IH]; intros dep Hlen Hc; [lia|].
  destruct (sep_cases 47 dep) as [Hno|(h & t & -> & Hh)].
  - apply contains_inv in Hc as (x & y & ->). exfalso. apply Hno.
    apply elem_of_app. right. apply elem_of_app. left.
    apply list_elem_of_In. vm_compute. tauto.
  - rewrite framework_name_step by done.
    destruct (endswith (U ".framework") h) eqn:He.
    + apply endswith_inv in He as [name ->].
      exists name, [], t. rewrite removesuffix_app. split; [done|].
      split; [by apply not_elem_of_app_l in Hh|]. split; [|by left].
      cbn [app]. rewrite <- !app_assoc. done.
    + apply framework_slash_later in Hc; [|done|done].
      destruct (IH t) as (name & pre & post & E & Hn & -> & Hpre); [|done|].
      { rewrite length_app in Hlen. simpl in Hlen. lia. }
      exists name, (h ++ 47 :: pre), post. split; [done|]. split; [done|].
      split; [by rewrite <- app_assoc|]. right.
      destruct Hpre as [->|[pre' ->]].
      * exists h. done.
      * exists (h ++ 47 :: pre'). by rewrite <- app_assoc.
Qed.

(** X5: when [".framework/"] occurs in a dependency, [framework_name] finds
    a name: that of the first path component ending in [".framework"], which
    is a whole component (it follows a slash or starts the path, and has no
    slash) and is followed by a slash.  So the test [if name:] of the remap
    loop fails only for a component that is exactly [".framework"]. *)
Theorem framework_name_found (dep : str) :
  contains (U ".framework/") dep = true →
  ∃ name pre post,
    framework_name dep = Some name ∧ (47 ∉ name) ∧
    dep = pre ++ name ++ U ".framework/" ++ post ∧
    (pre = [] ∨ ∃ pre', pre = pre' ++ [47]).
Proof. apply (framework_name_found_len (S (length dep))). lia. Qed.

Lemma framework_name_found_witness :
  ∃ name pre post,
    framework_name (U "/opt/local/libexec/qt5/lib/QtGui.framework/Versions/5/QtGui")
    = Some name ∧ (47 ∉ name) ∧
    U "/opt/local/libexec/qt5/lib/QtGui.framework/Versions/5/QtGui"
    = pre ++ name ++ U ".framework/" ++ post ∧
    (pre = [] ∨ ∃ pre', pre = pre' ++ [47]).
Proof. apply framework_name_found. reflexivity. Defined.

Lemma framework_name_pjoin (p s : str) :
  framework_name p = None → framework_name (p // s) = framework_name s.
Proof.
  unfold pjoin. remember (S (length p)) as n eqn:Hn.
  assert (Hlen : (length p < n)%nat) by lia. clear Hn.
  revert p Hlen. induction n as [|n IH]; intros p Hlen Hp; [lia|].
  destruct (sep_cases 47 p) as [Hno|(h & t & -> & Hh)].
  - rewrite framework_name_no_slash in Hp by done.
    rewrite framework_name_step by done.
    by destruct (endswith _ p).
  - rewrite framework_name_step in Hp by done.
    rewrite <- app_assoc. cbn [app]. rewrite framework_name_step by done.
    destruct (endswith _ h); [done|]. apply IH; [|done].
    rewrite length_app in Hlen. simpl in Hlen. lia.
Qed.

(** X6: [framework_name] reads back the name the script writes: from the
    path of a framework binary below a directory none of whose components
    ends in [".framework"], and from the [@rpath] name that the script gives
    to a framework binary. *)
Theorem framework_name_of_binary (p name : str) :
  47 ∉ name → framework_name p = None →
  framework_name (p // (name ++ U ".framework/Versions/5/" ++ name)) = Some name
  ∧ framework_name (fw_ref name) = Some name.
Proof.
  intros Hn Hp.
  assert (E : ∀ t, framework_name (name ++ U ".framework/" ++ t) = Some name).
  { intros t. change (U ".framework/" ++ t) with (U ".framework" ++ 47 :: t).
    rewrite app_assoc, framework_name_step.
    - by rewrite endswith_app, removesuffix_app.
    - intros H. apply elem_of_app in H as [H|H]; [done|by apply framework_no_slash]. }
  split.
  - rewrite framework_name_pjoin by done. apply (E (U "Versions/5/" ++ name)).
  - unfold fw_ref. change (U "@rpath/" ++ ?t) with (U "@rpath" // t).
    rewrite framework_name_pjoin by reflexivity. apply (E (U "Versions/5/" ++ name)).
Qed.

Lemma framework_name_of_binary_witness :
  framework_name (U "/opt/local/libexec/qt5/lib"
                  // (U "QtCore" ++ U ".framework/Versions/5/" ++ U "QtCore"))
  = Some (U "QtCore")
  ∧ framework_name (fw_ref (U "QtCore")) = Some (U "QtCore").
Proof.
  apply framework_name_of_binary.
  - apply (bool_decide_unpack _). vm_compute. exact I.
  - reflexivity.
Defined.

(** ** Reading the output of [otool -L] *)

Lemma linebreak_space (c : N) : is_linebreak c = true → is_space c = true.
Proof.
  unfold is_linebreak, is_space.
  rewrite !orb_true_iff, !andb_true_iff, !N.leb_le, !N.eqb_eq. lia.
Qed.

Lemma splitlines_line (line rest : str) :
  one_line line = true → splitlines (line ++ 10 :: rest) = line :: splitlines rest.
Proof.
  induction line as [|c line IH]; intros H.
  - reflexivity.
  - cbn [one_line forallb] in H. apply andb_true_iff in H as [Hc H].
    apply negb_true_iff in Hc. cbn [app splitlines]. rewrite Hc.
    fold (one_line line) in H. by rewrite IH.
Qed.

Lemma one_line_app (s t : str) :
  one_line (s ++ t) = one_line s && one_line t.
Proof. apply forallb_app. Qed.

Lemma plain_name_one_line (s : str) : plain_name s = true → one_line s = true.
Proof.
  destruct s as [|c0 s0]; [done|]. unfold plain_name, one_line.
  generalize (c0 :: s0). intros s H.
  rewrite forallb_forall in *. intros c Hc. specialize (H c Hc).
  apply negb_true_iff in H. apply negb_true_iff.
  destruct (is_linebreak c) eqn:E; [|done].
  apply linebreak_space in E. congruence.
Qed.

Lemma plain_name_no_space (s : str) : plain_name s = true → 32 ∉ s.
Proof.
  destruct s as [|c0 s0]; [done|]. unfold plain_name.
  generalize (c0 :: s0). intros s H Hin.
  rewrite forallb_forall in H. apply list_elem_of_In in Hin.
  specialize (H _ Hin). done.
Qed.

Lemma rstrip_snoc (s : str) (c : N) :
  is_space c = false → rstrip (s ++ [c]) = s ++ [c].
Proof.
  intros Hc. unfold rstrip. rewrite rev_app_distr. cbn [rev app lstrip].
  rewrite Hc. change (c :: rev s) with (rev [c] ++ rev s).
  by rewrite <- rev_app_distr, rev_involutive.
Qed.

(** The text after the name on a line of [otool -L]. *)
Lemma dylib_line_app (name rest : str) :
  dylib_line name ++ rest
  = (9 :: name ++ 32 :: U "(compatibility version 1.0.0, current version 1.0.0" ++ [41])
    ++ 10 :: rest.
Proof.
  unfold dylib_line.
  replace (U " (compatibility version 1.0.0, current version 1.0.0)")
    with (32 :: U "(compatibility version 1.0.0, current version 1.0.0" ++ [41])
    by reflexivity.
  generalize (U "(compatibility version 1.0.0, current version 1.0.0"). intros t.
  cbn [app]. f_equal. rewrite <- !app_assoc. cbn [app]. by rewrite <- !app_assoc.
Qed.

Lemma dep_of_dylib_line (name : str) :
  plain_name name = true →
  dep_of_line (9 :: name ++ 32 :: U "(compatibility version 1.0.0, current version 1.0.0" ++ [41])
  = name.
Proof.
  intros Hn. rewrite dep_of_line_before. unfold strip.
  set (t := U "(compatibility version 1.0.0, current version 1.0.0").
  replace (9 :: name ++ 32 :: t ++ [41]) with ((9 :: name ++ 32 :: t) ++ [41])
    by (cbn [app]; by rewrite <- app_assoc).
  rewrite rstrip_snoc by reflexivity. cbn [app lstrip].
  change (is_space 9) with true. cbn iota.
  destruct name as [|c name]; [done|]. cbn [app lstrip].
  assert (Hc : is_space c = false).
  { cbn [plain_name forallb] in Hn. apply andb_true_iff in Hn as [Hn _].
    by apply negb_true_iff in Hn. }
  rewrite Hc, <- app_assoc. cbn [app].
  apply (before_app_sep 32 (c :: name) (t ++ [41])). by apply plain_name_no_space.
Qed.

Lemma one_line_dylib_line (name : str) :
  plain_name name = true →
  one_line (9 :: name ++ 32 :: U "(compatibility version 1.0.0, current version 1.0.0" ++ [41])
  = true.
Proof.
  intros Hn. change (9 :: ?s) with ([9] ++ s).
  change (32 :: ?s) with ([32] ++ s).
  rewrite !one_line_app, (plain_name_one_line _ Hn). reflexivity.
Qed.

Lemma otool_deps_lines (names : list str) :
  Forall (λ n, plain_name n = true) names →
  map dep_of_line (splitlines (concat (dylib_line <$> names))) = names.
Proof.
  induction 1 as [|n names Hn _ IH]; [done|].
  cbn [fmap list_fmap concat]. rewrite dylib_line_app.
  rewrite splitlines_line by by apply one_line_dylib_line.
  cbn [map]. rewrite dep_of_dylib_line by done. by rewrite IH.
Qed.

Lemma otool_deps_text_names (p : str) (m : macho) :
  one_line p = true →
  Forall (λ n, plain_name n = true) (listed_names m) →
  otool_deps_text (otool_L_text p m) = listed_names m.
Proof.
  intros Hp Hm. rewrite otool_deps_text_map. unfold otool_L_text.
  rewrite app_assoc. cbn [app].
  rewrite splitlines_line.
  - cbn [drop]. by apply otool_deps_lines.
  - rewrite one_line_app, Hp. reflexivity.
Qed.

(** X7: on a Mach-O file whose path has no line boundary and whose names
    are not empty and have no white space, [otool_deps] returns the install
    name (if the file is a library) followed by the dependencies, exactly and
    in order; it changes no file and logs the one [otool -L] call. *)
Theorem otool_deps_reads_names (p : str) (m : macho) (w : world) :
  fs w !! p = Some (Bin m) →
  one_line p = true →
  Forall (λ n, plain_name n = true) (listed_names m) →
  otool_deps p w
  = (Ok (listed_names m), World (fs w) (log w ++ [ERun (Otool_L p)])).
Proof.
  intros Hf Hp Hm. unfold otool_deps, check_output, bind, read, emit, ret.
  cbn [fs log]. rewrite exec_lookup. cbn [command_path tool_effect]. rewrite Hf.
  cbn [command_output]. rewrite otool_deps_text_names by done.
  f_equal. f_equal. rewrite apply_otool_L. done.
Qed.

Lemma otool_deps_reads_names_witness :
  otool_deps (U "/opt/local/lib/liby.dylib") (World demo_fs [])
  = (Ok [U "/opt/local/lib/liby.dylib"; U "/opt/local/lib/a/libx.dylib"],
     World demo_fs [ERun (Otool_L (U "/opt/local/lib/liby.dylib"))]).
Proof.
  apply (otool_deps_reads_names (U "/opt/local/lib/liby.dylib")
           (MachO (Some (U "/opt/local/lib/liby.dylib"))
                  [U "/opt/local/lib/a/libx.dylib"] [])
           (World demo_fs [])).
  - vm_compute. reflexivity.
  - reflexivity.
  - repeat constructor.
Defined.

(** ** The parts of a run *)

Lemma gather_parts fuel a :
  gather fuel a
  = (check_args a ;; make_dirs a ;; copy_qt_frameworks a ;; copy_qt_plugins a ;;
     write_qt_conf a ;; gather_libs fuel a).
Proof. reflexivity. Qed.

Lemma walk_dep_eq a dep st :
  walk_dep a dep st
  = if walk_filter a dep then
      d <- path_exists (lib_dir a // path_name dep) ;;
      if negb d then
        copy2 dep (lib_dir a // path_name dep) ;;
        ret (st.1 ++ [lib_dir a // path_name dep],
             st.2 ∪ {[lib_dir a // path_name dep]})
      else ret st
    else ret st.
Proof.
  unfold walk_dep, walk_filter.
  destruct (startswith (U "@") dep); [done|].
  destruct (startswith (gimp_app a) dep); [done|].
  destruct (_ || _); [done|]. cbn [negb andb].
  by destruct (_ && _).
Qed.

(** The effects of lines 133-218: tools run, and files are copied into
    [Frameworks/lib] from the explicit libraries and from the dependencies
    that pass the test of the walk. *)
Section late.
Context (a : args) (I : world → Prop).
Hypothesis Hrun : ∀ cmd, stable I (ERun cmd).
Hypothesis Hcopy : ∀ w src n,
    I w → src ∈ explicit_libs a ∨ walk_filter a src = true →
    fs w !! (lib_dir a // path_name src) = None →
    fs w !! src = Some n → n ≠ Dir →
    I (after (ECopy2 src (lib_dir a // path_name src)) w).

Lemma keeps_late_explicit : keeps I raised (copy_explicit_libs a).
Proof.
apply keeps_for_each. intros src Hsrc w HI.
unfold copy_explicit_lib, path_exists, copy2.
wp_go; try done; try (split; [done|by eexists]).
- eapply Hcopy; eauto.
- eapply Hcopy; eauto.
Qed.

Lemma keeps_late_walk_dep dep st : keeps I raised (walk_dep a dep st).
Proof.
intros w HI. rewrite walk_dep_eq.
destruct (walk_filter a dep) eqn:Ef; [|by rewrite wp_ret].
unfold path_exists, copy2.
wp_go; try done; try (split; [done|by eexists]).
- eapply Hcopy; eauto.
- eapply Hcopy; eauto.
Qed.

Lemma keeps_late_walk fuel queue seen :
  keeps I raised_or_fuel (walk fuel a queue seen).
Proof.
revert queue seen. induction fuel as [|fuel IH]; intros [|item queue] seen;
  simpl; try apply keeps_ret.
- apply keeps_out_of_fuel. by left.
- apply keeps_bind.
  { eapply keeps_mono; [apply keeps_otool_deps, Hrun|]. by right. }
  intros ds. apply keeps_bind; [|intros st; apply IH].
  apply keeps_fold_m. intros dep st _.
  eapply keeps_mono; [apply keeps_late_walk_dep|]. by right.
Qed.

Lemma keeps_gather_libs fuel : keeps I raised_or_fuel (gather_libs fuel a).
Proof.
unfold gather_libs. apply keeps_bind.
{ eapply keeps_mono; [unfold collect_binaries; keeps_auto|]. by right. }
intros binaries. apply keeps_bind.
{ eapply keeps_mono; [apply keeps_late_explicit|]. by right. }
intros _. apply keeps_bind; [apply keeps_late_walk|].
intros _. eapply keeps_mono; [unfold add_copied; keeps_auto|]. by right.
Qed.

Lemma keeps_late_finish binaries : keeps I raised (finish a binaries).
Proof. apply keeps_finish; intros; by apply Hrun. Qed.
End late.

(** ** [qt.conf] *)

Lemma lib_not_qt_conf a n : lib_dir a // n ≠ bundle_dir a // U "qt.conf".
Proof.
  unfold lib_dir, frameworks_dir, pjoin. intros E.
  rewrite <- !app_assoc in E. apply app_inv_head in E. discriminate.
Qed.

Lemma data_run_stable p t cmd : stable (λ w, fs w !! p = Some (Data t)) (ERun cmd).
Proof.
  intros w H. unfold after. cbn [fs]. rewrite apply_run_lookup.
  destruct (decide _); by rewrite H.
Qed.

(** X8: after a run that ends normally, [bundle_dir/qt.conf] is a text file
    with exactly the two lines the script writes: nothing the script does
    later (copies into [Frameworks/lib], the tools) touches it. *)
Theorem qt_conf_written (fuel : nat) (a : args) (fs0 : gmap str node) (w' : world) :
  bundle_run fuel a fs0 = (Ok tt, w') →
  fs w' !! (bundle_dir a // U "qt.conf") = Some (Data qt_conf_text).
Proof.
  intros H. unfold bundle_run, bundle in H.
  apply bind_ok_inv in H as (bins & w1 & Hg & Hf). rewrite gather_parts in Hg.
  apply bind_ok_inv in Hg as ([] & wa & _ & Hg).
  apply bind_ok_inv in Hg as ([] & wb & _ & Hg).
  apply bind_ok_inv in Hg as ([] & wc & _ & Hg).
  apply bind_ok_inv in Hg as ([] & wd & _ & Hg).
  apply bind_ok_inv in Hg as ([] & we & Hw & Hg).
  set (I := λ w : world, fs w !! (bundle_dir a // U "qt.conf") = Some (Data qt_conf_text)).
  assert (Hrun : ∀ cmd, stable I (ERun cmd)) by (intros; apply data_run_stable).
  assert (He : I we).
  { unfold write_qt_conf, write_text, bind, read in Hw.
    destruct (fs wd !! _) as [[| |]|]; try done;
      injection Hw as <-; unfold I; cbn [fs apply_event];
      apply lookup_insert_eq. }
  assert (H1 : I w1).
  { refine (proj1 (keeps_run _ _ _ _ _ _ (keeps_gather_libs a I Hrun _ fuel) He Hg)).
    intros w src n Hw0 _ Hd Hs Hn. unfold I, after. cbn [fs apply_event].
    unfold copy2_fs. rewrite Hs, lookup_insert_ne; [done|apply lib_not_qt_conf]. }
  exact (proj1 (keeps_run _ _ _ _ _ _ (keeps_late_finish a I Hrun bins) H1 Hf)).
Qed.

Lemma qt_conf_written_witness :
  fs demo_final !! (bundle_dir demo_args // U "qt.conf") = Some (Data qt_conf_text).
Proof.
  apply (qt_conf_written 20 demo_args demo_fs). apply run_ok_pair.
  vm_compute. reflexivity.
Defined.

(** ** What is copied *)

Lemma in_log_after (P : event → Prop) (e : event) w :
  (∀ e', e' ∈ log w → P e') → P e → ∀ e', e' ∈ log (after e w) → P e'.
Proof.
  intros H He e' Hin. unfold after in Hin. cbn [log] in Hin.
  apply elem_of_app in Hin as [Hin|Hin]; [by apply H|].
  by apply list_elem_of_singleton in Hin as ->.
Qed.

(** X9: whatever the outcome of a run, every file copied with
    [shutil.copy2] is one of the seven explicit libraries or a dependency that
    passed the test of the walk: it does not start with ["@"], with the GIMP
    path, with ["/System"] or ["/usr/lib"], it starts with the MacPorts prefix
    and it ends in [".dylib"]. *)
Theorem copies_pass_filter (fuel : nat) (a : args) (fs0 : gmap str node)
    (src dst : str) :
  ECopy2 src dst ∈ log (bundle_run fuel a fs0).2 →
  src ∈ explicit_libs a ∨ walk_filter a src = true.
Proof.
  set (P := λ e, match e with
                 | ECopy2 s _ => s ∈ explicit_libs a ∨ walk_filter a s = true
                 | _ => True
                 end).
  set (I := λ w : world, ∀ e, e ∈ log w → P e).
  assert (Hst : ∀ e, P e → stable I e).
  { intros e He w Hw. exact (in_log_after P e w Hw He). }
  assert (Hearly : ∀ e, early_event a e → stable I e).
  { intros e He. apply Hst. by destruct e. }
  assert (Hrun : ∀ cmd, stable I (ERun cmd)) by (intros; by apply Hst).
  assert (Hcopy : ∀ w s n,
             I w → s ∈ explicit_libs a ∨ walk_filter a s = true →
             fs w !! (lib_dir a // path_name s) = None →
             fs w !! s = Some n → n ≠ Dir →
             I (after (ECopy2 s (lib_dir a // path_name s)) w)).
  { intros w s n Hw Hs _ _ _. by apply Hst. }
  assert (Hk : keeps I (λ _, True) (bundle fuel a)).
  { unfold bundle. rewrite gather_parts.
    apply keeps_bind;
      [|intros bins; eapply keeps_mono; [by apply keeps_late_finish|done]].
    apply keeps_bind; [|intros _].
    { eapply keeps_mono; [by apply keeps_check_args|done]. }
    apply keeps_bind; [|intros _].
    { eapply keeps_mono; [by apply keeps_make_dirs|done]. }
    apply keeps_bind; [|intros _].
    { eapply keeps_mono; [by apply keeps_copy_qt_frameworks|done]. }
    apply keeps_bind; [|intros _].
    { eapply keeps_mono; [by apply keeps_copy_qt_plugins|done]. }
    apply keeps_bind; [|intros _].
    { eapply keeps_mono; [apply keeps_write_text; by apply Hst|done]. }
    eapply keeps_mono; [by apply keeps_gather_libs|done]. }
  intros Hin. unfold bundle_run in Hin.
  destruct (bundle fuel a (World fs0 [])) as [r w'] eqn:E.
  assert (H0 : I (World fs0 [])).
  { intros e He. by apply elem_of_nil in He. }
  exact (proj1 (keeps_run _ _ _ _ _ _ Hk H0 E) _ Hin).
Qed.

Lemma copies_pass_filter_witness :
  U "/opt/local/lib/a/libx.dylib" ∈ explicit_libs demo_args
  ∨ walk_filter demo_args (U "/opt/local/lib/a/libx.dylib") = true.
Proof.
  apply (copies_pass_filter 20 demo_args demo_fs _
           (U "/build/gmic_gimp_qt/Frameworks/lib/libx.dylib")).
  apply list_elem_of_In. vm_compute. tauto.
Defined.

(** ** The walk ends *)

Lemma size_list_to_set_le (l : list str) :
  (size (list_to_set l : gset str) ≤ length l)%nat.
Proof.
  unfold size, set_size. simpl. apply submseteq_length, NoDup_submseteq.
  - apply NoDup_elements.
  - intros x Hx. by apply elem_of_elements, elem_of_list_to_set in Hx.
Qed.

Lemma size_lib_places a f : (size (lib_places a f) ≤ size (dom f))%nat.
Proof.
  unfold lib_places, set_map. etrans; [apply size_list_to_set_le|].
  by rewrite length_fmap.
Qed.

(** [otool_deps] changes no file. *)
Lemma otool_deps_fs p w :
  wp (otool_deps p) (λ ds w1, fs w1 = fs w ∧
                              ∃ m, fs w !! p = Some (Bin m)
                                   ∧ ds = otool_deps_text (otool_L_text p m))
     (λ x w1, fs w1 = fs w ∧ raised x) w.
Proof.
  unfold otool_deps, check_output. wp_simp. cbn [fs log].
  rewrite apply_otool_L, exec_lookup. cbn [command_path tool_effect].
  destruct (fs w !! p) as [[|m|]|] eqn:E; wp_simp;
    try (split; [done|by eexists]).
Qed.

(** What [walk_dep] does: nothing, or one copy to a place that was free. *)
Lemma walk_dep_cases a dep st w :
  wp (walk_dep a dep st)
     (λ st' w',
        (st' = st ∧ w' = w ∧
         (walk_filter a dep = true → is_Some (fs w !! (lib_dir a // path_name dep))))
        ∨ (∃ n, walk_filter a dep = true ∧
                fs w !! (lib_dir a // path_name dep) = None ∧
                fs w !! dep = Some n ∧
                st' = (st.1 ++ [lib_dir a // path_name dep],
                       st.2 ∪ {[lib_dir a // path_name dep]}) ∧
                w' = after (ECopy2 dep (lib_dir a // path_name dep)) w ∧
                fs w' = <[lib_dir a // path_name dep := n]> (fs w)))
     (λ x w', fs w' = fs w ∧ raised x) w.
Proof.
  rewrite walk_dep_eq. destruct (walk_filter a dep) eqn:Ef.
  - unfold path_exists, copy2. wp_simp.
    destruct (fs w !! (lib_dir a // path_name dep)) as [d|] eqn:Ed; cbn [negb].
    + wp_simp. left. split; [done|]. split; [done|]. by eexists.
    + wp_simp. destruct (fs w !! dep) as [[|m|t]|] eqn:Es; wp_simp;
        try (split; [done|by eexists]).
      * right. exists (Bin m). unfold after. cbn [fs log apply_event].
        unfold copy2_fs. by rewrite Es.
      * right. exists (Data t). unfold after. cbn [fs log apply_event].
        unfold copy2_fs. by rewrite Es.
  - rewrite wp_ret. left. split; [done|]. split; [done|]. done.
Qed.

Section walk_measure.
Context (a : args) (C : gset str).

(** Every file has its place in [C]; [n] bounds the queue and the places
    still free. *)
Let fits (n : nat) (queue : list str) (w : world) : Prop :=
  (∀ k, k ∈ dom (fs w) → lib_dir a // path_name k ∈ C)
  ∧ (length queue + size (C ∖ dom (fs w)) ≤ n)%nat.

Lemma fits_walk_dep n dep st w :
  fits n st.1 w →
  wp (walk_dep a dep st) (λ st' w', fits n st'.1 w') (λ x _, x ≠ OutOfFuel) w.
Proof.
intros [Hc Hn]. eapply wp_mono; [apply walk_dep_cases| |].
- intros st' w' [(-> & -> & _)|(nd & _ & Hd & Hs & -> & _ & Hfs)]; [done|].
  assert (Hin : lib_dir a // path_name dep ∈ C).
  { apply Hc, elem_of_dom. by eexists. }
  assert (Hnot : lib_dir a // path_name dep ∉ dom (fs w)).
  { by apply not_elem_of_dom. }
  split.
  + intros k Hk. rewrite Hfs, dom_insert_L in Hk.
    apply elem_of_union in Hk as [Hk|Hk]; [|by apply Hc].
    apply elem_of_singleton in Hk as ->. by rewrite path_name_idem.
  + cbn [fst]. rewrite length_app, Hfs, dom_insert_L. cbn [length].
    assert (H : (size (C ∖ ({[lib_dir a // path_name dep]} ∪ dom (fs w)))
                 < size (C ∖ dom (fs w)))%nat).
    { apply subset_size. split.
      - intros x Hx. apply elem_of_difference in Hx as [Hx1 Hx2].
        apply elem_of_difference. split; [done|]. intros Hx. apply Hx2.
        apply elem_of_union. by right.
      - intros Hsub.
        assert (Hd' : lib_dir a // path_name dep ∈ C ∖ dom (fs w))
          by by apply elem_of_difference.
        apply Hsub, elem_of_difference in Hd' as [_ Hd']. apply Hd'.
        apply elem_of_union. left. by apply elem_of_singleton. }
    lia.
- intros x w' [_ [e ->]]. done.
Qed.

Lemma walk_enough fuel queue seen w :
  fits fuel queue w →
  wp (walk fuel a queue seen) (λ _ _, True) (λ x _, x ≠ OutOfFuel) w.
Proof.
revert queue seen w. induction fuel as [|fuel IH]; intros [|item queue] seen w [Hc Hn];
  simpl; try (by rewrite wp_ret).
- simpl in Hn. lia.
- rewrite wp_bind. eapply wp_mono; [apply otool_deps_fs| |].
  + intros ds w1 [Hfs _]. cbn beta. rewrite wp_bind.
    eapply wp_mono.
    * apply (wp_fold_m (λ _ st w2, fits fuel st.1 w2) ds (walk_dep a) (queue, seen)
               (λ x _, x ≠ OutOfFuel)).
      -- split; rewrite Hfs; [done|]. simpl in *. lia.
      -- intros pre dep post st w2 _ Hfit. by apply fits_walk_dep.
    * intros st w2 Hfit. by apply IH.
    * done.
  + intros x w1 [_ [e ->]]. done.
Qed.
End walk_measure.

Lemma walk_enough_files a fuel queue seen w :
  (length queue + size (dom (fs w)) ≤ fuel)%nat →
  wp (walk fuel a queue seen) (λ _ _, True) (λ x _, x ≠ OutOfFuel) w.
Proof.
  intros H. apply (walk_enough a (lib_places a (fs w))). split.
  - intros k Hk. unfold lib_places. apply elem_of_map. by exists k.
  - pose proof (size_lib_places a (fs w)).
    assert (size (lib_places a (fs w) ∖ dom (fs w)) ≤ size (lib_places a (fs w)))%nat.
    { apply subseteq_size. intros x Hx. by apply elem_of_difference in Hx as [? _]. }
    lia.
Qed.

(** X10: the walk ends.  Each copy fills a place of [Frameworks/lib] that
    was free and that belongs to a file already there, so the loop body runs
    at most as many times as the queue is long plus the number of files:
    with that much fuel the model of the [while] loop never runs out. *)
Theorem walk_fuel_bound (a : args) (fuel : nat) (queue : list str)
    (seen : gset str) (w : world) :
  (length queue + size (dom (fs w)) ≤ fuel)%nat →
  (walk fuel a queue seen w).1 ≠ Abort OutOfFuel.
Proof.
  intros H. pose proof (walk_enough_files a fuel queue seen w H) as Hw.
  unfold wp in Hw. destruct (walk fuel a queue seen w) as [[[]|x] w']; simpl.
  - done.
  - congruence.
Qed.

Lemma walk_fuel_bound_witness :
  (walk 40 demo_args [plugin_bin demo_args] {[plugin_bin demo_args]}
        (World demo_fs [])).1 ≠ Abort OutOfFuel.
Proof.
  apply walk_fuel_bound. vm_compute. lia.
Defined.

(** More fuel does not change a walk that ended. *)
Lemma walk_more_fuel a fuel k queue seen w :
  (walk fuel a queue seen w).1 ≠ Abort OutOfFuel →
  walk (fuel + k) a queue seen w = walk fuel a queue seen w.
Proof.
  revert queue seen w. induction fuel as [|fuel IH]; intros [|item queue] seen w H;
    simpl in *; try done.
  - destruct k; done.
  - unfold bind in *. destruct (otool_deps item w) as [[ds|x] w1]; [|done].
    destruct (fold_m ds (walk_dep a) (queue, seen) w1) as [[st|x] w2]; [|done].
    by apply IH.
Qed.

Lemma not_fuel_status1 x : status1 x → x ≠ OutOfFuel.
Proof. by intros H ->. Qed.

Lemma not_fuel_raised x : raised x → x ≠ OutOfFuel.
Proof. by intros [e ->]. Qed.

Lemma true_stable (e : event) : stable (λ _, True) e.
Proof. done. Qed.

(** The parts of [bundle] without a loop bound never end with [OutOfFuel]. *)
Lemma no_fuel_run {A B : Type} (X : abort → Prop) (m : M A) w x w' :
  keeps (λ _, True) X m → (∀ x, X x → x ≠ OutOfFuel) →
  m w = (Abort x, w') → @Abort B x ≠ Abort OutOfFuel.
Proof.
  intros Hk HX E [= ->]. apply (HX OutOfFuel); [|done].
  exact (proj2 (keeps_run _ _ _ _ _ _ Hk I E)).
Qed.

(** X11: every run of [bundle] ends: on every file system there is a loop
    bound from which on the run no longer depends on the bound and does not
    end for lack of it. *)
Theorem bundle_terminates (a : args) (fs0 : gmap str node) :
  ∃ n, ∀ k, bundle_run (n + k) a fs0 = bundle_run n a fs0
            ∧ (bundle_run n a fs0).1 ≠ Abort OutOfFuel.
Proof.
  unfold bundle_run, bundle. setoid_rewrite gather_parts. unfold gather_libs, bind.
  destruct (check_args a (World fs0 [])) as [[[]|x] w1] eqn:E1.
  2:{ exists 0%nat. intros k. split; [done|]. simpl.
      eapply (no_fuel_run status1); [|apply not_fuel_status1|exact E1].
      apply keeps_check_args. intros; apply true_stable. }
  destruct (make_dirs a w1) as [[[]|x] w2] eqn:E2.
  2:{ exists 0%nat. intros k. split; [done|]. simpl.
      eapply (no_fuel_run status1); [|apply not_fuel_status1|exact E2].
      apply keeps_make_dirs. intros; apply true_stable. }
  destruct (copy_qt_frameworks a w2) as [[[]|x] w3] eqn:E3.
  2:{ exists 0%nat. intros k. split; [done|]. simpl.
      eapply (no_fuel_run status1); [|apply not_fuel_status1|exact E3].
      apply keeps_copy_qt_frameworks. intros; apply true_stable. }
  destruct (copy_qt_plugins a w3) as [[[]|x] w4] eqn:E4.
  2:{ exists 0%nat. intros k. split; [done|]. simpl.
      eapply (no_fuel_run status1); [|apply not_fuel_status1|exact E4].
      apply keeps_copy_qt_plugins. intros; apply true_stable. }
  destruct (write_qt_conf a w4) as [[[]|x] w5] eqn:E5.
  2:{ exists 0%nat. intros k. split; [done|]. simpl.
      eapply (no_fuel_run raised); [|apply not_fuel_raised|exact E5].
      apply keeps_write_text. apply true_stable. }
  destruct (collect_binaries a w5) as [[bins|x] w6] eqn:E6.
  2:{ exists 0%nat. intros k. split; [done|]. simpl.
      eapply (no_fuel_run raised); [|apply not_fuel_raised|exact E6].
      unfold collect_binaries. keeps_auto. }
  destruct (copy_explicit_libs a w6) as [[[]|x] w7] eqn:E7.
  2:{ exists 0%nat. intros k. split; [done|]. simpl.
      eapply (no_fuel_run raised); [|apply not_fuel_raised|exact E7].
      apply keeps_late_explicit. done. }
  exists (length (elements bins) + size (dom (fs w7)))%nat. intros k.
  assert (Hw : (walk (length (elements bins) + size (dom (fs w7))) a
                     (elements bins) bins w7).1 ≠ Abort OutOfFuel).
  { pose proof (walk_enough_files a _ (elements bins) bins w7 (le_n _)) as Hw.
    unfold wp in Hw. destruct (walk _ a (elements bins) bins w7) as [[[]|x] w8]; simpl.
    - done.
    - congruence. }
  rewrite (walk_more_fuel a _ k _ _ _ Hw). split; [done|].
  destruct (walk _ a (elements bins) bins w7) as [[[]|x] w8] eqn:E8; [|done].
  destruct (add_copied a bins w8) as [[bins'|x] w9] eqn:E9.
  2:{ simpl. eapply (no_fuel_run raised); [|apply not_fuel_raised|exact E9].
      unfold add_copied. keeps_auto. }
  destruct (finish a bins' w9) as [[[]|x] w10] eqn:E10; [done|].
  simpl. eapply (no_fuel_run raised); [|apply not_fuel_raised|exact E10].
  apply keeps_late_finish. intros; apply true_stable.
Qed.

(** ** What the walk gathers *)

Section walk_closure.
Context (a : args).

Let place (dep : str) : str := lib_dir a // path_name dep.

Let gathered (queue : list str) (w w' : world) : Prop :=
  fs w ⊆ fs w'
  ∧ ∀ item dep,
      item ∈ queue ∨ (fs w !! item = None ∧ is_Some (fs w' !! item)) →
      needs a (fs w') item dep → is_Some (fs w' !! place dep).

Lemma walk_deps_gathered (queue : list str) (seen : gset str) (ds : list str) w1 :
  wp (fold_m ds (walk_dep a) (queue, seen))
     (λ st w2,
        fs w1 ⊆ fs w2
        ∧ (∀ k, fs w1 !! k = None → is_Some (fs w2 !! k) → k ∈ st.1)
        ∧ (∀ k, k ∈ queue → k ∈ st.1)
        ∧ (∀ dep, dep ∈ ds → walk_filter a dep = true →
                  is_Some (fs w2 !! place dep)))
     (λ _ _, True) w1.
Proof.
apply (wp_fold_m
         (λ pre st w2,
            fs w1 ⊆ fs w2
            ∧ (∀ k, fs w1 !! k = None → is_Some (fs w2 !! k) → k ∈ st.1)
            ∧ (∀ k, k ∈ queue → k ∈ st.1)
            ∧ (∀ dep, dep ∈ pre → walk_filter a dep = true →
                      is_Some (fs w2 !! place dep)))).
- split; [done|]. split; [|split; [done|]].
  + intros k Hk [n Hn]. congruence.
  + intros dep Hd. by apply elem_of_nil in Hd.
- intros pre dep post st w2 _ (Hsub & Hnew & Hq & Hpre).
  eapply wp_mono; [apply walk_dep_cases| |done].
  intros st' w' [(-> & -> & Hex)|(n & Hf & Hd & Hs & -> & _ & Hfs)].
  + split; [done|]. split; [done|]. split; [done|].
    intros d Hin Hfd. apply elem_of_app in Hin as [Hin|Hin]; [by apply Hpre|].
    apply list_elem_of_singleton in Hin as ->. by apply Hex.
  + assert (Hsub' : fs w2 ⊆ fs w').
    { rewrite Hfs. by apply insert_subseteq. }
    split; [by etrans|]. cbn [fst]. split; [|split].
    * intros k Hk Hk'. apply elem_of_app.
      destruct (decide (k = lib_dir a // path_name dep)) as [->|Hne].
      -- right. by apply list_elem_of_singleton.
      -- left. apply Hnew; [done|]. by rewrite Hfs, lookup_insert_ne in Hk'.
    * intros k Hk. apply elem_of_app. left. by apply Hq.
    * intros d Hin Hfd. apply elem_of_app in Hin as [Hin|Hin].
      -- destruct (Hpre d Hin Hfd) as [x Hx]. exists x.
         by eapply lookup_weaken.
      -- apply list_elem_of_singleton in Hin as ->. unfold place.
         rewrite Hfs, lookup_insert_eq. by eexists.
Qed.

Lemma walk_gathered fuel queue seen w :
  wp (walk fuel a queue seen) (λ _ w', gathered queue w w') (λ _ _, True) w.
Proof.
revert queue seen w. induction fuel as [|fuel IH]; intros [|item queue] seen w;
  simpl; try (by rewrite wp_out_of_fuel).
- rewrite wp_ret. split; [done|]. intros item dep [H|[H1 [x H2]]].
  + by apply elem_of_nil in H.
  + congruence.
- rewrite wp_ret. split; [done|]. intros item dep [H|[H1 [x H2]]].
  + by apply elem_of_nil in H.
  + congruence.
- rewrite wp_bind. eapply wp_mono; [apply otool_deps_fs| |done].
  intros ds w1 (Hfs & m & Hm & ->). cbn beta. rewrite wp_bind.
  eapply wp_mono; [apply walk_deps_gathered| |done].
  intros st w2 (Hsub & Hnew & Hq & Hds). cbn beta.
  eapply wp_mono; [apply IH| |done].
  intros [] w' [Hsub' Hrest]. rewrite Hfs in Hsub, Hnew.
  split; [by etrans|].
  intros it dep Hit Hneed.
  assert (Hcases : it = item ∨ it ∈ st.1
                   ∨ (fs w2 !! it = None ∧ is_Some (fs w' !! it))).
  { destruct Hit as [Hit|[Hno Hyes]].
    - apply elem_of_cons in Hit as [->|Hit]; [by left|]. right. left. by apply Hq.
    - right. destruct (fs w2 !! it) as [n|] eqn:E.
      + left. apply Hnew; [done|]. by eexists.
      + by right. }
  destruct Hcases as [->|Hcases].
  + destruct Hneed as (m' & Hm' & Hdep & Hf).
    assert (Hm2 : fs w' !! item = Some (Bin m)).
    { eapply lookup_weaken; [|exact Hsub']. by eapply lookup_weaken. }
    rewrite Hm2 in Hm'. injection Hm' as <-.
    destruct (Hds dep Hdep Hf) as [x Hx]. exists x. by eapply lookup_weaken.
  + by apply (Hrest it dep).
Qed.
End walk_closure.

(** X12: what the walk gathers.  When the walk ends normally it has removed
    or changed no file, and for every binary it started with and every file
    it added, each dependency that [otool_deps] reports and that passes the
    test of the walk has a file of its basename in [Frameworks/lib]. *)
Theorem walk_gathers (fuel : nat) (a : args) (queue : list str) (seen : gset str)
    (w w' : world) :
  walk fuel a queue seen w = (Ok tt, w') →
  fs w ⊆ fs w'
  ∧ ∀ item dep,
      item ∈ queue ∨ (fs w !! item = None ∧ is_Some (fs w' !! item)) →
      needs a (fs w') item dep →
      is_Some (fs w' !! (lib_dir a // path_name dep)).
Proof.
  intros H. exact (wp_run _ _ _ _ _ _ H (walk_gathered a fuel queue seen w)).
Qed.

Lemma walk_gathers_witness :
  fs (World demo_fs []) ⊆ fs demo_walk.2
  ∧ ∀ item dep,
      item ∈ [plugin_bin demo_args]
      ∨ (fs (World demo_fs []) !! item = None ∧ is_Some (fs demo_walk.2 !! item)) →
      needs demo_args (fs demo_walk.2) item dep →
      is_Some (fs demo_walk.2 !! (lib_dir demo_args // path_name dep)).
Proof.
  apply (walk_gathers 20 demo_args _ {[plugin_bin demo_args]}).
  apply (run_ok_pair demo_walk). vm_compute. reflexivity.
Defined.

(** ** The order of the walk *)

Lemma otool_items_app evs1 evs2 :
  otool_items (evs1 ++ evs2) = otool_items evs1 ++ otool_items evs2.
Proof. apply omap_app. Qed.

Lemma copy_dsts_app evs1 evs2 :
  copy_dsts (evs1 ++ evs2) = copy_dsts evs1 ++ copy_dsts evs2.
Proof. apply omap_app. Qed.

Lemma otool_deps_log p w :
  wp (otool_deps p) (λ _ w1, log w1 = log w ++ [ERun (Otool_L p)]) (λ _ _, True) w.
Proof.
  unfold otool_deps, check_output. wp_simp. cbn [fs log].
  destruct (exec _ _) as [[? ?]|]; wp_simp; done.
Qed.

Lemma walk_deps_order (a : args) (queue : list str) (seen : gset str) (ds : list str) w1 :
  wp (fold_m ds (walk_dep a) (queue, seen))
     (λ st w2, ∃ evs, log w2 = log w1 ++ evs ∧ otool_items evs = []
                      ∧ st.1 = queue ++ copy_dsts evs)
     (λ _ _, True) w1.
Proof.
  apply (wp_fold_m
           (λ _ st w2, ∃ evs, log w2 = log w1 ++ evs ∧ otool_items evs = []
                              ∧ st.1 = queue ++ copy_dsts evs)).
  - exists []. by rewrite !app_nil_r.
  - intros pre dep post st w2 _ (evs & Hl & Ho & Hq).
    eapply wp_mono; [apply walk_dep_cases| |done].
    intros st' w' [(-> & -> & _)|(n & _ & _ & _ & -> & -> & _)].
    + by exists evs.
    + exists (evs ++ [ECopy2 dep (lib_dir a // path_name dep)]).
      unfold after. cbn [log fst]. rewrite Hl, Hq, otool_items_app, copy_dsts_app, Ho.
      by rewrite <- !app_assoc.
Qed.

Lemma walk_order (a : args) fuel queue seen w :
  wp (walk fuel a queue seen)
     (λ _ w', ∃ evs, log w' = log w ++ evs
                     ∧ otool_items evs = queue ++ copy_dsts evs)
     (λ _ _, True) w.
Proof.
  revert queue seen w. induction fuel as [|fuel IH]; intros [|item queue] seen w;
    simpl; try (by rewrite wp_out_of_fuel);
    try (rewrite wp_ret; exists []; by rewrite app_nil_r).
  rewrite wp_bind. eapply wp_mono; [apply otool_deps_log| |done].
  intros ds w1 Hl1. cbn beta. rewrite wp_bind.
  eapply wp_mono; [apply walk_deps_order| |done].
  intros st w2 (evs2 & Hl2 & Ho2 & Hq2). cbn beta.
  eapply wp_mono; [apply IH| |done].
  intros [] w' (evs3 & Hl3 & Ho3).
  exists ([ERun (Otool_L item)] ++ evs2 ++ evs3). split.
  - rewrite Hl3, Hl2, Hl1. by rewrite <- !app_assoc.
  - rewrite !otool_items_app, !copy_dsts_app, Ho2, Ho3, Hq2. cbn [otool_items omap app].
    simpl. by rewrite <- !app_assoc.
Qed.

(** X13: the walk is first in, first out: the files [otool -L] was run on
    are, in this order, the files of the initial queue followed by the
    destinations of the copies in the order in which they were made. *)
Theorem walk_first_in_first_out (fuel : nat) (a : args) (queue : list str)
    (seen : gset str) (w w' : world) :
  walk fuel a queue seen w = (Ok tt, w') →
  ∃ evs, log w' = log w ++ evs
         ∧ otool_items evs = queue ++ copy_dsts evs.
Proof.
  intros H. exact (wp_run _ _ _ _ _ _ H (walk_order a fuel queue seen w)).
Qed.

Lemma walk_first_in_first_out_witness :
  ∃ evs, log demo_walk.2 = log (World demo_fs []) ++ evs
         ∧ otool_items evs = [plugin_bin demo_args] ++ copy_dsts evs.
Proof.
  apply (walk_first_in_first_out 20 demo_args _ {[plugin_bin demo_args]}).
  apply (run_ok_pair demo_walk). vm_compute. reflexivity.
Defined.

(** ** Lines of the output of [otool -L], whatever the path *)

Lemma splitlines_cr (s : str) :
  (∃ s', s = 10 :: s' ∧ splitlines (13 :: s) = [] :: splitlines s')
  ∨ splitlines (13 :: s) = [] :: splitlines s.
Proof.
  destruct s as [|c s]; [by right|].
  destruct (decide (c = 10)) as [->|Hne].
  - left. by exists s.
  - right. cbn [splitlines]. change (is_linebreak 13) with true.
    change (13 =? 13) with true. cbn iota.
    destruct c as [|p]; [done|].
    do 4 (try (destruct p as [p|p|]; try done)).
Qed.

Lemma splitlines_after_lf_len (n : nat) (x y : str) :
  (length x < n)%nat →
  ∃ pre, pre ≠ [] ∧ splitlines (x ++ 10 :: y) = pre ++ splitlines y.
Proof.
  revert x. induction n as [|n IH]; intros x Hlen; [lia|].
  destruct x as [|c x].
  - exists [[]]. done.
  - cbn [app]. destruct (is_linebreak c) eqn:Ec.
    + destruct (decide (c = 13)) as [->|Hne].
      * destruct (splitlines_cr (x ++ 10 :: y)) as [(s' & Es & ->)| ->].
        -- destruct x as [|c' x]; cbn [app] in Es.
           ++ injection Es as <-. by exists [[]].
           ++ injection Es as -> <-.
              destruct (IH x) as (pre & _ & ->); [simpl in Hlen; lia|].
              by exists ([] :: pre).
        -- destruct (IH x) as (pre & _ & ->); [simpl in Hlen; lia|].
           by exists ([] :: pre).
      * cbn [splitlines]. rewrite Ec.
        replace (c =? 13) with false by (symmetry; by apply N.eqb_neq).
        destruct (IH x) as (pre & _ & ->); [simpl in Hlen; lia|].
        by exists ([] :: pre).
    + cbn [splitlines]. rewrite Ec.
      destruct (IH x) as (pre & Hpre & E); [simpl in Hlen; lia|].
      rewrite E. destruct pre as [|l pre]; [done|]. by exists ((c :: l) :: pre).
Qed.

Lemma splitlines_after_lf (x y : str) :
  ∃ pre, pre ≠ [] ∧ splitlines (x ++ 10 :: y) = pre ++ splitlines y.
Proof. apply (splitlines_after_lf_len (S (length x))). lia. Qed.

Lemma dylib_lines_end (p : str) (names : list str) :
  ∃ z, p ++ U ":" ++ [10] ++ concat (dylib_line <$> names) = z ++ [10].
Proof.
  destruct names as [|n names _] using rev_ind.
  - exists (p ++ U ":"). cbn [fmap list_fmap concat]. by rewrite app_nil_r, <- app_assoc.
  - rewrite fmap_app, concat_app. cbn [fmap list_fmap concat].
    rewrite app_nil_r. unfold dylib_line at 2.
    exists (p ++ U ":" ++ [10] ++ concat (dylib_line <$> names) ++
            9 :: n ++ U " (compatibility version 1.0.0, current version 1.0.0)").
    generalize (U " (compatibility version 1.0.0, current version 1.0.0)").
    generalize (concat (dylib_line <$> names)). generalize (U ":"). intros c l t.
    rewrite <- !app_assoc. cbn [app]. by rewrite <- !app_assoc.
Qed.

Lemma otool_deps_text_mem (p : str) (m : macho) (d : str) :
  plain_name d = true → d ∈ listed_names m →
  d ∈ otool_deps_text (otool_L_text p m).
Proof.
  intros Hd Hin. apply list_elem_of_split in Hin as (l1 & l2 & E).
  rewrite otool_deps_text_map. unfold otool_L_text. rewrite E.
  rewrite fmap_app, concat_app. cbn [fmap list_fmap concat].
  destruct (dylib_lines_end p l1) as [z Hz].
  assert (Ea : ∀ r, p ++ U ":" ++ [10] ++ concat (dylib_line <$> l1) ++ r
                    = z ++ 10 :: r).
  { intros r. change (z ++ 10 :: r) with (z ++ [10] ++ r).
    rewrite (app_assoc z [10] r), <- Hz.
    generalize (concat (dylib_line <$> l1)). generalize (U ":"). intros c l.
    by rewrite <- !app_assoc. }
  rewrite Ea, dylib_line_app.
  destruct (splitlines_after_lf z
              ((9 :: d ++ 32 :: U "(compatibility version 1.0.0, current version 1.0.0" ++ [41])
               ++ 10 :: concat (dylib_line <$> l2))) as (pre & Hpre & ->).
  rewrite splitlines_line by by apply one_line_dylib_line.
  destruct pre as [|l0 pre]; [done|]. cbn [app drop].
  change (map dep_of_line ?l) with (dep_of_line <$> l).
  rewrite drop_0, fmap_app, fmap_cons, dep_of_dylib_line by done.
  apply elem_of_app. right. by apply elem_of_cons; left.
Qed.

(** ** Rewriting the dependencies *)

Lemma remap_dep_eq (a : args) (b dep : str) :
  remap_dep a b dep
  = match remap_target a dep with
    | Some new => run (Int_change dep new b)
    | None => ret tt
    end.
Proof.
  unfold remap_dep, remap_target.
  destruct (startswith (U "@") dep); [done|].
  destruct (_ || _); [done|].
  destruct (startswith (macports_prefix a) dep); [|done].
  destruct (contains _ dep).
  - by destruct (framework_name dep) as [[|c n]|].
  - by destruct (endswith _ dep).
Qed.

Lemma remap_target_at (a : args) (dep new : str) :
  remap_target a dep = Some new → startswith (U "@") new = true.
Proof.
  unfold remap_target.
  destruct (startswith (U "@") dep); [done|].
  destruct (_ || _); [done|].
  destruct (startswith (macports_prefix a) dep); [|done].
  destruct (contains _ dep).
  - destruct (framework_name dep) as [[|c n]|]; try done. by intros [= <-].
  - destruct (endswith _ dep); [|done]. by intros [= <-].
Qed.

Lemma remap_target_none_at (a : args) (d : str) :
  startswith (U "@") d = true → remap_target a d = None.
Proof. unfold remap_target. by intros ->. Qed.

(** The dependencies of a file after a tool has run: those it had, and the
    new name of an [install_name_tool -change]. *)
Lemma run_deps_from (cmd : command) (f : gmap str node) (k : str) (m' : macho) :
  apply_event (ERun cmd) f !! k = Some (Bin m') →
  ∃ m, f !! k = Some (Bin m) ∧
       ∀ d, d ∈ deps m' → d ∈ deps m ∨ ∃ old p, cmd = Int_change old d p.
Proof.
  rewrite apply_run_lookup. destruct (decide _) as [Hp|Hp].
  - destruct (f !! k) as [[|m|]|] eqn:E; try done.
    destruct (tool_effect cmd m) as [m1|] eqn:Et.
    + intros [= <-]. exists m. split; [done|]. intros d Hd.
      destruct cmd; simpl in Et; simplify_eq; cbn [deps] in Hd; try by left.
      * apply list_elem_of_fmap in Hd as (d0 & -> & Hd0).
        case_bool_decide; [right; by eauto|by left].
      * destruct (bool_decide _); simplify_eq. by left.
    + intros [= <-]. exists m. split; [done|]. by left.
  - intros H. exists m'. split; [done|]. by left.
Qed.

Lemma remapped_stable (a : args) (b : str) (cmd : command) :
  (∀ old new p, cmd = Int_change old new p → startswith (U "@") new = true) →
  stable (remapped a b) (ERun cmd).
Proof.
  intros Hc w H m d Hm Hd Hp. unfold after in Hm. cbn [fs] in Hm.
  apply run_deps_from in Hm as (m0 & Hm0 & Hfrom).
  destruct (Hfrom d Hd) as [H0|(old & p & ->)].
  - by apply (H m0 d).
  - apply remap_target_none_at. by eapply Hc.
Qed.

(** One binary: after its dependencies have been gone through, none that
    [otool_deps] reads back unchanged is left to rewrite. *)
Lemma remap_one (a : args) (b : str) (w : world) :
  wp (ds <- otool_deps b ;; for_each ds (remap_dep a b))
     (λ _, remapped a b) (λ _ _, True) w.
Proof.
  rewrite wp_bind. eapply wp_mono; [apply otool_deps_fs| |done].
  intros ds w1 (Hfs & m0 & Hm0 & Hds). cbn beta.
  eapply wp_mono; [| |done].
  - apply (wp_for_each_pre
             (λ done w2, ∃ m, fs w2 !! b = Some (Bin m) ∧
                ∀ d, d ∈ deps m → is_Some (remap_target a d) →
                     d ∈ deps m0 ∧ d ∉ done)
             ds (remap_dep a b) (λ _ _, True)).
    + exists m0. rewrite Hfs. split; [done|]. intros d Hd _. split; [done|].
      apply not_elem_of_nil.
    + intros done dep post w2 _ (m & Hm & Hrest). rewrite remap_dep_eq.
      destruct (remap_target a dep) as [new|] eqn:Et.
      * apply wp_intro. intros r w3 Hr. apply run_ok in Hr as [-> Hr].
        destruct r as [[]|x]; [|done].
        unfold after. cbn [fs]. rewrite apply_run_lookup. cbn [command_path].
        rewrite decide_True by done. rewrite Hm. cbn [tool_effect].
        eexists. split; [done|]. cbn [deps]. intros d Hd Hs.
        apply list_elem_of_fmap in Hd as (d0 & -> & Hd0).
        case_bool_decide as Hdec.
        -- rewrite (remap_target_none_at a new) in Hs
             by (by eapply remap_target_at).
           by destruct Hs.
        -- destruct (Hrest d0 Hd0 Hs) as [H1 H2]. split; [done|].
           intros Hin. apply elem_of_app in Hin as [Hin|Hin]; [done|].
           by apply list_elem_of_singleton in Hin.
      * rewrite wp_ret. exists m. split; [done|]. intros d Hd Hs.
        destruct (Hrest d Hd Hs) as [H1 H2]. split; [done|].
        intros Hin. apply elem_of_app in Hin as [Hin|Hin]; [done|].
        apply list_elem_of_singleton in Hin as ->. rewrite Et in Hs.
        by destruct Hs.
  - intros [] w2 (m & Hm & Hrest) m' d Hm' Hd Hp.
    rewrite Hm in Hm'. injection Hm' as <-.
    destruct (remap_target a d) as [new|] eqn:Et; [|done]. exfalso.
    destruct (Hrest d Hd) as [H1 H2]; [by eexists|]. apply H2. rewrite Hds.
    apply otool_deps_text_mem; [done|]. unfold listed_names.
    destruct (install_name m0); [by apply elem_of_cons; right|done].
Qed.

Lemma keeps_remap_one (a : args) (I : world → Prop) (b : str) :
  (∀ p, stable I (ERun (Otool_L p))) →
  (∀ old new p, startswith (U "@") new = true →
                stable I (ERun (Int_change old new p))) →
  keeps I raised (ds <- otool_deps b ;; for_each ds (remap_dep a b)).
Proof.
  intros H1 H2. apply keeps_bind; [by apply keeps_otool_deps|].
  intros ds. apply keeps_for_each. intros dep _. by apply keeps_remap_dep.
Qed.

Lemma remap_deps_spec (a : args) (bins : gset str) (w : world) :
  wp (remap_deps a bins) (λ _ w', ∀ b, b ∈ bins → remapped a b w')
     (λ _ _, True) w.
Proof.
  unfold remap_deps. eapply wp_mono; [| |done].
  - apply (wp_for_each_pre (λ done w1, ∀ b, b ∈ done → remapped a b w1)
             (elements bins) _ (λ _ _, True)).
    + intros b Hb. by apply elem_of_nil in Hb.
    + intros done b post w1 _ Hdone.
      eapply wp_mono; [apply wp_conj; [apply remap_one|]| |done].
      * apply (keeps_remap_one a (λ w, ∀ b, b ∈ done → remapped a b w) b);
          [| |exact Hdone].
        -- intros p w2 H b' Hb'. apply remapped_stable; [done|by apply H].
        -- intros old new p Hn w2 H b' Hb'.
           apply remapped_stable; [|by apply H]. by intros ? ? ? [= _ <- _].
      * intros [] w2 [Hb Hold] b' Hb'.
        apply elem_of_app in Hb' as [Hb'|Hb']; [by apply Hold|].
        by apply list_elem_of_singleton in Hb' as ->.
  - intros [] w1 H b Hb. apply H. by apply elem_of_elements.
Qed.

(** ** The binaries that [gather] returns *)

Lemma collect_binaries_spec (a : args) (w : world) :
  wp (collect_binaries a)
     (λ bins w', w' = w ∧ plugin_bin a ∈ bins
                 ∧ (∀ name, name ∈ QT_FRAMEWORKS → is_Some (fs w !! fw_bin a name) →
                            fw_bin a name ∈ bins)
                 ∧ (∀ p, below_dylib (plugins_dir a) p = true →
                         is_Some (fs w !! p) → p ∈ bins))
     (λ _ _, True) w.
Proof.
  unfold collect_binaries. rewrite wp_bind. eapply wp_mono; [| |done].
  - apply (wp_fold_m
             (λ done (s : gset str) w', w' = w ∧ plugin_bin a ∈ s
                ∧ ∀ name, name ∈ done → is_Some (fs w !! fw_bin a name) →
                          fw_bin a name ∈ s)
             QT_FRAMEWORKS _ _ (λ _ _, True)).
    + split; [done|]. split; [by apply elem_of_singleton|].
      intros name Hn. by apply elem_of_nil in Hn.
    + intros done name post s w1 _ (-> & Hp & Hfw).
      unfold path_exists. rewrite wp_bind, wp_read.
      destruct (fs w !! fw_bin a name) as [n|] eqn:E; rewrite wp_ret.
      * split; [done|]. split; [by apply elem_of_union; left|].
        intros name' Hn' Hs. apply elem_of_app in Hn' as [Hn'|Hn'].
        -- apply elem_of_union. left. by apply Hfw.
        -- apply list_elem_of_singleton in Hn' as ->.
           apply elem_of_union. right. by apply elem_of_singleton.
      * split; [done|]. split; [done|].
        intros name' Hn' Hs. apply elem_of_app in Hn' as [Hn'|Hn'].
        -- by apply Hfw.
        -- apply list_elem_of_singleton in Hn' as ->. rewrite E in Hs.
           by destruct Hs.
  - intros s w1 (-> & Hp & Hfw). cbn beta. unfold rglob_dylib.
    rewrite wp_bind, wp_read. eapply wp_mono; [| |done].
    + apply (wp_fold_m
               (λ done (s' : gset str) w', w' = w ∧ s ⊆ s' ∧ ∀ p, p ∈ done → p ∈ s')
               _ _ _ (λ _ _, True)).
      * split; [done|]. split; [done|]. intros p Hp'. by apply elem_of_nil in Hp'.
      * intros done p post s' w1 _ (-> & Hsub & Hin). rewrite wp_ret.
        split; [done|]. split; [etrans; [done|apply union_subseteq_l]|].
        intros p' Hp'. apply elem_of_union.
        apply elem_of_app in Hp' as [Hp'|Hp']; [left; by apply Hin|].
        apply list_elem_of_singleton in Hp' as ->. right. by apply elem_of_singleton.
    + intros s' w1 (-> & Hsub & Hin). split; [done|]. split; [by apply Hsub|].
      split; [intros name Hn Hs; apply Hsub; by apply Hfw|].
      intros p Hb Hs. apply Hin, list_elem_of_In, filter_In. split; [|done].
      by apply list_elem_of_In, elem_of_elements, elem_of_dom.
Qed.

Lemma add_copied_spec (a : args) (bins0 : gset str) (w : world) :
  wp (add_copied a bins0)
     (λ bins w', w' = w ∧ bins0 ⊆ bins
                 ∧ ∀ p, child_dylib (lib_dir a) p = true →
                        is_Some (fs w !! p) → p ∈ bins)
     (λ _ _, True) w.
Proof.
  unfold add_copied, glob_dylib. rewrite wp_bind, wp_read.
  eapply wp_mono; [| |done].
  - apply (wp_fold_m
             (λ done (s' : gset str) w', w' = w ∧ bins0 ⊆ s' ∧ ∀ p, p ∈ done → p ∈ s')
             _ _ _ (λ _ _, True)).
    + split; [done|]. split; [done|]. intros p Hp'. by apply elem_of_nil in Hp'.
    + intros done p post s' w1 _ (-> & Hsub & Hin). rewrite wp_ret.
      split; [done|]. split; [etrans; [done|apply union_subseteq_l]|].
      intros p' Hp'. apply elem_of_union.
      apply elem_of_app in Hp' as [Hp'|Hp']; [left; by apply Hin|].
      apply list_elem_of_singleton in Hp' as ->. right. by apply elem_of_singleton.
  - intros s' w1 (-> & Hsub & Hin). split; [done|]. split; [done|].
    intros p Hb Hs. apply Hin, list_elem_of_In, filter_In. split; [|done].
    by apply list_elem_of_In, elem_of_elements, elem_of_dom.
Qed.

(** Between the collection of the binaries and the end of the walk, the only
    new files are dylibs of [Frameworks/lib]. *)
Lemma new_files_stable (a : args) (f : gmap str node) :
  (∀ cmd, stable (λ w, ∀ k, is_Some (fs w !! k) →
                            is_Some (f !! k) ∨ child_dylib (lib_dir a) k = true)
                 (ERun cmd))
  ∧ (∀ w src dst n,
       (∀ k, is_Some (fs w !! k) →
             is_Some (f !! k) ∨ child_dylib (lib_dir a) k = true) →
       dst = lib_dir a // path_name src → endswith (U ".dylib") src = true →
       fs w !! dst = None → fs w !! src = Some n → n ≠ Dir →
       ∀ k, is_Some (fs (after (ECopy2 src dst) w) !! k) →
            is_Some (f !! k) ∨ child_dylib (lib_dir a) k = true).
Proof.
  split.
  - intros cmd w H k Hk. apply H. unfold after in Hk. cbn [fs] in Hk.
    by apply apply_run_dom in Hk.
  - intros w src dst n H -> He Hd Hs Hn k Hk.
    unfold after in Hk. cbn [fs apply_event] in Hk. unfold copy2_fs in Hk.
    rewrite Hs in Hk. destruct (decide (k = lib_dir a // path_name src)) as [->|Hne].
    + right. apply child_dylib_pjoin; [apply path_name_no_slash|].
      apply endswith_path_name; [apply dylib_no_slash|done].
    + rewrite lookup_insert_ne in Hk by done. by apply H.
Qed.

Lemma gather_libs_binaries (fuel : nat) (a : args) (w : world) :
  wp (gather_libs fuel a)
     (λ bins w1, ∀ b, processed a b → is_Some (fs w1 !! b) → b ∈ bins)
     (λ _ _, True) w.
Proof.
  unfold gather_libs. rewrite wp_bind.
  eapply wp_mono; [apply collect_binaries_spec| |done].
  intros bins0 w0 (-> & Hplug & Hfw & Hpl). cbn beta.
  set (K := λ w' : world, ∀ k, is_Some (fs w' !! k) →
                               is_Some (fs w !! k) ∨ child_dylib (lib_dir a) k = true).
  destruct (new_files_stable a (fs w)) as [Krun Kcopy].
  assert (K0 : K w) by (intros k Hk; by left).
  rewrite wp_bind.
  apply (wp_keeps K raised); [by apply keeps_copy_explicit_libs|done| |done].
  intros _ w1 K1. rewrite wp_bind.
  apply (wp_keeps K raised_or_fuel); [by apply keeps_walk|done| |done].
  intros _ w2 K2.
  eapply wp_mono; [apply add_copied_spec| |done].
  intros bins w3 (-> & Hsub & Hlib) b Hb Hs.
  destruct Hb as [->|[(name & Hn & ->)|[Hb|Hb]]].
  - by apply Hsub.
  - destruct (K2 _ Hs) as [H0|H0]; [by apply Hsub, Hfw|by apply Hlib].
  - destruct (K2 _ Hs) as [H0|H0]; [by apply Hsub, Hpl|by apply Hlib].
  - by apply Hlib.
Qed.

(** X14: after a run that ends normally, in every binary the script
    processes (the plugin, the framework binaries, the dylibs below
    [Frameworks/plugins] and those of [Frameworks/lib]) no dependency is left
    that the remap loop rewrites, among those that [otool_deps] reads back
    unchanged (names without white space): such a dependency either starts
    with ["@"], the GIMP path, ["/System"] or ["/usr/lib"], or lies outside
    the MacPorts prefix, or is below it but neither a framework path nor a
    [".dylib"]. *)
Theorem deps_remapped (fuel : nat) (a : args) (fs0 : gmap str node) (w' : world)
    (b : str) (m : macho) (d : str) :
  bundle_run fuel a fs0 = (Ok tt, w') →
  processed a b → fs w' !! b = Some (Bin m) →
  d ∈ deps m → plain_name d = true →
  remap_target a d = None.
Proof.
  intros H Hb Hm Hd Hp. unfold bundle_run, bundle in H.
  apply bind_ok_inv in H as (bins & w1 & Hg & Hf). rewrite gather_parts in Hg.
  apply bind_ok_inv in Hg as ([] & wa & _ & Hg).
  apply bind_ok_inv in Hg as ([] & wb & _ & Hg).
  apply bind_ok_inv in Hg as ([] & wc & _ & Hg).
  apply bind_ok_inv in Hg as ([] & wd & _ & Hg).
  apply bind_ok_inv in Hg as ([] & we & _ & Hg).
  pose proof (wp_run _ _ _ _ _ _ Hg (gather_libs_binaries fuel a we)) as Hbins.
  cbn beta iota in Hbins.
  assert (Hdom : ∀ k, is_Some (fs w' !! k) → is_Some (fs w1 !! k)).
  { refine (proj1 (keeps_run _ _ _ _ _ _
                     (keeps_late_finish a (λ w, ∀ k, is_Some (fs w !! k) →
                                                     is_Some (fs w1 !! k)) _ bins)
                     _ Hf)); [|done].
    intros cmd w H k Hk. apply H. unfold after in Hk. cbn [fs] in Hk.
    by apply apply_run_dom in Hk. }
  assert (Hin : b ∈ bins).
  { apply Hbins; [done|]. apply Hdom. by eexists. }
  unfold finish in Hf.
  apply bind_ok_inv in Hf as ([] & w2 & _ & Hf).
  apply bind_ok_inv in Hf as ([] & w3 & Hremap & Hadd).
  pose proof (wp_run _ _ _ _ _ _ Hremap (remap_deps_spec a bins w2)) as H3.
  cbn beta iota in H3.
  assert (H4 : remapped a b w').
  { refine (proj1 (keeps_run _ _ _ _ _ _
                     (keeps_add_rpaths a (remapped a b) _ _) (H3 b Hin) Hadd)).
    - intros p. by apply remapped_stable.
    - intros w p r m0 Hw _ _ _. by apply remapped_stable. }
  by apply (H4 m d).
Qed.

Lemma deps_remapped_witness :
  remap_target demo_args (U "/opt/local/lib/libfoo.so") = None.
Proof.
  apply (deps_remapped 20 demo_args demo_fs demo_final (plugin_bin demo_args)
           demo_plugin_final).
  - apply run_ok_pair. vm_compute. reflexivity.
  - by left.
  - vm_compute. reflexivity.
  - apply list_elem_of_In. vm_compute. tauto.
  - reflexivity.
Defined.

(** ** What a run leaves alone *)

Lemma early_lookup (a : args) (e : event) (f : gmap str node) (k : str) :
  early_event a e → under (frameworks_dir a) k = false →
  apply_event e f !! k = f !! k.
Proof.
  intros He Hout.
  destruct e as [msg|p|p|s d|p t|s d|cmd]; simpl in He; try done; cbn [apply_event].
  - rewrite lookup_insert_ne; [done|]. intros ->. congruence.
  - rewrite rmtree_lookup. destruct (under p k) eqn:E; [|done].
    by rewrite (under_trans _ _ _ He E) in Hout.
  - rewrite copytree_lookup_other; [done|].
    destruct (under d k) eqn:E; [|done].
    by rewrite (under_trans _ _ _ He E) in Hout.
Qed.

Lemma lib_under_frameworks (a : args) (n : str) :
  under (frameworks_dir a) (lib_dir a // n) = true.
Proof. eapply under_trans; apply under_pjoin. Qed.

Lemma below_dylib_under (dir k : str) : below_dylib dir k = true → under dir k = true.
Proof.
  unfold below_dylib. intros H. apply andb_true_iff in H as [H _].
  apply startswith_iff in H as [t ->]. apply under_iff. right. exists t.
  by rewrite <- app_assoc.
Qed.

Lemma processed_where (a : args) (b : str) :
  processed a b → b = plugin_bin a ∨ under (frameworks_dir a) b = true.
Proof.
  intros [->|[(name & _ & ->)|[H|H]]]; [by left|right..].
  - apply under_pjoin.
  - eapply under_trans; [|by apply below_dylib_under]. apply under_pjoin.
  - apply child_dylib_inv in H as [n ->]. apply lib_under_frameworks.
Qed.

Lemma run_lookup_other (cmd : command) (f : gmap str node) (k : str) :
  command_path cmd ≠ k → apply_event (ERun cmd) f !! k = f !! k.
Proof. intros H. rewrite apply_run_lookup. by rewrite decide_False. Qed.

Lemma collect_binaries_upper (a : args) (w : world) :
  wp (collect_binaries a) (λ bins _, ∀ b, b ∈ bins → processed a b)
     (λ _ _, True) w.
Proof.
  unfold collect_binaries. rewrite wp_bind. eapply wp_mono; [| |done].
  - apply (wp_fold_m (λ _ (s : gset str) _, ∀ b, b ∈ s → processed a b)
             QT_FRAMEWORKS _ _ (λ _ _, True)).
    + intros b Hb. apply elem_of_singleton in Hb as ->. by left.
    + intros done name post s w1 E Hs.
      unfold path_exists. rewrite wp_bind, wp_read.
      destruct (fs w1 !! fw_bin a name); rewrite wp_ret; [|done].
      intros b Hb. apply elem_of_union in Hb as [Hb|Hb]; [by apply Hs|].
      apply elem_of_singleton in Hb as ->. right. left. exists name.
      split; [|done]. rewrite E. apply elem_of_app. right. by apply elem_of_cons; left.
  - intros s w1 Hs. cbn beta. unfold rglob_dylib.
    rewrite wp_bind, wp_read.
    apply (wp_fold_m (λ _ (s' : gset str) _, ∀ b, b ∈ s' → processed a b)
             _ _ _ (λ _ _, True)); [done|].
    intros done p post s' w2 E Hs'. rewrite wp_ret.
    intros b Hb. apply elem_of_union in Hb as [Hb|Hb]; [by apply Hs'|].
    apply elem_of_singleton in Hb as ->. right. right. left.
    assert (Hin : In p (List.filter (below_dylib (plugins_dir a))
                          (elements (dom (fs w1))))).
    { rewrite E. apply in_or_app. right. by left. }
    by apply filter_In in Hin as [_ Hin].
Qed.

Lemma add_copied_upper (a : args) (bins0 : gset str) (w : world) :
  (∀ b, b ∈ bins0 → processed a b) →
  wp (add_copied a bins0) (λ bins _, ∀ b, b ∈ bins → processed a b)
     (λ _ _, True) w.
Proof.
  intros H0. unfold add_copied, glob_dylib. rewrite wp_bind, wp_read.
  apply (wp_fold_m (λ _ (s' : gset str) _, ∀ b, b ∈ s' → processed a b)
           _ _ _ (λ _ _, True)); [done|].
  intros done p post s' w2 E Hs'. rewrite wp_ret.
  intros b Hb. apply elem_of_union in Hb as [Hb|Hb]; [by apply Hs'|].
  apply elem_of_singleton in Hb as ->. right. right. right.
  assert (Hin : In p (List.filter (child_dylib (lib_dir a))
                        (elements (dom (fs w))))).
  { rewrite E. apply in_or_app. right. by left. }
  by apply filter_In in Hin as [_ Hin].
Qed.

Lemma gather_libs_upper (fuel : nat) (a : args) (w : world) :
  wp (gather_libs fuel a) (λ bins _, ∀ b, b ∈ bins → processed a b)
     (λ _ _, True) w.
Proof.
  unfold gather_libs. rewrite wp_bind.
  eapply wp_mono; [apply collect_binaries_upper| |done].
  intros bins0 w1 H0. cbn beta. rewrite wp_bind.
  eapply wp_mono; [apply wp_true| |done]. intros _ w2 _. rewrite wp_bind.
  eapply wp_mono; [apply wp_true| |done]. intros _ w3 _.
  by apply add_copied_upper.
Qed.

Lemma keeps_remap_deps_in (a : args) (I : world → Prop) (bins : gset str) :
  (∀ p, stable I (ERun (Otool_L p))) →
  (∀ old new p, p ∈ bins → stable I (ERun (Int_change old new p))) →
  keeps I raised (remap_deps a bins).
Proof.
  intros H1 H2. unfold remap_deps. apply keeps_for_each. intros b Hb.
  apply keeps_bind; [by apply keeps_otool_deps|]. intros ds.
  apply keeps_for_each. intros dep _. rewrite remap_dep_eq.
  destruct (remap_target a dep); [|apply (keeps_ret I raised tt)].
  apply keeps_run_cmd, H2. by apply elem_of_elements.
Qed.

Section untouched_files.
Context (a : args) (fs0 : gmap str node).

Let same (w : world) : Prop := ∀ k, outside a k → fs w !! k = fs0 !! k.

Lemma same_early (e : event) : early_event a e → stable same e.
Proof.
intros He w H k Hk. unfold after. cbn [fs].
rewrite (early_lookup a); [by apply H|done|by destruct Hk].
Qed.

Lemma same_write (t : str) : stable same (EWriteText (bundle_dir a // U "qt.conf") t).
Proof.
intros w H k Hk. unfold after. cbn [fs apply_event].
rewrite lookup_insert_ne; [by apply H|]. destruct Hk as (_ & Hk & _). congruence.
Qed.

Lemma same_otool (p : str) : stable same (ERun (Otool_L p)).
Proof. intros w H k Hk. unfold after. cbn [fs]. rewrite apply_otool_L. by apply H. Qed.

Lemma same_otool_l (p : str) : stable same (ERun (Otool_l p)).
Proof. intros w H k Hk. unfold after. cbn [fs]. rewrite apply_otool_l. by apply H. Qed.

Lemma same_copy (w : world) (src dst : str) (n : node) :
  same w → dst = lib_dir a // path_name src → endswith (U ".dylib") src = true →
  fs w !! dst = None → fs w !! src = Some n → n ≠ Dir →
  same (after (ECopy2 src dst) w).
Proof.
intros H -> _ _ Hs _ k Hk. unfold after. cbn [fs apply_event]. unfold copy2_fs.
rewrite Hs, lookup_insert_ne; [by apply H|].
intros <-. destruct Hk as (Hk & _). by rewrite lib_under_frameworks in Hk.
Qed.

Lemma same_run (cmd : command) :
  command_path cmd = plugin_bin a ∨ under (frameworks_dir a) (command_path cmd) = true →
  stable same (ERun cmd).
Proof.
intros Hc w H k Hk. unfold after. cbn [fs].
rewrite run_lookup_other; [by apply H|].
intros <-. destruct Hk as (Hk1 & _ & Hk2). destruct Hc; congruence.
Qed.

Lemma same_gather_libs (fuel : nat) : keeps same raised_or_fuel (gather_libs fuel a).
Proof.
unfold gather_libs. apply keeps_bind.
{ eapply keeps_mono; [apply keeps_collect_binaries|]. by right. }
intros binaries. apply keeps_bind.
{ eapply keeps_mono; [apply keeps_copy_explicit_libs, same_copy|]. by right. }
intros _. apply keeps_bind; [apply keeps_walk; [apply same_otool|apply same_copy]|].
intros _. eapply keeps_mono; [apply keeps_add_copied|]. by right.
Qed.

Lemma same_finish (bins : gset str) :
  (∀ b, b ∈ bins → processed a b) → keeps same raised (finish a bins).
Proof.
intros Hb. unfold finish. apply keeps_bind; [|intros _; apply keeps_bind; [|intros _]].
- apply keeps_fix_install_ids. intros new p Hp. apply same_run. right.
  cbn [command_path]. destruct Hp as [[Hp _]|(name & _ & -> & _)].
  + apply child_dylib_inv in Hp as [n ->]. apply lib_under_frameworks.
  + apply under_pjoin.
- apply keeps_remap_deps_in; [apply same_otool|].
  intros old new p Hp. apply same_run. cbn [command_path].
  by apply processed_where, Hb.
- apply keeps_add_rpaths; [apply same_otool_l|].
  intros w p r m Hw Hp _ _. apply same_run; [|done]. cbn [command_path].
  apply processed_where. destruct Hp as [[-> _]|[[Hp _]|(name & Hn & -> & _)]].
  + by left.
  + right. right. by left.
  + right. left. by exists name.
Qed.

Lemma same_bundle (fuel : nat) w :
  same w → wp (bundle fuel a) (λ _, same) (λ _, same) w.
Proof.
intros H0. unfold bundle. rewrite gather_parts, wp_bind.
rewrite wp_bind.
apply (wp_keeps same status1); [apply keeps_check_args, same_early|done| |by intros ? ? ?].
clear w H0. intros _ w H0. rewrite wp_bind.
apply (wp_keeps same status1); [apply keeps_make_dirs, same_early|done| |by intros ? ? ?].
clear w H0. intros _ w H0. rewrite wp_bind.
apply (wp_keeps same status1);
  [apply keeps_copy_qt_frameworks, same_early|done| |by intros ? ? ?].
clear w H0. intros _ w H0. rewrite wp_bind.
apply (wp_keeps same status1);
  [apply keeps_copy_qt_plugins, same_early|done| |by intros ? ? ?].
clear w H0. intros _ w H0. rewrite wp_bind.
apply (wp_keeps same raised); [apply keeps_write_text, same_write|done| |by intros ? ? ?].
clear w H0. intros _ w H0.
eapply wp_mono.
- apply wp_conj; [apply (same_gather_libs fuel w H0)|apply gather_libs_upper].
- intros bins w1 [H1 Hb]. cbn beta.
  apply (wp_keeps same raised); [by apply same_finish|done|done|by intros ? ? ?].
- by intros x w1 [[H1 _] _].
Qed.
End untouched_files.

(** X15: whatever the outcome of a run, a path that is not below
    [bundle_dir/Frameworks] and is neither [bundle_dir/qt.conf] nor the plugin
    binary holds at the end what it held at the start: the script changes
    nothing of the Qt installation, of MacPorts or of GIMP.app. *)
Theorem sources_untouched (fuel : nat) (a : args) (fs0 : gmap str node) (k : str) :
  under (frameworks_dir a) k = false →
  k ≠ bundle_dir a // U "qt.conf" →
  k ≠ plugin_bin a →
  fs (bundle_run fuel a fs0).2 !! k = fs0 !! k.
Proof.
  intros H1 H2 H3. unfold bundle_run.
  pose proof (same_bundle a fs0 fuel (World fs0 []) (λ _ _, eq_refl)) as H.
  unfold wp in H.
  destruct (bundle fuel a (World fs0 [])) as [[[]|x] w']; by apply H.
Qed.

Lemma sources_untouched_witness :
  fs (bundle_run 20 demo_args demo_fs).2 !! U "/opt/local/lib/liby.dylib"
  = demo_fs !! U "/opt/local/lib/liby.dylib".
Proof.
  apply sources_untouched.
  - reflexivity.
  - apply (bool_decide_unpack _). vm_compute. exact I.
  - apply (bool_decide_unpack _). vm_compute. exact I.
Defined.

(** ** The explicit libraries *)

Lemma copy_explicit_libs_spec (a : args) (w : world) :
  wp (copy_explicit_libs a)
     (λ _ w', ∀ src, src ∈ explicit_libs a → is_Some (fs w !! src) →
                     is_Some (fs w' !! (lib_dir a // path_name src)))
     (λ _ _, True) w.
Proof.
  unfold copy_explicit_libs. eapply wp_mono; [| |done].
  - apply (wp_for_each_pre
             (λ done w', fs w ⊆ fs w'
                ∧ ∀ src, src ∈ done → is_Some (fs w !! src) →
                         is_Some (fs w' !! (lib_dir a // path_name src)))
             (explicit_libs a) _ (λ _ _, True)).
    + split; [done|]. intros src Hs. by apply elem_of_nil in Hs.
    + intros done src post w1 _ [Hsub Hdone].
      assert (Hkeep : ∀ w2, fs w1 ⊆ fs w2 →
                is_Some (fs w2 !! (lib_dir a // path_name src)) →
                fs w ⊆ fs w2
                ∧ ∀ s, s ∈ done ++ [src] → is_Some (fs w !! s) →
                       is_Some (fs w2 !! (lib_dir a // path_name s))).
      { intros w2 H12 Hnew. split; [by etrans|]. intros s Hs Hex.
        apply elem_of_app in Hs as [Hs|Hs].
        - destruct (Hdone s Hs Hex) as [n Hn]. exists n. by eapply lookup_weaken.
        - by apply list_elem_of_singleton in Hs as ->. }
      unfold copy_explicit_lib, path_exists, copy2. cbn zeta.
      rewrite wp_bind, wp_read.
      destruct (fs w1 !! src) as [n|] eqn:Es.
      * rewrite wp_bind, wp_read.
        destruct (fs w1 !! (lib_dir a // path_name src)) as [n'|] eqn:Ed; cbn [negb].
        -- rewrite wp_ret. apply Hkeep; [done|]. by eexists.
        -- rewrite wp_bind, wp_read, Es.
           destruct n as [|m|t]; wp_simp; [done|..];
             (apply Hkeep; cbn [fs apply_event]; unfold copy2_fs; rewrite Es;
              [by apply insert_subseteq|rewrite lookup_insert_eq; by eexists]).
      * rewrite wp_ret. split; [done|]. intros s Hs Hex.
        apply elem_of_app in Hs as [Hs|Hs]; [by apply Hdone|].
        apply list_elem_of_singleton in Hs as ->. destruct Hex as [n Hn].
        by rewrite (lookup_weaken _ _ _ _ Hn Hsub) in Es.
  - intros [] w' [_ H]. exact H.
Qed.

Lemma explicit_not_qt_conf (a : args) (src : str) :
  src ∈ explicit_libs a → src ≠ bundle_dir a // U "qt.conf".
Proof.
  intros Hs E. apply explicit_libs_dylib in Hs. rewrite E in Hs.
  unfold endswith, pjoin in Hs. rewrite rev_app_distr in Hs.
  by vm_compute in Hs.
Qed.

(** X16: after a run that ends normally, each of the seven explicit
    libraries that existed at the start (outside [bundle_dir/Frameworks]) has
    a file of its basename in [Frameworks/lib]. *)
Theorem explicit_libs_bundled (fuel : nat) (a : args) (fs0 : gmap str node)
    (w' : world) (src : str) :
  bundle_run fuel a fs0 = (Ok tt, w') →
  src ∈ explicit_libs a → is_Some (fs0 !! src) →
  under (frameworks_dir a) src = false →
  is_Some (fs w' !! (lib_dir a // path_name src)).
Proof.
  intros H Hs Hex Hout. unfold bundle_run, bundle in H.
  apply bind_ok_inv in H as (bins & w1 & Hg & Hf). rewrite gather_parts in Hg.
  set (I := λ w : world, fs w !! src = fs0 !! src).
  assert (Hearly : ∀ e, early_event a e → stable I e).
  { intros e He w Hw. unfold I, after. cbn [fs]. by rewrite (early_lookup a). }
  apply bind_ok_inv in Hg as ([] & wa & Ha & Hg).
  pose proof (proj1 (keeps_run _ _ _ _ _ _ (keeps_check_args a I Hearly)
                       (eq_refl : I (World fs0 [])) Ha)) as Ia.
  apply bind_ok_inv in Hg as ([] & wb & Hb & Hg).
  pose proof (proj1 (keeps_run _ _ _ _ _ _ (keeps_make_dirs a I Hearly) Ia Hb)) as Ib.
  apply bind_ok_inv in Hg as ([] & wc & Hc & Hg).
  pose proof (proj1 (keeps_run _ _ _ _ _ _ (keeps_copy_qt_frameworks a I Hearly) Ib Hc))
    as Ic.
  apply bind_ok_inv in Hg as ([] & wd & Hd & Hg).
  pose proof (proj1 (keeps_run _ _ _ _ _ _ (keeps_copy_qt_plugins a I Hearly) Ic Hd))
    as Id.
  apply bind_ok_inv in Hg as ([] & we & He & Hg).
  assert (Ie : I we).
  { refine (proj1 (keeps_run _ _ _ _ _ _ (keeps_write_text I _ _ _) Id He)).
    intros w Hw. unfold I, after. cbn [fs apply_event].
    rewrite lookup_insert_ne; [done|]. intros E. by apply (explicit_not_qt_conf a src). }
  unfold gather_libs in Hg.
  apply bind_ok_inv in Hg as (bins0 & wf & Hcol & Hg).
  assert (Hwf : wf = we).
  { pose proof (wp_run _ _ _ _ _ _ Hcol (collect_binaries_spec a we)) as Hc0.
    by destruct Hc0. }
  subst wf.
  apply bind_ok_inv in Hg as ([] & wg & Hexp & Hg).
  pose proof (wp_run _ _ _ _ _ _ Hexp (copy_explicit_libs_spec a we) src Hs) as Hdst.
  cbn beta in Hdst. unfold I in Ie. rewrite Ie in Hdst. specialize (Hdst Hex).
  set (P := λ w : world, is_Some (fs w !! (lib_dir a // path_name src))).
  assert (Prun : ∀ cmd, stable P (ERun cmd)).
  { intros cmd w Hw. unfold P, after. cbn [fs]. by apply apply_run_dom. }
  assert (Pcopy : ∀ w s d n, P w → d = lib_dir a // path_name s →
                    endswith (U ".dylib") s = true → fs w !! d = None →
                    fs w !! s = Some n → n ≠ Dir → P (after (ECopy2 s d) w)).
  { intros w s d n Hw -> _ _ Hsn _. unfold P, after. cbn [fs apply_event].
    unfold copy2_fs. rewrite Hsn.
    destruct (decide (lib_dir a // path_name s = lib_dir a // path_name src)) as [->|Hne].
    - rewrite lookup_insert_eq. by eexists.
    - by rewrite lookup_insert_ne. }
  apply bind_ok_inv in Hg as ([] & wh & Hwalk & Hadd).
  pose proof (proj1 (keeps_run _ _ _ _ _ _
                       (keeps_walk a P (λ p, Prun _) Pcopy fuel _ _) Hdst Hwalk)) as Ph.
  assert (P1 : P w1).
  { pose proof (wp_run _ _ _ _ _ _ Hadd (add_copied_spec a bins0 wh)) as Hc0.
    destruct Hc0 as [-> _]. done. }
  exact (proj1 (keeps_run _ _ _ _ _ _ (keeps_late_finish a P Prun bins) P1 Hf)).
Qed.

Lemma explicit_libs_bundled_witness :
  is_Some (fs (bundle_run 20 demo_args demo_fftw).2
           !! (lib_dir demo_args // path_name (U "/opt/local/lib/libfftw3.3.dylib"))).
Proof.
  apply (explicit_libs_bundled 20 demo_args demo_fftw).
  - apply run_ok_pair. vm_compute. reflexivity.
  - by apply elem_of_cons; left.
  - unfold is_Some. vm_compute. eexists. reflexivity.
  - reflexivity.
Defined.

(** ** The test of [add_rpath_if_missing] is a test on text *)

Lemma name_command_contains (cmd : string) (n name : str) :
  contains n name = true → contains n (name_command cmd name) = true.
Proof.
  intros H. unfold name_command.
  replace (U "          cmd " ++ U cmd ++ [10] ++ U "      cmdsize 56" ++ [10] ++
           U "         name " ++ name ++ U " (offset 24)" ++ [10])
    with ((U "          cmd " ++ U cmd ++ [10] ++ U "      cmdsize 56" ++ [10] ++
           U "         name ") ++ name ++ U " (offset 24)" ++ [10]).
  - by apply contains_in_middle.
  - generalize (U cmd). hide_literals. intros c. by rewrite <- !app_assoc.
Qed.

Lemma concat_contains (n : str) (f : str → str) (l : list str) (d : str) :
  d ∈ l → contains n (f d) = true → contains n (concat (f <$> l)) = true.
Proof.
  intros Hd Hc. apply list_elem_of_split in Hd as (l1 & l2 & ->).
  rewrite fmap_app, concat_app, fmap_cons, concat_cons.
  by apply contains_in_middle.
Qed.

Lemma contains_app_l (n s t : str) : contains n s = true → contains n (s ++ t) = true.
Proof. intros H. by apply (contains_in_middle n [] s t). Qed.

Lemma contains_app_r (n s t : str) : contains n t = true → contains n (s ++ t) = true.
Proof.
  intros H. rewrite <- (app_nil_r t). by apply (contains_in_middle n s t []).
Qed.

(** X17: the test of [add_rpath_if_missing] is a test on the text of
    [otool -l]: when the text ["path <rpath> "] occurs in the path of the
    binary, in its install name or in the name of a dependency, the function
    returns after [otool -l] and adds nothing, whether or not the binary has
    the search path. *)
Theorem add_rpath_text_test (b r : str) (w : world) (m : macho) :
  fs w !! b = Some (Bin m) →
  contains (U "path " ++ r ++ U " ") b = true
  ∨ (∃ d, d ∈ listed_names m ∧ contains (U "path " ++ r ++ U " ") d = true) →
  add_rpath_if_missing b r w
  = (Ok tt, World (fs w) (log w ++ [ERun (Otool_l b)])).
Proof.
  intros Hm Hc. rewrite add_rpath_if_missing_eq, Hm.
  assert (H : contains (U "path " ++ r ++ U " ") (otool_l_text b m) = true);
    [|by rewrite H].
  unfold otool_l_text. destruct Hc as [Hb|(d & Hd & Hc)].
  - by apply contains_app_l.
  - do 3 apply contains_app_r. unfold listed_names in Hd.
    destruct (install_name m) as [i|] eqn:Ei; cbn [from_option].
    + apply elem_of_cons in Hd as [->|Hd].
      * apply contains_app_l. cbn [fmap list_fmap concat]. rewrite app_nil_r.
        by apply name_command_contains.
      * apply contains_app_r, contains_app_l.
        apply (concat_contains _ (name_command "LC_LOAD_DYLIB") _ d); [done|].
        by apply name_command_contains.
    + cbn [fmap list_fmap concat app]. apply contains_app_l.
      apply (concat_contains _ (name_command "LC_LOAD_DYLIB") _ d); [done|].
      by apply name_command_contains.
Qed.

Lemma add_rpath_text_test_witness :
  add_rpath_if_missing (U "/build/tool") (U "@loader_path/Frameworks")
    (World demo_spaced [])
  = (Ok tt, World demo_spaced [ERun (Otool_l (U "/build/tool"))]).
Proof.
  apply (add_rpath_text_test _ _ (World demo_spaced [])
           (MachO None [U "/opt/my path @loader_path/Frameworks /libz.dylib"] [])).
  - reflexivity.
  - right. eexists. split; [by apply elem_of_cons; left|reflexivity].
Defined.

(** ** The frameworks in the bundle *)

Lemma same_kind_refl (n : node) : same_kind n n.
Proof. by destruct n. Qed.

(** A relative part [r] that keeps [p ++ r] below [p]: empty, or starting
    with a slash. *)
Lemma under_app_iff (p r : str) :
  under p (p ++ r) = true ↔ r = [] ∨ ∃ t, r = 47 :: t.
Proof.
  rewrite under_iff. split.
  - intros [H|[t H]].
    + left. rewrite <- (app_nil_r p) in H at 2. by apply app_inv_head in H.
    + right. exists t. by apply app_inv_head in H.
  - intros [->|[t ->]]; [left; by rewrite app_nil_r|right; by exists t].
Qed.

Lemma pjoin_app (p s r : str) : (p // s) ++ r = p // (s ++ r).
Proof. unfold pjoin. by rewrite <- app_assoc. Qed.

Lemma pjoin_pjoin (p s t : str) : p // s // t = p // (s ++ 47 :: t).
Proof. unfold pjoin. by rewrite <- app_assoc. Qed.

Lemma pjoin_inj (p s t : str) : p // s = p // t → s = t.
Proof. unfold pjoin. intros E. apply app_inv_head in E. by injection E. Qed.

Lemma fw_dst_apart (a : args) (x name r : str) :
  x ∈ QT_FRAMEWORKS → name ∈ QT_FRAMEWORKS → x ≠ name →
  under (fw_dst a name) (fw_dst a name ++ r) = true →
  under (fw_dst a x) (fw_dst a name ++ r) = false.
Proof.
  intros Hx Hn Hne Hr. apply not_true_is_false. intros Hu.
  apply under_app_iff in Hr. apply under_iff in Hu.
  unfold fw_dst in Hu. rewrite !pjoin_app in Hu.
  assert (E : (name ++ U ".framework") ++ r = x ++ U ".framework"
              ∨ ∃ t, (name ++ U ".framework") ++ r = (x ++ U ".framework") ++ 47 :: t).
  { destruct Hu as [Hu|[t Hu]]; [left|right; exists t];
      rewrite ?pjoin_app in Hu; by apply pjoin_inj in Hu. }
  apply qt_name_cases in Hx as [-> | [-> | [-> | [-> | [-> | -> ]]]]];
    apply qt_name_cases in Hn as [-> | [-> | [-> | [-> | [-> | -> ]]]]];
    try done;
    destruct Hr as [->|[t' ->]]; destruct E as [E|[t E]]; discriminate.
Qed.

Lemma plugin_apart (a : args) (sub name r : str) :
  name ∈ QT_FRAMEWORKS →
  under (plugins_dir a // sub) (fw_dst a name ++ r) = false.
Proof.
  intros Hn. apply not_true_is_false. intros Hu.
  assert (Hp : under (plugins_dir a) (fw_dst a name ++ r) = true).
  { eapply under_trans; [apply under_pjoin|exact Hu]. }
  apply under_iff in Hp. unfold fw_dst, plugins_dir in Hp. rewrite !pjoin_app in Hp.
  assert (E : ∃ t, (name ++ U ".framework") ++ r = U "plugins" ++ t).
  { destruct Hp as [Hp|[t Hp]]; rewrite ?pjoin_app in Hp; apply pjoin_inj in Hp;
      rewrite Hp; eauto. }
  destruct E as [t E].
  apply qt_name_cases in Hn as [-> | [-> | [-> | [-> | [-> | -> ]]]]]; discriminate.
Qed.

Lemma fw_not_lib (a : args) (name r s : str) :
  name ∈ QT_FRAMEWORKS → fw_dst a name ++ r ≠ lib_dir a // s.
Proof.
  intros Hn E. unfold fw_dst, lib_dir in E.
  rewrite pjoin_app, pjoin_pjoin in E. apply pjoin_inj in E.
  apply qt_name_cases in Hn as [-> | [-> | [-> | [-> | [-> | -> ]]]]]; discriminate.
Qed.

Lemma fw_not_qt_conf (a : args) (name r : str) :
  name ∈ QT_FRAMEWORKS → fw_dst a name ++ r ≠ bundle_dir a // U "qt.conf".
Proof.
  intros Hn E. unfold fw_dst, frameworks_dir in E.
  rewrite pjoin_pjoin, pjoin_app in E. apply pjoin_inj in E. discriminate.
Qed.

Lemma NoDup_QT_FRAMEWORKS : NoDup QT_FRAMEWORKS.
Proof. apply (bool_decide_unpack _). by vm_compute. Qed.

Lemma keeps_copy_qt_plugins_at (a : args) (I : world → Prop) :
  (∀ sub, stable I (ERmtree (plugins_dir a // sub))) →
  (∀ src sub, stable I (ECopytree src (plugins_dir a // sub))) →
  keeps I raised (copy_qt_plugins a).
Proof.
  intros H1 H2. apply keeps_for_each. intros sub _.
  unfold copy_qt_plugin. cbn zeta.
  apply keeps_bind; [apply keeps_read|]. intros [|]; [|apply (keeps_ret I raised tt)].
  apply keeps_bind; [apply keeps_read|]. intros d.
  apply keeps_bind; [|intros _; by apply keeps_copytree].
  destruct d; [by apply keeps_rmtree|apply (keeps_ret I raised tt)].
Qed.

Section frameworks.
Context (a : args) (fs0 : gmap str node).

(** The files outside [Frameworks] are those of the start. *)
Let kept (w : world) : Prop :=
  ∀ k, under (frameworks_dir a) k = false → fs w !! k = fs0 !! k.

(** The files of the source of [name] are in the bundle. *)
Let copied (name : str) (w : world) : Prop :=
  ∀ r n, under (fw_src a name) (fw_src a name ++ r) = true →
         under (frameworks_dir a) (fw_src a name ++ r) = false →
         fs0 !! (fw_src a name ++ r) = Some n →
         fs w !! (fw_dst a name ++ r) = Some n.

Lemma kept_early (e : event) : early_event a e → stable kept e.
Proof.
intros He w H k Hk. unfold after. cbn [fs]. rewrite (early_lookup a); auto.
Qed.

Lemma under_src_dst (name r : str) :
  under (fw_src a name) (fw_src a name ++ r) = true →
  under (fw_dst a name) (fw_dst a name ++ r) = true.
Proof. rewrite !under_app_iff. done. Qed.

Lemma copy_qt_framework_copied (done : list str) (x : str) (w : world) :
  x ∈ QT_FRAMEWORKS → x ∉ done → (∀ name, name ∈ done → name ∈ QT_FRAMEWORKS) →
  kept w → (∀ name, name ∈ done → copied name w) →
  wp (copy_qt_framework a x)
     (λ _ w', kept w' ∧ ∀ name, name ∈ done ++ [x] → copied name w')
     (λ _ _, True) w.
Proof.
intros Hx Hnew Hdone Hk Hc.
eapply wp_mono; [apply copy_qt_framework_spec| |done].
intros [] w' (mid & evs & Hmid & Hsrc & ->). cbn [fs].
assert (Hm : ∀ k, under (fw_dst a x) k = false → mid !! k = fs w !! k).
{ intros k Hu. destruct Hmid as [(-> & _)|(-> & _)]; [done|].
  by rewrite rmtree_lookup, Hu. }
assert (Hout : ∀ k, under (frameworks_dir a) k = false → under (fw_dst a x) k = false).
{ intros k Hu. destruct (under (fw_dst a x) k) eqn:E; [|done].
  rewrite <- Hu. symmetry. eapply under_trans; [apply under_pjoin|exact E]. }
split.
- intros k Hu. cbn [fs]. rewrite copytree_lookup_other by auto.
  rewrite Hm by auto. by apply Hk.
- intros name Hn r n Hr Hu Hn0. cbn [fs]. apply elem_of_app in Hn as [Hn|Hn].
  + assert (Ha : under (fw_dst a x) (fw_dst a name ++ r) = false).
    { apply fw_dst_apart; [done|by apply Hdone|by intros ->|by apply under_src_dst]. }
    rewrite copytree_lookup_other by done. rewrite Hm by done. by apply Hc.
  + apply list_elem_of_singleton in Hn as ->.
    apply copytree_lookup_copy; [done|]. rewrite Hm by auto. by rewrite Hk.
Qed.

Lemma copy_qt_frameworks_copied (w : world) :
  kept w →
  wp (copy_qt_frameworks a)
     (λ _ w', ∀ name, name ∈ QT_FRAMEWORKS → copied name w')
     (λ _ _, True) w.
Proof.
intros Hk. unfold copy_qt_frameworks. eapply wp_mono; [| |done].
- apply (wp_for_each_pre
           (λ done w', kept w' ∧ ∀ name, name ∈ done → copied name w')
           QT_FRAMEWORKS _ (λ _ _, True)).
  + split; [done|]. intros name Hn. by apply elem_of_nil in Hn.
  + intros done x post w1 E [Hk1 Hc1].
    pose proof NoDup_QT_FRAMEWORKS as Hnd. rewrite E in Hnd.
    apply NoDup_app in Hnd as (_ & Hnd & _).
    apply copy_qt_framework_copied; [| | |done|done].
    * rewrite E. apply elem_of_app. right. by apply elem_of_cons; left.
    * intros Hin. apply (Hnd x Hin). by apply elem_of_cons; left.
    * intros name Hn. rewrite E. apply elem_of_app. by left.
- intros [] w' [_ H]. exact H.
Qed.
End frameworks.

(** X18: the frameworks are in the bundle.  After a run that ends normally,
    every file and directory that the source of a Qt framework held at the
    start (outside [bundle_dir/Frameworks]) is in the bundle at the same place
    below [Frameworks/<Name>.framework]: a directory as a directory, a text
    file with the same text, a Mach-O file as a Mach-O file (the tools have
    rewritten some of its load commands). *)
Theorem frameworks_bundled (fuel : nat) (a : args) (fs0 : gmap str node)
    (w' : world) (name r : str) (n : node) :
  bundle_run fuel a fs0 = (Ok tt, w') →
  name ∈ QT_FRAMEWORKS →
  under (fw_src a name) (fw_src a name ++ r) = true →
  under (frameworks_dir a) (fw_src a name ++ r) = false →
  fs0 !! (fw_src a name ++ r) = Some n →
  ∃ n', fs w' !! (fw_dst a name ++ r) = Some n' ∧ same_kind n n'.
Proof.
  intros H Hn Hr Hu Hn0. unfold bundle_run, bundle in H.
  apply bind_ok_inv in H as (bins & w1 & Hg & Hf). rewrite gather_parts in Hg.
  set (kept := λ w : world, ∀ k, under (frameworks_dir a) k = false →
                                 fs w !! k = fs0 !! k).
  apply bind_ok_inv in Hg as ([] & wa & Ha & Hg).
  assert (K0 : kept (World fs0 [])) by (by intros k0 Hk0).
  pose proof (proj1 (keeps_run _ _ _ _ _ _
                       (keeps_check_args a kept (kept_early a fs0)) K0 Ha)) as Ka.
  apply bind_ok_inv in Hg as ([] & wb & Hb & Hg).
  pose proof (proj1 (keeps_run _ _ _ _ _ _
                       (keeps_make_dirs a kept (kept_early a fs0)) Ka Hb)) as Kb.
  apply bind_ok_inv in Hg as ([] & wc & Hc & Hg).
  pose proof (wp_run _ _ _ _ _ _ Hc (copy_qt_frameworks_copied a fs0 wb Kb)
                name Hn r n Hr Hu Hn0) as Hcop.
  set (k := fw_dst a name ++ r) in *.
  set (P := λ w : world, ∃ n', fs w !! k = Some n' ∧ same_kind n n').
  assert (Pc : P wc) by (exists n; split; [done|apply same_kind_refl]).
  assert (Hother : ∀ e w, P w → (apply_event e (fs w) !! k = fs w !! k) →
                          P (after e w)).
  { intros e w Hw E. unfold P, after. cbn [fs]. by rewrite E. }
  apply bind_ok_inv in Hg as ([] & wd & Hd & Hg).
  assert (Pd : P wd).
  { refine (proj1 (keeps_run _ _ _ _ _ _ (keeps_copy_qt_plugins_at a P _ _) Pc Hd)).
    - intros sub w Hw. apply Hother; [done|]. cbn [apply_event]. unfold k.
      by rewrite rmtree_lookup, plugin_apart.
    - intros src sub w Hw. apply Hother; [done|]. cbn [apply_event]. unfold k.
      by rewrite copytree_lookup_other by by apply plugin_apart. }
  apply bind_ok_inv in Hg as ([] & we & He & Hg).
  assert (Pe : P we).
  { refine (proj1 (keeps_run _ _ _ _ _ _ (keeps_write_text P _ _ _) Pd He)).
    intros w Hw. apply Hother; [done|]. cbn [apply_event].
    rewrite lookup_insert_ne; [done|]. intros E. by apply (fw_not_qt_conf a name r). }
  assert (Prun : ∀ cmd, stable P (ERun cmd)).
  { intros cmd w (n' & Hn' & Hk). unfold P, after. cbn [fs].
    rewrite apply_run_lookup. destruct (decide _); [|by exists n'].
    rewrite Hn'. destruct n' as [|m|t]; try by eexists.
    destruct (tool_effect cmd m); eexists; (split; [done|]); by destruct n. }
  assert (P1 : P w1).
  { refine (proj1 (keeps_run _ _ _ _ _ _ (keeps_gather_libs a P Prun _ fuel) Pe Hg)).
    intros w src n1 Hw _ _ Hs _. apply Hother; [done|]. cbn [apply_event].
    unfold copy2_fs. rewrite Hs, lookup_insert_ne; [done|].
    intros E. by apply (fw_not_lib a name r (path_name src)). }
  exact (proj1 (keeps_run _ _ _ _ _ _ (keeps_late_finish a P Prun bins) P1 Hf)).
Qed.

Lemma frameworks_bundled_witness :
  ∃ n', fs demo_final !! (fw_dst demo_args (U "QtGui") ++ U "/Versions/5/QtGui")
        = Some n'
        ∧ same_kind (Bin (MachO
                       (Some (U "/opt/local/libexec/qt5/lib/QtGui.framework/Versions/5/QtGui"))
                       [U "/opt/local/libexec/qt5/lib/QtCore.framework/Versions/5/QtCore"]
                       [])) n'.
Proof.
  apply (frameworks_bundled 20 demo_args demo_fs).
  - apply run_ok_pair. vm_compute. reflexivity.
  - apply list_elem_of_In. vm_compute. tauto.
  - reflexivity.
  - reflexivity.
  - vm_compute. reflexivity.
Defined.

(** ** The Qt plugins in the bundle *)

Lemma plugin_name_cases (sub : str) :
  sub ∈ QT_PLUGIN_SUBDIRS →
  sub = U "platforms" ∨ sub = U "styles" ∨ sub = U "imageformats"
  ∨ sub = U "iconengines".
Proof. unfold QT_PLUGIN_SUBDIRS. rewrite !elem_of_cons, elem_of_nil. tauto. Qed.

Lemma NoDup_QT_PLUGIN_SUBDIRS : NoDup QT_PLUGIN_SUBDIRS.
Proof. apply (bool_decide_unpack _). by vm_compute. Qed.

Lemma plugin_dst_apart (a : args) (x sub r : str) :
  x ∈ QT_PLUGIN_SUBDIRS → sub ∈ QT_PLUGIN_SUBDIRS → x ≠ sub →
  under (plugin_dst a sub) (plugin_dst a sub ++ r) = true →
  under (plugin_dst a x) (plugin_dst a sub ++ r) = false.
Proof.
  intros Hx Hn Hne Hr. apply not_true_is_false. intros Hu.
  apply under_app_iff in Hr. apply under_iff in Hu.
  unfold plugin_dst in Hu.
  assert (E : sub ++ r = x ∨ ∃ t, sub ++ r = x ++ 47 :: t).
  { destruct Hu as [Hu|[t Hu]]; [left|right; exists t];
      rewrite ?pjoin_app in Hu; by apply pjoin_inj in Hu. }
  apply plugin_name_cases in Hx as [-> | [-> | [-> | -> ]]];
    apply plugin_name_cases in Hn as [-> | [-> | [-> | -> ]]];
    try done;
    destruct Hr as [->|[t' ->]]; destruct E as [E|[t E]]; discriminate.
Qed.

Lemma plugin_not_lib (a : args) (sub r s : str) :
  plugin_dst a sub ++ r ≠ lib_dir a // s.
Proof.
  intros E. unfold plugin_dst, plugins_dir, lib_dir in E.
  rewrite !pjoin_pjoin, pjoin_app in E. apply pjoin_inj in E. discriminate.
Qed.

Lemma plugin_not_qt_conf (a : args) (sub r : str) :
  plugin_dst a sub ++ r ≠ bundle_dir a // U "qt.conf".
Proof.
  intros E. unfold plugin_dst, plugins_dir, frameworks_dir in E.
  rewrite !pjoin_pjoin, pjoin_app in E. apply pjoin_inj in E. discriminate.
Qed.

(** What copying one directory of plugins does. *)
Lemma copy_qt_plugin_spec (a : args) (sub : str) (w : world) :
  wp (copy_qt_plugin a sub)
     (λ _ w',
        (fs w !! plugin_src a sub = None ∧ w' = w)
        ∨ ∃ mid, (mid = fs w ∨ mid = rmtree_fs (plugin_dst a sub) (fs w))
                 ∧ mid !! plugin_src a sub = Some Dir
                 ∧ fs w' = copytree_fs (plugin_src a sub) (plugin_dst a sub) mid)
     (λ _ _, True) w.
Proof.
  unfold copy_qt_plugin, path_exists, rmtree, copytree. cbn zeta.
  change (qt_plugins_dir a // sub) with (plugin_src a sub).
  change (plugins_dir a // sub) with (plugin_dst a sub).
  wp_go; try done.
  - right. exists (rmtree_fs (plugin_dst a sub) (fs w)). split; [by right|]. done.
  - right. exists (fs w). split; [by left|]. done.
  - by left.
Qed.

Section plugins.
Context (a : args) (fs0 : gmap str node).

Let kept (w : world) : Prop :=
  ∀ k, under (frameworks_dir a) k = false → fs w !! k = fs0 !! k.

(** The files of the plugins of [sub], if that directory exists, are in the
    bundle. *)
Let copied (sub : str) (w : world) : Prop :=
  is_Some (fs0 !! plugin_src a sub) →
  under (frameworks_dir a) (plugin_src a sub) = false →
  ∀ r n, under (plugin_src a sub) (plugin_src a sub ++ r) = true →
         under (frameworks_dir a) (plugin_src a sub ++ r) = false →
         fs0 !! (plugin_src a sub ++ r) = Some n →
         fs w !! (plugin_dst a sub ++ r) = Some n.

Lemma plugin_under_src_dst (sub r : str) :
  under (plugin_src a sub) (plugin_src a sub ++ r) = true →
  under (plugin_dst a sub) (plugin_dst a sub ++ r) = true.
Proof. rewrite !under_app_iff. done. Qed.

Lemma copy_qt_plugin_copied (done : list str) (x : str) (w : world) :
  x ∈ QT_PLUGIN_SUBDIRS → x ∉ done →
  (∀ sub, sub ∈ done → sub ∈ QT_PLUGIN_SUBDIRS) →
  kept w → (∀ sub, sub ∈ done → copied sub w) →
  wp (copy_qt_plugin a x)
     (λ _ w', kept w' ∧ ∀ sub, sub ∈ done ++ [x] → copied sub w')
     (λ _ _, True) w.
Proof.
intros Hx Hnew Hdone Hk Hc.
eapply wp_mono; [apply copy_qt_plugin_spec| |done].
intros [] w' [[Hnone ->]|(mid & Hmid & Hsrc & Hfs)].
- split; [done|]. intros sub Hs. apply elem_of_app in Hs as [Hs|Hs]; [by apply Hc|].
  apply list_elem_of_singleton in Hs as ->. intros [n0 Hex] Hout.
  rewrite Hk in Hnone by done. congruence.
- assert (Hm : ∀ k, under (plugin_dst a x) k = false → mid !! k = fs w !! k).
  { intros k Hu. destruct Hmid as [->| ->]; [done|]. by rewrite rmtree_lookup, Hu. }
  assert (Hout : ∀ k, under (frameworks_dir a) k = false →
                      under (plugin_dst a x) k = false).
  { intros k Hu. destruct (under (plugin_dst a x) k) eqn:E; [|done].
    rewrite <- Hu. symmetry.
    eapply under_trans; [|exact E]. eapply under_trans; apply under_pjoin. }
  split.
  + intros k Hu. rewrite Hfs, copytree_lookup_other by auto.
    rewrite Hm by auto. by apply Hk.
  + intros sub Hs Hex Ho r n Hr Hu Hn0. rewrite Hfs.
    apply elem_of_app in Hs as [Hs|Hs].
    * assert (Ha : under (plugin_dst a x) (plugin_dst a sub ++ r) = false).
      { apply plugin_dst_apart;
          [done|by apply Hdone|by intros ->|by apply plugin_under_src_dst]. }
      rewrite copytree_lookup_other by done. rewrite Hm by done. by apply Hc.
    * apply list_elem_of_singleton in Hs as ->.
      apply copytree_lookup_copy; [done|]. rewrite Hm by auto. by rewrite Hk.
Qed.

Lemma copy_qt_plugins_copied (w : world) :
  kept w →
  wp (copy_qt_plugins a)
     (λ _ w', ∀ sub, sub ∈ QT_PLUGIN_SUBDIRS → copied sub w')
     (λ _ _, True) w.
Proof.
intros Hk. unfold copy_qt_plugins. eapply wp_mono; [| |done].
- apply (wp_for_each_pre
           (λ done w', kept w' ∧ ∀ sub, sub ∈ done → copied sub w')
           QT_PLUGIN_SUBDIRS _ (λ _ _, True)).
  + split; [done|]. intros sub Hs. by apply elem_of_nil in Hs.
  + intros done x post w1 E [Hk1 Hc1].
    pose proof NoDup_QT_PLUGIN_SUBDIRS as Hnd. rewrite E in Hnd.
    apply NoDup_app in Hnd as (_ & Hnd & _).
    apply copy_qt_plugin_copied; [| | |done|done].
    * rewrite E. apply elem_of_app. right. by apply elem_of_cons; left.
    * intros Hin. apply (Hnd x Hin). by apply elem_of_cons; left.
    * intros sub Hs. rewrite E. apply elem_of_app. by left.
- intros [] w' [_ H]. exact H.
Qed.
End plugins.

(** X19: the Qt plugins are in the bundle.  After a run that ends normally,
    for each of the four plugin directories that existed at the start
    (outside [bundle_dir/Frameworks]), every file and directory it held is in
    the bundle at the same place below [Frameworks/plugins/<sub>], of the same
    kind and, when it is not a Mach-O file, unchanged. *)
Theorem plugins_bundled (fuel : nat) (a : args) (fs0 : gmap str node)
    (w' : world) (sub r : str) (n : node) :
  bundle_run fuel a fs0 = (Ok tt, w') →
  sub ∈ QT_PLUGIN_SUBDIRS →
  is_Some (fs0 !! plugin_src a sub) →
  under (frameworks_dir a) (plugin_src a sub) = false →
  under (plugin_src a sub) (plugin_src a sub ++ r) = true →
  under (frameworks_dir a) (plugin_src a sub ++ r) = false →
  fs0 !! (plugin_src a sub ++ r) = Some n →
  ∃ n', fs w' !! (plugin_dst a sub ++ r) = Some n' ∧ same_kind n n'.
Proof.
  intros H Hs Hex Ho Hr Hu Hn0. unfold bundle_run, bundle in H.
  apply bind_ok_inv in H as (bins & w1 & Hg & Hf). rewrite gather_parts in Hg.
  set (kept := λ w : world, ∀ k, under (frameworks_dir a) k = false →
                                 fs w !! k = fs0 !! k).
  assert (K0 : kept (World fs0 [])) by (by intros k0 Hk0).
  apply bind_ok_inv in Hg as ([] & wa & Ha & Hg).
  pose proof (proj1 (keeps_run _ _ _ _ _ _
                       (keeps_check_args a kept (kept_early a fs0)) K0 Ha)) as Ka.
  apply bind_ok_inv in Hg as ([] & wb & Hb & Hg).
  pose proof (proj1 (keeps_run _ _ _ _ _ _
                       (keeps_make_dirs a kept (kept_early a fs0)) Ka Hb)) as Kb.
  apply bind_ok_inv in Hg as ([] & wc & Hc & Hg).
  pose proof (proj1 (keeps_run _ _ _ _ _ _
                       (keeps_copy_qt_frameworks a kept (kept_early a fs0)) Kb Hc))
    as Kc.
  apply bind_ok_inv in Hg as ([] & wd & Hd & Hg).
  pose proof (wp_run _ _ _ _ _ _ Hd (copy_qt_plugins_copied a fs0 wc Kc)
                sub Hs Hex Ho r n Hr Hu Hn0) as Hcop.
  set (P := λ w : world, ∃ n', fs w !! (plugin_dst a sub ++ r) = Some n'
                               ∧ same_kind n n').
  assert (Pd : P wd) by (exists n; split; [done|apply same_kind_refl]).
  assert (Hother : ∀ e w, P w →
            (apply_event e (fs w) !! (plugin_dst a sub ++ r)
             = fs w !! (plugin_dst a sub ++ r)) → P (after e w)).
  { intros e w Hw E. unfold P, after. cbn [fs]. by rewrite E. }
  apply bind_ok_inv in Hg as ([] & we & He & Hg).
  assert (Pe : P we).
  { refine (proj1 (keeps_run _ _ _ _ _ _ (keeps_write_text P _ _ _) Pd He)).
    intros w Hw. apply Hother; [done|]. cbn [apply_event].
    rewrite lookup_insert_ne; [done|]. intros E. by apply (plugin_not_qt_conf a sub r). }
  assert (Prun : ∀ cmd, stable P (ERun cmd)).
  { intros cmd w (n' & Hn' & Hk). unfold P, after. cbn [fs].
    rewrite apply_run_lookup. destruct (decide _); [|by exists n'].
    rewrite Hn'. destruct n' as [|m|t]; try by eexists.
    destruct (tool_effect cmd m); eexists; (split; [done|]); by destruct n. }
  assert (P1 : P w1).
  { refine (proj1 (keeps_run _ _ _ _ _ _ (keeps_gather_libs a P Prun _ fuel) Pe Hg)).
    intros w src n1 Hw _ _ Hsn _. apply Hother; [done|]. cbn [apply_event].
    unfold copy2_fs. rewrite Hsn, lookup_insert_ne; [done|].
    intros E. by apply (plugin_not_lib a sub r (path_name src)). }
  exact (proj1 (keeps_run _ _ _ _ _ _ (keeps_late_finish a P Prun bins) P1 Hf)).
Qed.

Lemma plugins_bundled_witness :
  ∃ n', fs demo_final !! (plugin_dst demo_args (U "platforms") ++ U "/libqcocoa.dylib")
        = Some n'
        ∧ same_kind (Bin (MachO
                       (Some (U "/opt/local/libexec/qt5/plugins/platforms/libqcocoa.dylib"))
                       [U "/opt/local/libexec/qt5/lib/QtGui.framework/Versions/5/QtGui"]
                       [])) n'.
Proof.
  apply (plugins_bundled 20 demo_args demo_fs).
  - apply run_ok_pair. vm_compute. reflexivity.
  - apply list_elem_of_In. vm_compute. tauto.
  - unfold is_Some. vm_compute. eexists. reflexivity.
  - reflexivity.
  - reflexivity.
  - reflexivity.
  - vm_compute. reflexivity.
Defined.

(** ** A library's own name, and the set [seen] *)



Lemma walk_dep_seen (a : args) (dep : str) (queue : list str) (seen seen' : gset str)
    (w : world) :
  queue_of (walk_dep a dep (queue, seen) w)
  = queue_of (walk_dep a dep (queue, seen') w).
Proof.
  rewrite !walk_dep_eq. destruct (walk_filter a dep); [|done].
  unfold path_exists, copy2, bind, read, emit, ret, raise. cbn [fst snd].
  destruct (fs w !! (lib_dir a // path_name dep)); cbn [negb]; [done|].
  by destruct (fs w !! dep) as [[| |]|].
Qed.

Lemma walk_deps_seen (a : args) (ds : list str) (queue : list str)
    (seen seen' : gset str) (w : world) :
  queue_of (fold_m ds (walk_dep a) (queue, seen) w)
  = queue_of (fold_m ds (walk_dep a) (queue, seen') w).
Proof.
  revert queue seen seen' w. induction ds as [|d ds IH]; intros queue seen seen' w;
    [done|].
  cbn [fold_m]. unfold bind.
  pose proof (walk_dep_seen a d queue seen seen' w) as H.
  destruct (walk_dep a d (queue, seen) w) as [[[q1 s1]|x1] w1];
    destruct (walk_dep a d (queue, seen') w) as [[[q2 s2]|x2] w2];
    unfold queue_of in H; cbn [fst snd] in H; simplify_eq; [apply IH|done].
Qed.

(** X21: the set [seen] is written but never read: the walk does the same,
    and ends the same, whatever set it is started with.  What keeps a library
    from being copied twice is the test [dst.exists()]. *)
Theorem seen_unused (fuel : nat) (a : args) (queue : list str)
    (seen seen' : gset str) (w : world) :
  walk fuel a queue seen w = walk fuel a queue seen' w.
Proof.
  revert queue seen seen' w. induction fuel as [|fuel IH];
    intros [|item queue] seen seen' w; try done.
  cbn [walk]. unfold bind. destruct (otool_deps item w) as [[ds|x] w1]; [|done].
  pose proof (walk_deps_seen a ds queue seen seen' w1) as H.
  destruct (fold_m ds (walk_dep a) (queue, seen) w1) as [[[q1 s1]|x1] w2];
    destruct (fold_m ds (walk_dep a) (queue, seen') w1) as [[[q2 s2]|x2] w3];
    unfold queue_of in H; cbn [fst snd] in H; simplify_eq; [apply IH|done].
Qed.

(** ** The directories of the bundle *)

Lemma under_length (p k : str) : under p k = true → (length p ≤ length k)%nat.
Proof.
  intros H. apply under_iff in H as [->|[r ->]]; [done|].
  rewrite length_app. lia.
Qed.

Lemma length_pjoin (p s : str) : length (p // s) = S (length p + length s).
Proof. unfold pjoin. rewrite length_app. simpl. lia. Qed.

Lemma made_dirs_cases (a : args) (k : str) :
  k ∈ made_dirs a →
  k = frameworks_dir a ∨ k = frameworks_dir a // U "plugins"
  ∨ k = frameworks_dir a // U "lib".
Proof. unfold made_dirs. rewrite !elem_of_cons, elem_of_nil. tauto. Qed.

Lemma under_child (p s t k : str) :
  under (p // s) (p // t) = true → t = s ∨ ∃ r, t = s ++ 47 :: r.
Proof.
  intros H. apply under_iff in H as [H|[r H]].
  - left. by apply pjoin_inj in H.
  - right. exists r. rewrite pjoin_app in H. by apply pjoin_inj in H.
Qed.

Lemma not_under_child (p s : str) : under (p // s) p = false.
Proof.
  apply not_true_is_false. intros H. apply under_length in H.
  rewrite length_pjoin in H. lia.
Qed.

Lemma made_dir_not_fw (a : args) (name k : str) :
  name ∈ QT_FRAMEWORKS → k ∈ made_dirs a → under (fw_dst a name) k = false.
Proof.
  intros Hn Hk. apply not_true_is_false. intros Hu. unfold fw_dst in Hu.
  apply made_dirs_cases in Hk as [->|[->| ->]].
  - by rewrite not_under_child in Hu.
  - apply (under_child _ _ _ []) in Hu.
    apply qt_name_cases in Hn as [-> | [-> | [-> | [-> | [-> | -> ]]]]];
      destruct Hu as [Hu|[r Hu]]; discriminate.
  - apply (under_child _ _ _ []) in Hu.
    apply qt_name_cases in Hn as [-> | [-> | [-> | [-> | [-> | -> ]]]]];
      destruct Hu as [Hu|[r Hu]]; discriminate.
Qed.

Lemma made_dir_not_plugin (a : args) (sub k : str) :
  k ∈ made_dirs a → under (plugins_dir a // sub) k = false.
Proof.
  intros Hk. apply not_true_is_false. intros Hu.
  apply made_dirs_cases in Hk as [->|[->| ->]].
  - apply under_length in Hu. unfold plugins_dir in Hu.
    rewrite !length_pjoin in Hu. lia.
  - fold (plugins_dir a) in Hu. by rewrite not_under_child in Hu.
  - unfold plugins_dir in Hu. rewrite pjoin_pjoin in Hu.
    apply (under_child _ _ _ []) in Hu. destruct Hu as [Hu|[r Hu]]; discriminate.
Qed.

Lemma made_dir_not_lib_file (a : args) (s k : str) :
  k ∈ made_dirs a → k ≠ lib_dir a // s.
Proof.
  intros Hk E. apply made_dirs_cases in Hk as [->|[->| ->]].
  - apply (f_equal length) in E. unfold lib_dir in E. rewrite !length_pjoin in E. lia.
  - unfold lib_dir in E. rewrite pjoin_pjoin in E. apply pjoin_inj in E. discriminate.
  - fold (lib_dir a) in E. apply (f_equal length) in E. rewrite length_pjoin in E. lia.
Qed.

Lemma made_dir_not_qt_conf (a : args) (k : str) :
  k ∈ made_dirs a → k ≠ bundle_dir a // U "qt.conf".
Proof.
  intros Hk E. unfold frameworks_dir in *.
  apply made_dirs_cases in Hk as [->|[->| ->]]; unfold frameworks_dir in E;
    rewrite ?pjoin_pjoin in E; apply pjoin_inj in E; discriminate.
Qed.

(** [mkdir] leaves its directory, and every directory there was. *)
Lemma mkdir_ok (p : str) (w w' : world) :
  mkdir p w = (Ok tt, w') →
  fs w' !! p = Some Dir ∧ ∀ k, fs w !! k = Some Dir → fs w' !! k = Some Dir.
Proof.
  unfold mkdir, bind, read, emit, ret, raise.
  destruct (fs w !! p) as [[| |]|] eqn:E; intros H; simplify_eq; [done|].
  cbn [fs apply_event]. split; [apply lookup_insert_eq|].
  intros k Hk. destruct (decide (k = p)) as [->|Hne].
  - apply lookup_insert_eq.
  - by rewrite lookup_insert_ne.
Qed.

Lemma keeps_copy_qt_frameworks_at (a : args) (I : world → Prop) :
  (∀ msg, stable I (EStderr msg)) →
  (∀ name, name ∈ QT_FRAMEWORKS → stable I (ERmtree (fw_dst a name))) →
  (∀ src name, name ∈ QT_FRAMEWORKS → stable I (ECopytree src (fw_dst a name))) →
  keeps I status1 (copy_qt_frameworks a).
Proof.
  intros H0 H1 H2. apply keeps_for_each. intros name Hn.
  unfold copy_qt_framework. cbn zeta.
  change (frameworks_dir a // (name ++ U ".framework")) with (fw_dst a name).
  apply keeps_bind; [apply keeps_read|]. intros e.
  apply keeps_bind.
  { destruct (negb e); keeps_auto. by apply keeps_emit. }
  intros _. apply keeps_bind; [apply keeps_read|]. intros d.
  apply keeps_bind.
  - destruct d; [|apply (keeps_ret I status1 tt)].
    eapply keeps_mono; [|apply raised_status1]. by apply keeps_rmtree, H1.
  - intros _. eapply keeps_mono; [|apply raised_status1]. by apply keeps_copytree, H2.
Qed.

(** X22: after a run that ends normally the three directories that
    [bundle] makes, [Frameworks], [Frameworks/plugins] and [Frameworks/lib],
    are directories: no later step (the removal of an old framework or plugin
    directory, the copies, the tools) takes one of them away. *)
Theorem dirs_made (fuel : nat) (a : args) (fs0 : gmap str node) (w' : world) :
  bundle_run fuel a fs0 = (Ok tt, w') →
  fs w' !! frameworks_dir a = Some Dir
  ∧ fs w' !! plugins_dir a = Some Dir
  ∧ fs w' !! lib_dir a = Some Dir.
Proof.
  intros H. unfold bundle_run, bundle in H.
  apply bind_ok_inv in H as (bins & w1 & Hg & Hf). rewrite gather_parts in Hg.
  apply bind_ok_inv in Hg as ([] & wa & _ & Hg).
  apply bind_ok_inv in Hg as ([] & wb & Hb & Hg).
  set (D := λ w : world, ∀ k, k ∈ made_dirs a → fs w !! k = Some Dir).
  assert (Db : D wb).
  { unfold make_dirs in Hb. cbn [for_each] in Hb.
    apply bind_ok_inv in Hb as ([] & x1 & H1 & Hb). apply mkdir_ok in H1 as [F1 K1].
    apply bind_ok_inv in Hb as ([] & x2 & H2 & Hb). apply mkdir_ok in H2 as [F2 K2].
    apply bind_ok_inv in Hb as ([] & x3 & H3 & Hb). apply mkdir_ok in H3 as [F3 K3].
    injection Hb as <-. intros k Hk.
    apply elem_of_cons in Hk as [->|Hk]; [by apply K3, K2|].
    apply elem_of_cons in Hk as [->|Hk]; [by apply K3|].
    apply elem_of_cons in Hk as [->|Hk]; [done|]. by apply elem_of_nil in Hk. }
  assert (Hother : ∀ e w, D w →
            (∀ k, k ∈ made_dirs a → apply_event e (fs w) !! k = fs w !! k) →
            D (after e w)).
  { intros e w Hw E k Hk. unfold after. cbn [fs]. rewrite E by done. by apply Hw. }
  apply bind_ok_inv in Hg as ([] & wc & Hc & Hg).
  assert (Dc : D wc).
  { refine (proj1 (keeps_run _ _ _ _ _ _ (keeps_copy_qt_frameworks_at a D _ _ _) Db Hc)).
    - intros msg w Hw. by apply Hother.
    - intros name Hn w Hw. apply Hother; [done|]. intros k Hk. cbn [apply_event].
      by rewrite rmtree_lookup, made_dir_not_fw.
    - intros src name Hn w Hw. apply Hother; [done|]. intros k Hk. cbn [apply_event].
      by rewrite copytree_lookup_other by by apply made_dir_not_fw. }
  apply bind_ok_inv in Hg as ([] & wd & Hd & Hg).
  assert (Dd : D wd).
  { refine (proj1 (keeps_run _ _ _ _ _ _ (keeps_copy_qt_plugins_at a D _ _) Dc Hd)).
    - intros sub w Hw. apply Hother; [done|]. intros k Hk. cbn [apply_event].
      by rewrite rmtree_lookup, made_dir_not_plugin.
    - intros src sub w Hw. apply Hother; [done|]. intros k Hk. cbn [apply_event].
      by rewrite copytree_lookup_other by by apply made_dir_not_plugin. }
  apply bind_ok_inv in Hg as ([] & we & He & Hg).
  assert (De : D we).
  { refine (proj1 (keeps_run _ _ _ _ _ _ (keeps_write_text D _ _ _) Dd He)).
    intros w Hw. apply Hother; [done|]. intros k Hk. cbn [apply_event].
    rewrite lookup_insert_ne; [done|]. intros E. by apply (made_dir_not_qt_conf a k). }
  assert (Drun : ∀ cmd, stable D (ERun cmd)).
  { intros cmd w Hw k Hk. unfold after. cbn [fs]. rewrite apply_run_lookup.
    destruct (decide _); by rewrite (Hw k Hk). }
  assert (D1 : D w1).
  { refine (proj1 (keeps_run _ _ _ _ _ _ (keeps_gather_libs a D Drun _ fuel) De Hg)).
    intros w src n1 Hw _ _ Hsn _. apply Hother; [done|]. intros k Hk.
    cbn [apply_event]. unfold copy2_fs. rewrite Hsn, lookup_insert_ne; [done|].
    intros E. by apply (made_dir_not_lib_file a (path_name src) k). }
  pose proof (proj1 (keeps_run _ _ _ _ _ _ (keeps_late_finish a D Drun bins) D1 Hf))
    as Dend.
  split; [|split]; apply Dend; unfold made_dirs.
  - by apply elem_of_cons; left.
  - apply elem_of_cons; right. by apply elem_of_cons; left.
  - apply elem_of_cons; right. apply elem_of_cons; right. by apply elem_of_cons; left.
Qed.

Lemma dirs_made_witness :
  fs demo_final !! frameworks_dir demo_args = Some Dir
  ∧ fs demo_final !! plugins_dir demo_args = Some Dir
  ∧ fs demo_final !! lib_dir demo_args = Some Dir.
Proof.
  apply (dirs_made 20 demo_args demo_fs). apply run_ok_pair. vm_compute. reflexivity.
Defined.

(** ** Ending with [sys.exit] *)

Lemma untouched_stable (e : event) : ¬ is_copy e → ¬ is_run e → stable untouched e.
Proof.
  intros H1 H2 w Hw. unfold untouched, after. cbn [log].
  apply Forall_app. split; [done|]. by apply Forall_singleton.
Qed.

Ltac untouched_step :=
  apply untouched_stable; [by intros []|by intros []|done..].

Section exits.
Context (a : args).

(** How a run may end early while the directories are set up: by an
    exception, or by [sys.exit(1)] right after one of the two messages. *)
Let reported (x : abort) (w : world) : Prop :=
  untouched w
  ∧ ∀ c, x = Exit c →
         c = 1%Z ∧ ∃ pre msg, log w = pre ++ [EStderr msg] ∧ exit_report a msg.

Lemma raised_reported (x : abort) (w : world) : untouched w → raised x → reported x w.
Proof. intros Hw [e ->]. split; [done|]. by intros c. Qed.

Lemma check_args_exits (w : world) :
  untouched w → wp (check_args a) (λ _, untouched) reported w.
Proof.
intros Hw. unfold check_args, is_dir, path_exists, print_stderr.
rewrite wp_bind, wp_read, wp_bind, wp_read.
destruct (negb _ || negb _); wp_simp; [|done].
split; [untouched_step|]. intros c [= <-]. split; [done|].
exists (log w), (U "Missing bundle_dir or plugin_bin"). split; [done|]. by left.
Qed.

Lemma rmtree_exits (p : str) (w : world) :
  untouched w → wp (rmtree p) (λ _, untouched) reported w.
Proof.
intros Hw. unfold rmtree. rewrite wp_bind, wp_read.
destruct (fs w !! p) as [[| |]|]; wp_simp;
  try (apply raised_reported; [done|by eexists]).
untouched_step.
Qed.

Lemma copytree_exits (src dst : str) (w : world) :
  untouched w → wp (copytree src dst) (λ _, untouched) reported w.
Proof.
intros Hw. unfold copytree. rewrite wp_bind, wp_read, wp_bind, wp_read.
destruct (fs w !! src) as [[| |]|]; wp_simp;
  try (apply raised_reported; [done|by eexists]).
destruct (fs w !! dst); wp_simp; [apply raised_reported; [done|by eexists]|].
untouched_step.
Qed.

Lemma copy_qt_framework_exits (name : str) (w : world) :
  name ∈ QT_FRAMEWORKS → untouched w →
  wp (copy_qt_framework a name) (λ _, untouched) reported w.
Proof.
intros Hn Hw. unfold copy_qt_framework, path_exists, print_stderr. cbn zeta.
change (qt_lib_dir a // (name ++ U ".framework")) with (fw_src a name).
rewrite wp_bind, wp_read, wp_bind.
destruct (fs w !! fw_src a name) as [s|] eqn:Es; cbn [negb].
- rewrite wp_ret, wp_bind, wp_read, wp_bind.
  destruct (fs w !! (frameworks_dir a // (name ++ U ".framework"))).
  + eapply wp_mono; [by apply rmtree_exits| |done].
    intros [] w1 H1. by apply copytree_exits.
  + rewrite wp_ret. by apply copytree_exits.
- rewrite wp_bind, wp_emit, wp_sys_exit.
  split; [untouched_step|]. intros c [= <-]. split; [done|].
  exists (log w), (U "Missing Qt framework: " ++ fw_src a name). split; [done|].
  right. by exists name.
Qed.

Lemma bundle_exits (fuel : nat) (w : world) :
  untouched w →
  wp (bundle fuel a) (λ _ _, True)
     (λ x w', ∀ c, x = Exit c →
                   c = 1%Z ∧ untouched w'
                   ∧ ∃ pre msg, log w' = pre ++ [EStderr msg] ∧ exit_report a msg) w.
Proof.
intros Hw. unfold bundle. rewrite gather_parts, wp_bind, wp_bind.
assert (Hrep : ∀ x w', reported x w' →
          ∀ c, x = Exit c →
               c = 1%Z ∧ untouched w'
               ∧ ∃ pre msg, log w' = pre ++ [EStderr msg] ∧ exit_report a msg).
{ intros x w1 [H1 H2] c Hc. destruct (H2 c Hc) as [-> H3]. done. }
assert (Hraised : ∀ x (w' : world), raised x →
          ∀ c, x = Exit c →
               c = 1%Z ∧ untouched w'
               ∧ ∃ pre msg, log w' = pre ++ [EStderr msg] ∧ exit_report a msg).
{ intros x w1 [e ->] c Hc. done. }
eapply wp_mono; [by apply check_args_exits| |exact Hrep].
clear w Hw. intros [] w Hw. cbn beta. rewrite wp_bind.
apply (wp_keeps untouched raised); [|done| |by intros x w1 _ Hx; apply Hraised].
{ unfold make_dirs. apply keeps_for_each. intros p _.
  apply keeps_mkdir. untouched_step. }
clear w Hw. intros [] w Hw. rewrite wp_bind.
eapply wp_mono; [|clear w Hw; intros [] w Hw; cbn beta|exact Hrep].
{ unfold copy_qt_frameworks.
  apply (wp_for_each untouched QT_FRAMEWORKS _ reported); [done|].
  intros name w1 Hn H1. by apply copy_qt_framework_exits. }
rewrite wp_bind.
apply (wp_keeps untouched raised); [|done| |by intros x w1 _ Hx; apply Hraised].
{ apply keeps_copy_qt_plugins_at; intros; untouched_step. }
clear w Hw. intros [] w Hw. rewrite wp_bind.
apply (wp_keeps untouched raised); [|done| |by intros x w1 _ Hx; apply Hraised].
{ apply keeps_write_text. untouched_step. }
clear w Hw. intros [] w Hw.
apply (wp_keeps (λ _, True) raised_or_fuel); [|done| |].
{ by apply keeps_gather_libs. }
- intros bins w1 _.
  apply (wp_keeps (λ _, True) raised); [by apply keeps_late_finish|done|done|].
  intros x w2 _ Hx. by apply Hraised.
- intros x w1 _ [->|Hx] c Hc; [done|]. by apply (Hraised x).
Qed.
End exits.

(** X23: whenever [bundle] ends by [sys.exit], the status is 1, the last
    thing it did was to print one of its two messages to stderr
    (["Missing bundle_dir or plugin_bin"] or ["Missing Qt framework: <path>"]
    for one of the six frameworks), and by then nothing had been copied into
    [Frameworks/lib] and no tool had run. *)
Theorem exit_is_reported (fuel : nat) (a : args) (fs0 : gmap str node) (c : Z) :
  (bundle_run fuel a fs0).1 = Abort (Exit c) →
  c = 1%Z
  ∧ untouched (bundle_run fuel a fs0).2
  ∧ ∃ pre msg, log (bundle_run fuel a fs0).2 = pre ++ [EStderr msg]
               ∧ exit_report a msg.
Proof.
  intros H. unfold bundle_run in *.
  pose proof (bundle_exits a fuel (World fs0 []) (Forall_nil_2 _)) as Hw.
  unfold wp in Hw. destruct (bundle fuel a (World fs0 [])) as [[[]|x] w']; [done|].
  simpl in H. injection H as ->. by apply Hw.
Qed.

Lemma exit_is_reported_witness :
  1%Z = 1%Z
  ∧ untouched (bundle_run 20 demo_args demo_no_dbus).2
  ∧ ∃ pre msg, log (bundle_run 20 demo_args demo_no_dbus).2 = pre ++ [EStderr msg]
               ∧ exit_report demo_args msg.
Proof.
  apply (exit_is_reported 20 demo_args demo_no_dbus 1). vm_compute. reflexivity.
Defined.
